(** * VideoGrab: the download job of [server.js]

    A shallow embedding of the websocket download handler, the two
    child-process wrappers ([runYtDlp], [runFFmpeg]) and the
    [/download/:filename] route of [src/server.js], with the properties
    the specification states about them.

    Conventions of the model.
    - A JavaScript string is the list of its UTF-16 code units.
    - A number is the rational value ([Q], in lowest terms) of an IEEE
      754 double, [NaN] or [Infinity].
    - The filesystem is an association list from absolute paths to the
      contents of regular files, in directory-listing order;
      directories are not part of it.
    - The external tools are oracles: for an argument vector and the
      filesystem at spawn time they give the events the event loop
      delivers while the job awaits the child, the exit code and the
      files the child leaves behind. *)

From Stdlib Require Import List String Ascii Bool NArith ZArith QArith Qabs
  Qpower Lia.
From Stdlib.Strings Require Import Byte.
Import ListNotations.

Set Implicit Arguments.
Close Scope Q_scope.

(* ================================================================= *)
(** ** JavaScript strings *)

Module Js.

Definition char := N.
Definition jsstring := list char.

(** A source literal, unit by unit (all literals of the file are ASCII). *)
Definition lit (s : string) : jsstring :=
  List.map N_of_ascii (list_ascii_of_string s).
Arguments lit s%_string.

Fixpoint eqb (a b : jsstring) : bool :=
  match a, b with
  | [], [] => true
  | x :: a', y :: b' => N.eqb x y && eqb a' b'
  | _, _ => false
  end.

(** [s.startsWith(p)] *)
Fixpoint startsWith (p s : jsstring) : bool :=
  match p, s with
  | [], _ => true
  | _ :: _, [] => false
  | x :: p', y :: s' => N.eqb x y && startsWith p' s'
  end.

(** [s.includes(needle)] *)
Fixpoint includes (needle s : jsstring) : bool :=
  startsWith needle s ||
  match s with
  | [] => false
  | _ :: s' => includes needle s'
  end.

(** [s.endsWith(suffix)] *)
Definition endsWith (suffix s : jsstring) : bool :=
  startsWith (rev suffix) (rev s).

(** The class [\s] of a regular expression, which is also what [trim]
    strips: WhiteSpace and LineTerminator code units. *)
Definition isSpace (c : char) : bool :=
  ((9 <=? c) && (c <=? 13) || (c =? 32) || (c =? 160) || (c =? 5760)
   || (8192 <=? c) && (c <=? 8202) || (c =? 8232) || (c =? 8233)
   || (c =? 8239) || (c =? 8287) || (c =? 12288) || (c =? 65279))%N.

(** The class [\d]: ASCII digits only. *)
Definition isDigit (c : char) : bool := ((48 <=? c) && (c <=? 57))%N.

(** The class [[a-zA-Z0-9]]. *)
Definition isAlnum (c : char) : bool :=
  ((97 <=? c) && (c <=? 122) || (65 <=? c) && (c <=? 90) || isDigit c)%N.

(** The class of the title sanitiser: backslash, slash, colon, star,
    question mark, double quote, angle brackets and bar. *)
Definition isHostile (c : char) : bool :=
  existsb (N.eqb c) [92; 47; 58; 42; 63; 34; 60; 62; 124]%N.

Fixpoint dropWhile (p : char -> bool) (s : jsstring) : jsstring :=
  match s with
  | [] => []
  | c :: s' => if p c then dropWhile p s' else s
  end.

(** [s.trim()] *)
Definition trim (s : jsstring) : jsstring :=
  rev (dropWhile isSpace (rev (dropWhile isSpace s))).

(** [s.replace(/[class]/g, '')] *)
Definition removeAll (p : char -> bool) (s : jsstring) : jsstring :=
  filter (fun c => negb (p c)) s.

(** [s.replace(c, '')] with a one-character string pattern: only the
    first occurrence goes. *)
Fixpoint removeFirst (c : char) (s : jsstring) : jsstring :=
  match s with
  | [] => []
  | x :: s' => if N.eqb x c then s' else x :: removeFirst c s'
  end.

(** [s.substring(0, n)] *)
Definition substring0 (n : nat) (s : jsstring) : jsstring := firstn n s.

(** The longest prefix made of characters of a class, and the rest. *)
Fixpoint span (p : char -> bool) (s : jsstring) : jsstring * jsstring :=
  match s with
  | [] => ([], [])
  | c :: s' =>
      if p c then let (a, b) := span p s' in (c :: a, b) else ([], s)
  end.

Definition stripPrefix (p s : jsstring) : option jsstring :=
  if startsWith p s then Some (skipn (List.length p) s) else None.

(** [s] has [needle] as a contiguous part. *)
Definition Substring (needle s : jsstring) : Prop :=
  exists pre post, s = pre ++ needle ++ post.

End Js.

Import Js.


(* ================================================================= *)
(** ** Messages on the websocket *)

(** A JavaScript number as far as the handler produces one: a finite
    double by its value, [NaN] or positive infinity. *)
Inductive number :=
| Num (q : Q)
| NaN
| Infinity.

(** The objects handed to [JSON.stringify] and [ws.send], by [type]. *)
Inductive message :=
| Status (message : jsstring) (percent : number)
| Progress (percent : number)
| Error (message : jsstring)
| DownloadReady (filename : jsstring) (size : N) (url : jsstring).

(* ================================================================= *)
(** ** Failure classification (lines 231-242) *)

Definition MSG_GENERIC :=
  lit "Failed to download video. Please check the URL and try again.".
Definition MSG_NOT_AVAILABLE :=
  lit "Video format not available. Try a different quality setting.".
Definition MSG_ACCESS :=
  lit "Video is private or requires login. Please check if the video is publicly accessible.".
Definition MSG_REGION :=
  lit "Video not available in your region due to geographic restrictions.".
Definition MSG_RIGHTS :=
  lit "Video unavailable due to copyright restrictions.".
Definition MSG_INTERNAL := lit "An internal server error occurred.".

(** The body of the inner [catch]: [errorMessage] from [error.message]. *)
Definition errorMessage (message : jsstring) : jsstring :=
  if includes (lit "format is not available") message then MSG_NOT_AVAILABLE
  else if includes (lit "private") message || includes (lit "login") message
       then MSG_ACCESS
  else if includes (lit "geo") message then MSG_REGION
  else if includes (lit "copyright") message then MSG_RIGHTS
  else MSG_GENERIC.

(* ================================================================= *)
(** ** The filesystem *)

Definition path := jsstring.
Definition bytes := list Byte.byte.
Definition filesystem := list (path * bytes).

Definition SLASH : char := 47%N.
Definition DOT : char := 46%N.

(** The parts of a path between its separators. *)
Fixpoint path_segments (p : jsstring) : list jsstring :=
  match p with
  | [] => [[]]
  | c :: p' =>
      if N.eqb c SLASH then [] :: path_segments p'
      else match path_segments p' with
           | segment :: rest => (c :: segment) :: rest
           | [] => [[c]]
           end
  end.

(** One round of [normalizeString], the loop behind [path.normalize]:
    the segments kept so far, innermost first, and the next one. An
    empty segment and "." are dropped; ".." removes the segment before
    it, and stays itself only in a relative path that has nothing left
    to remove. *)
Definition normalize_segment (allowAboveRoot : bool) (kept : list jsstring)
    (segment : jsstring) : list jsstring :=
  if eqb segment [] || eqb segment [DOT] then kept
  else if eqb segment [DOT; DOT] then
    match kept with
    | top :: below =>
        if eqb top [DOT; DOT]
        then (if allowAboveRoot then segment :: kept else kept)
        else below
    | [] => if allowAboveRoot then [segment] else []
    end
  else segment :: kept.

Fixpoint join_segments (segments : list jsstring) : jsstring :=
  match segments with
  | [] => []
  | [segment] => segment
  | segment :: rest => segment ++ SLASH :: join_segments rest
  end.

(** [path.normalize(p)] of POSIX paths. *)
Definition path_normalize (p : path) : path :=
  match p with
  | [] => [DOT]
  | _ :: _ =>
      let isAbsolute := startsWith [SLASH] p in
      let trailingSeparator := endsWith [SLASH] p in
      let kept :=
        fold_left (normalize_segment (negb isAbsolute)) (path_segments p) [] in
      match join_segments (rev kept) with
      | [] =>
          if isAbsolute then [SLASH]
          else if trailingSeparator then [DOT; SLASH] else [DOT]
      | c :: body =>
          (if isAbsolute then [SLASH] else [])
          ++ (c :: body) ++ (if trailingSeparator then [SLASH] else [])
      end
  end.

(** [path.join(dir, name)]: the arguments that are not empty, with a
    separator between them, normalised. *)
Definition path_join (dir name : jsstring) : path :=
  match dir, name with
  | [], [] => [DOT]
  | [], _ :: _ => path_normalize name
  | _ :: _, [] => path_normalize dir
  | _ :: _, _ :: _ => path_normalize (dir ++ SLASH :: name)
  end.

(** [path.basename(p)]: separators at the end are passed over, and the
    result is what follows the last separator before them. *)
Definition path_basename (p : path) : jsstring :=
  rev (fst (span (fun c => negb (N.eqb c SLASH))
              (dropWhile (fun c => N.eqb c SLASH) (rev p)))).

Fixpoint fs_lookup (p : path) (fs : filesystem) : option bytes :=
  match fs with
  | [] => None
  | (q, b) :: fs' => if eqb q p then Some b else fs_lookup p fs'
  end.

Definition fs_remove (p : path) (fs : filesystem) : filesystem :=
  filter (fun e => negb (eqb (fst e) p)) fs.

Fixpoint fs_write (p : path) (b : bytes) (fs : filesystem) : filesystem :=
  match fs with
  | [] => [(p, b)]
  | (q, c) :: fs' =>
      if eqb q p then (q, b) :: fs' else (q, c) :: fs_write p b fs'
  end.

(** The names of the entries directly inside [dir], in listing order. *)
Fixpoint fs_entries (dir : path) (fs : filesystem) : list jsstring :=
  match fs with
  | [] => []
  | (q, _) :: fs' =>
      match stripPrefix (dir ++ [SLASH]) q with
      | Some (c :: name) =>
          if includes [SLASH] (c :: name) then fs_entries dir fs'
          else (c :: name) :: fs_entries dir fs'
      | _ => fs_entries dir fs'
      end
  end.

(* ================================================================= *)
(** ** State, exceptions and the monad of the handlers *)

Inductive ready_state := CONNECTING | OPEN | CLOSING | CLOSED.

Definition is_open (r : ready_state) : bool :=
  match r with OPEN => true | _ => false end.

(** What a handler can touch: the socket (its [readyState] and what it
    has delivered to the peer so far) and the filesystem. *)
Record state := mkState {
  readyState : ready_state;
  sent : list message;
  files : filesystem
}.

(** A thrown [Error] is represented by its [message]. *)
Inductive result (A : Type) :=
| Ok (a : A)
| Throw (message : jsstring).
Arguments Ok {A} a.
Arguments Throw {A} message.

Definition M (A : Type) := state -> result A * state.

Definition ret {A} (a : A) : M A := fun st => (Ok a, st).

Definition throw {A} (message : jsstring) : M A :=
  fun st => (Throw message, st).

Definition bind {A B} (m : M A) (k : A -> M B) : M B :=
  fun st =>
    match m st with
    | (Ok a, st') => k a st'
    | (Throw e, st') => (Throw e, st')
    end.

(** [try { m } catch (error) { h(error.message) }] *)
Definition try_catch {A} (m : M A) (h : jsstring -> M A) : M A :=
  fun st =>
    match m st with
    | (Ok a, st') => (Ok a, st')
    | (Throw e, st') => h e st'
    end.

Notation "x <- m ;; k" := (bind m (fun x => k))
  (at level 61, m at next level, right associativity).
Notation "m ;;; k" := (bind m (fun _ => k))
  (at level 61, right associativity).

Definition get_readyState : M ready_state :=
  fun st => (Ok (readyState st), st).

Definition get_files : M filesystem := fun st => (Ok (files st), st).

Definition set_files (fs : filesystem) : M unit :=
  fun st => (Ok tt, mkState (readyState st) (sent st) fs).

(** [ws.send(JSON.stringify(update))] *)
Definition ws_send (update : message) : M unit :=
  fun st => (Ok tt, mkState (readyState st) (sent st ++ [update]) (files st)).

(** The peer's socket closes while the job is suspended. *)
Definition socket_closed : M unit :=
  fun st => (Ok tt, mkState CLOSED (sent st) (files st)).

Definition ENOENT (syscall : string) (p : path) : jsstring :=
  lit "ENOENT: no such file or directory, " ++ lit syscall ++ lit " '"
  ++ p ++ lit "'".

(** [await fs.access(p)], for what is a regular file or nothing. *)
Definition fs_access (p : path) : M unit :=
  fs <- get_files ;;
  match fs_lookup p fs with
  | Some _ => ret tt
  | None => throw (ENOENT "access" p)
  end.

(** [(await fs.stat(p)).size] *)
Definition fs_stat_size (p : path) : M N :=
  fs <- get_files ;;
  match fs_lookup p fs with
  | Some b => ret (N.of_nat (List.length b))
  | None => throw (ENOENT "stat" p)
  end.

(** [await fs.unlink(p)] *)
Definition fs_unlink (p : path) : M unit :=
  fs <- get_files ;;
  match fs_lookup p fs with
  | Some _ => set_files (fs_remove p fs)
  | None => throw (ENOENT "unlink" p)
  end.

(** [await fs.readdir(dir)] *)
Definition fs_readdir (dir : path) : M (list jsstring) :=
  fs <- get_files ;; ret (fs_entries dir fs).

(* ================================================================= *)
(** ** The progress pattern of [runYtDlp] (line 46) *)

Definition nonempty (s : jsstring) : bool :=
  match s with [] => false | _ :: _ => true end.

(** The pattern anchored at the head of [s]:
    [\[download\]], [\s+], then the group [(\d+\.\d+)], then [% of].
    The result is the text of the group. *)
Definition progress_match_here (s : jsstring) : option jsstring :=
  match stripPrefix (lit "[download]") s with
  | None => None
  | Some r1 =>
      let (ws, r2) := span isSpace r1 in
      let (ip, r3) := span isDigit r2 in
      match r3 with
      | c :: r4 =>
          let (fp, r5) := span isDigit r4 in
          if nonempty ws && nonempty ip && N.eqb c DOT && nonempty fp
             && startsWith (lit "% of") r5
          then Some (ip ++ DOT :: fp)
          else None
      | [] => None
      end
  end.

(** [outputString.match(/\[download\]\s+(\d+\.\d+)% of/)], reduced to
    [match[1]]: the leftmost position where the pattern matches wins. *)
Fixpoint progress_match (s : jsstring) : option jsstring :=
  match progress_match_here s with
  | Some g => Some g
  | None =>
      match s with
      | [] => None
      | _ :: s' => progress_match s'
      end
  end.

Definition digitValue (c : char) : Z := Z.of_N c - 48.

Definition decimalValue (ds : jsstring) : Z :=
  fold_left (fun a c => 10 * a + digitValue c)%Z ds 0%Z.

Fixpoint pow10 (n : nat) : positive :=
  match n with
  | O => 1%positive
  | S n' => (10 * pow10 n')%positive
  end.

(** The integer nearest to [a / w], the even one of two that are
    equally near. *)
Definition round_half_even (a w : Z) : Z :=
  let q := (a / w)%Z in
  match (2 * (a mod w) ?= w)%Z with
  | Lt => q
  | Gt => (q + 1)%Z
  | Eq => if Z.even q then q else (q + 1)%Z
  end.

(** The Number value for the rational [n / d], where [0 <= n] and
    [0 < d]: the nearest double, the one with the even significand of
    two that are equally near, and [Infinity] from [2^1024] on. With
    [a / d] the rational in units of [2^-1074], the least positive
    double, the result is [m * 2^e] such units for a significand [m] of
    at most 53 bits. *)
Definition Number_of_ratio (n d : Z) : number :=
  let a := (n * 2 ^ 1074)%Z in
  let e := Z.max 0 (Z.log2 (a / d) - 52) in
  let m := round_half_even a (d * 2 ^ e) in
  if (2 ^ 2098 <=? m * 2 ^ e)%Z then Infinity
  else Num (Qred (Qmake (m * 2 ^ e) (Z.to_pos (2 ^ 1074)))).

(** [parseFloat(s)] on the unsigned decimal literals without exponent
    (digits, optionally a dot and digits); the longest such prefix is
    read and its exact value rounded to a Number, however many digits
    it has, and text that starts with none gives [NaN]. Signs,
    exponents, leading blanks and the word Infinity are not modelled. *)
Definition parseFloat (s : jsstring) : number :=
  let (ip, r) := span isDigit s in
  match r with
  | c :: r' =>
      if N.eqb c DOT then
        let (fp, _) := span isDigit r' in
        if nonempty ip || nonempty fp
        then Number_of_ratio (decimalValue (ip ++ fp))
               (Z.pos (pow10 (List.length fp)))
        else NaN
      else if nonempty ip then Number_of_ratio (decimalValue ip) 1 else NaN
  | [] => if nonempty ip then Number_of_ratio (decimalValue ip) 1 else NaN
  end.

(** Lines 46-50: what the stdout handler reports for one chunk, if
    anything ([match && match[1]] guards the report). *)
Definition stdout_progress (outputString : jsstring) : option message :=
  match progress_match outputString with
  | Some m1 =>
      if nonempty m1 then Some (Progress (parseFloat m1)) else None
  | None => None
  end.

(* ================================================================= *)
(** ** Child processes *)

(** What the event loop delivers while a job awaits a child: a chunk on
    the child's stdout or stderr, or the close of the peer's socket. *)
Inductive io_event :=
| Stdout (data : jsstring)
| Stderr (data : jsstring)
| SocketClose.

Record process_run := mkRun {
  events : list io_event;
  exitCode : Z;
  leaves : list (path * bytes)
}.

(** An external executable: argument vector and filesystem at spawn
    time to what happens. *)
Definition tool := list jsstring -> filesystem -> process_run.

Definition spawn (t : tool) (args : list jsstring) : M process_run :=
  fs <- get_files ;; ret (t args fs).

(** The filesystem after a child has left its files. *)
Definition written (l : list (path * bytes)) (fs : filesystem) : filesystem :=
  fold_left (fun fs e => fs_write (fst e) (snd e) fs) l fs.

(** The files the child leaves are on disk when it has closed. *)
Definition child_closed (r : process_run) : M unit :=
  fs <- get_files ;; set_files (written (leaves r) fs).

Definition num (z : Z) : number := Num (inject_Z z).

(** The [data] handlers of [runYtDlp] (lines 41-60), event by event,
    with the accumulators [output] and [error]. *)
Fixpoint runYtDlp_events (onProgress : message -> M unit)
    (evs : list io_event) (output error : jsstring)
    : M (jsstring * jsstring) :=
  match evs with
  | [] => ret (output, error)
  | Stdout outputString :: evs' =>
      (match stdout_progress outputString with
       | Some update => onProgress update
       | None => ret tt
       end) ;;;
      runYtDlp_events onProgress evs' (output ++ outputString) error
  | Stderr errorString :: evs' =>
      (if includes (lit "ERROR:") errorString
       then onProgress (Error errorString)
       else ret tt) ;;;
      runYtDlp_events onProgress evs' output (error ++ errorString)
  | SocketClose :: evs' =>
      socket_closed ;;; runYtDlp_events onProgress evs' output error
  end.

(** The [data] handler of [runFFmpeg] (lines 78-85); its stdout has no
    listener. *)
Fixpoint runFFmpeg_events (onProgress : message -> M unit)
    (evs : list io_event) (error : jsstring) : M jsstring :=
  match evs with
  | [] => ret error
  | Stdout _ :: evs' => runFFmpeg_events onProgress evs' error
  | Stderr errorString :: evs' =>
      (if includes (lit "size=") errorString
       then onProgress (Progress (num 90))
       else ret tt) ;;;
      runFFmpeg_events onProgress evs' (error ++ errorString)
  | SocketClose :: evs' =>
      socket_closed ;;; runFFmpeg_events onProgress evs' error
  end.

(** [error || fallback] on strings: the empty string is falsy. *)
Definition or_else (error fallback : jsstring) : jsstring :=
  if nonempty error then error else fallback.

(* ================================================================= *)
(** ** The download job (lines 128-252) *)

Record payload := mkPayload {
  url : jsstring;
  format : jsstring;
  quality : jsstring
}.

(** An inbound websocket message after [JSON.parse] and the first
    destructuring. [Unparsable] is text on which one of the two throws:
    text that is no JSON, and the value null. Any other value is an
    [Envelope] with its [type] and, when it has one, its [payload]; a
    value without a [type], or with one that is no string, stands as an
    envelope of a type that is not the one of a download request. *)
Inductive inbound :=
| Unparsable
| Envelope (type : jsstring) (payload : option payload).

(** The template literal of lines 180 and 183. *)
Definition formatSelector (format quality : jsstring) : jsstring :=
  if eqb quality (lit "auto") then
    lit "bestvideo[ext=" ++ format ++ lit "]+bestaudio/best"
  else
    let height := removeFirst 112%N quality in
    lit "bestvideo[height<=" ++ height ++ lit "][ext=" ++ format
    ++ lit "]+bestaudio[ext=m4a]/best[height<=" ++ height
    ++ lit "][ext=" ++ format ++ lit "]".

(** [`${fileId}_${sanitizedUrl}`], the prefix of every file of a job. *)
Definition workingName (fileId sanitizedUrl : jsstring) : jsstring :=
  fileId ++ lit "_" ++ sanitizedUrl.

(** [url.replace(/[^a-zA-Z0-9]/g, '').substring(0, 10)] *)
Definition sanitizeUrl (url : jsstring) : jsstring :=
  substring0 10 (removeAll (fun c => negb (isAlnum c)) url).

(** [videoTitle.replace(/[\\/:*?...<>|]/g, '').trim() || 'video'] *)
Definition sanitizeTitle (videoTitle : jsstring) : jsstring :=
  or_else (trim (removeAll isHostile videoTitle)) (lit "video").

Section Job.

(** The staging directory, the two executables and the identifier
    [uuidv4()] returns to this job. *)
Variable DOWNLOADS_DIR : path.
Variable yt_dlp ffmpeg : tool.
Variable uuidv4 : jsstring.

(** Directories are not part of the file model: once ensured, the
    staging directory is there. *)
Definition ensureDownloadsDir : M unit := ret tt.

(** [runYtDlp(args, onProgress)] (lines 35-70) *)
Definition runYtDlp (args : list jsstring) (onProgress : message -> M unit)
    : M jsstring :=
  process <- spawn yt_dlp args ;;
  acc <- runYtDlp_events onProgress (events process) [] [] ;;
  child_closed process ;;;
  if (exitCode process =? 0)%Z then ret (fst acc)
  else throw (or_else (snd acc) (lit "Video processing command failed")).

(** [runFFmpeg(args, onProgress)] (lines 73-95) *)
Definition runFFmpeg (args : list jsstring) (onProgress : message -> M unit)
    : M unit :=
  process <- spawn ffmpeg args ;;
  error <- runFFmpeg_events onProgress (events process) [] ;;
  child_closed process ;;;
  if (exitCode process =? 0)%Z then ret tt
  else throw (or_else error (lit "Video conversion failed")).

(** [sendProgress] (lines 136-140) *)
Definition sendProgress (update : message) : M unit :=
  rs <- get_readyState ;;
  if is_open rs then ws_send update else ret tt.

(** [outputTemplate] (lines 161 and 177) *)
Definition outputTemplate (fileId sanitizedUrl : jsstring) : path :=
  path_join DOWNLOADS_DIR (workingName fileId sanitizedUrl ++ lit ".%(ext)s").

(** [ytDlpArgs] of the audio branch (lines 162-170) *)
Definition audio_args (p : payload) (fileId sanitizedUrl : jsstring)
    : list jsstring :=
  [lit "--extract-audio"; lit "--audio-format"; format p;
   lit "--audio-quality"; lit "0";
   lit "--output"; outputTemplate fileId sanitizedUrl;
   lit "--no-playlist"; lit "--embed-thumbnail"; url p].

(** [ytDlpArgs] of the video branch (lines 185-194) *)
Definition video_args (p : payload) (fileId sanitizedUrl : jsstring)
    : list jsstring :=
  [lit "--format"; formatSelector (format p) (quality p);
   lit "--output"; outputTemplate fileId sanitizedUrl; lit "--no-playlist";
   lit "--merge-output-format"; format p; lit "--embed-subs";
   lit "--write-auto-subs"; lit "--sub-lang"; lit "en"; url p].

(** The audio branch (lines 161-174): the final path is written down
    from the working name and the requested format. *)
Definition audio_download (p : payload) (fileId sanitizedUrl : jsstring)
    : M path :=
  sendProgress (Status (lit "Downloading audio...") (num 20)) ;;;
  runYtDlp (audio_args p fileId sanitizedUrl) sendProgress ;;;
  ret (path_join DOWNLOADS_DIR
         (workingName fileId sanitizedUrl ++ lit "." ++ format p)).

(** Lines 199-203: the first entry of the staging directory whose name
    starts with the working name. *)
Definition locate_download (fileId sanitizedUrl : jsstring) : M jsstring :=
  files <- fs_readdir DOWNLOADS_DIR ;;
  match find (startsWith (workingName fileId sanitizedUrl)) files with
  | Some downloadedFile => ret downloadedFile
  | None => throw (lit "Downloaded file not found")
  end.

(** The video branch (lines 177-213). *)
Definition video_download (p : payload) (fileId sanitizedUrl : jsstring)
    : M path :=
  sendProgress (Status (lit "Downloading video...") (num 20)) ;;;
  runYtDlp (video_args p fileId sanitizedUrl) sendProgress ;;;
  downloadedFile <- locate_download fileId sanitizedUrl ;;
  let finalPath := path_join DOWNLOADS_DIR downloadedFile in
  if negb (endsWith (lit "." ++ format p) downloadedFile) then
    let convertedPath :=
      path_join DOWNLOADS_DIR
        (workingName fileId sanitizedUrl ++ lit "_converted." ++ format p) in
    sendProgress (Status (lit "Converting file...") (num 80)) ;;;
    runFFmpeg [lit "-i"; finalPath; lit "-c"; lit "copy"; convertedPath]
      sendProgress ;;;
    fs_unlink finalPath ;;;
    ret convertedPath
  else ret finalPath.

(** The format dispatch (lines 160-216); the result is [finalPath]. *)
Definition download_step (p : payload) (fileId sanitizedUrl : jsstring)
    : M path :=
  if existsb (eqb (format p)) [lit "mp3"; lit "m4a"] then
    audio_download p fileId sanitizedUrl
  else if existsb (eqb (format p)) [lit "mp4"; lit "webm"] then
    video_download p fileId sanitizedUrl
  else throw (lit "Unsupported format: " ++ format p).

(** Lines 218-221: the size check on the final file. *)
Definition finalize (finalPath : path) : M N :=
  size <- fs_stat_size finalPath ;;
  if (size =? 0)%N then throw (lit "Downloaded file is empty")
  else ret size.

(** The body of the inner [try] (lines 146-229). *)
Definition download_job (p : payload) : M unit :=
  ensureDownloadsDir ;;;
  output <- runYtDlp [lit "--get-title"; url p] sendProgress ;;
  let videoTitle := trim output in
  let sanitizedTitle := sanitizeTitle videoTitle in
  sendProgress (Status (lit "Processing: " ++ videoTitle) (num 10)) ;;;
  let fileId := uuidv4 in
  let sanitizedUrl := sanitizeUrl (url p) in
  let finalFilename := sanitizedTitle ++ lit "." ++ format p in
  finalPath <- download_step p fileId sanitizedUrl ;;
  size <- finalize finalPath ;;
  sendProgress
    (DownloadReady finalFilename size
       (lit "/download/" ++ path_basename finalPath)).

(** A [download-request] (lines 133-243): the first status, the job,
    and the inner [catch] that classifies and reports. *)
Definition on_download_request (p : payload) : M unit :=
  sendProgress (Status (lit "Fetching video information...") (num 5)) ;;;
  try_catch (download_job p)
    (fun message => sendProgress (Error (errorMessage message))).

(** The [message] handler with its outer [try]/[catch] (lines 129-251). *)
Definition on_message (m : inbound) : M unit :=
  try_catch
    (match m with
     | Unparsable => throw (lit "Unexpected token in JSON")
     | Envelope type payload =>
         if eqb type (lit "download-request") then
           match payload with
           | Some p => on_download_request p
           | None => throw (lit "Cannot destructure property 'url'")
           end
         else ret tt
     end)
    (fun _ =>
       rs <- get_readyState ;;
       if is_open rs then ws_send (Error MSG_INTERNAL) else ret tt).

(* ----------------------------------------------------------------- *)
(** *** The retrieval route (lines 255-279) *)

(** What becomes of the transfer that [res.download] starts, as Express
    settles it from the request and the connection. It ends without
    error when the whole file went out ([Completed]), when the request
    was a HEAD and only the headers went out ([HeadersOnly]), when a
    conditional request found the client's copy fresh and got a 304
    ([NotModified]), and when the request asked for the bytes [first]
    to [last] with a Range header that the file can satisfy
    ([Partial]). It ends with an error otherwise, before or after the
    response headers went out ([Failed]): the connection breaks, a
    precondition of the request fails, or Express refuses the path, as
    it does for a directory and for a name that begins with a dot. *)
Inductive transfer :=
| Completed
| HeadersOnly
| NotModified
| Partial (first last : nat)
| Failed (headersSent : bool).

Inductive response :=
| Json (status : N) (error : jsstring)
| Attachment (saveName : jsstring) (body : bytes)
| AttachmentHead (saveName : jsstring) (size : N)
| NotModified304
| PartialContent (saveName : jsstring) (first : nat) (body : bytes)
| Interrupted (saveName : jsstring).

(** The bytes a satisfiable range [first]-[last] selects: [last] is cut
    down to the end of the file. *)
Definition byte_range (first last : nat) (body : bytes) : bytes :=
  firstn (last + 1 - first) (skipn first body).

(** A range is satisfiable when it is not empty and starts inside the
    file; Express answers 416 otherwise, which is an error. *)
Definition satisfiable (first last : nat) (body : bytes) : bool :=
  (first <=? last) && (first <? List.length body).

(** [res.download(filePath, saveName, callback)] with the callback of
    lines 259-274: an error is answered 500 if the headers are still to
    go, and without error the file is unlinked, whatever went out. The
    name in the Content-Disposition header is the base name of
    [saveName]. *)
Definition res_download (filePath : path) (saveName : jsstring)
    (t : transfer) : M response :=
  let name := path_basename saveName in
  let failed := ret (Json 500 (lit "File download failed")) in
  let cleanup := try_catch (fs_unlink filePath) (fun _ => ret tt) in
  fs <- get_files ;;
  match t, fs_lookup filePath fs with
  | Completed, Some body => cleanup ;;; ret (Attachment name body)
  | HeadersOnly, Some body =>
      cleanup ;;; ret (AttachmentHead name (N.of_nat (List.length body)))
  | NotModified, Some body => cleanup ;;; ret NotModified304
  | Partial first last, Some body =>
      if satisfiable first last body then
        cleanup ;;; ret (PartialContent name first (byte_range first last body))
      else failed
  | Failed headersSent, _ =>
      if negb headersSent then failed else ret (Interrupted name)
  | _, None => failed
  end.

(** [app.get('/download/:filename', ...)]. The name comes decoded from
    the request, so it can hold separators and dot segments; [path.join]
    resolves them. As the filesystem knows regular files only, a name
    that resolves to a directory is outside the model: there
    [fs.access] succeeds and the transfer ends with an error. *)
Definition download_route (filename : jsstring) (t : transfer) : M response :=
  let filePath := path_join DOWNLOADS_DIR filename in
  try_catch
    (fs_access filePath ;;; res_download filePath filename t)
    (fun _ => ret (Json 404 (lit "File not found or has expired."))).

End Job.

(* ================================================================= *)
(** ** Notions the statements use *)

(** The five user-facing messages of the inner [catch]. *)
Definition fixed_categories : list jsstring :=
  [MSG_NOT_AVAILABLE; MSG_ACCESS; MSG_REGION; MSG_RIGHTS; MSG_GENERIC].

Definition is_error (m : message) : bool :=
  match m with Error _ => true | _ => false end.

Definition is_ready (m : message) : bool :=
  match m with DownloadReady _ _ _ => true | _ => false end.

(** The progress pattern read as a language: [s] begins with the
    marker, at least one blank, an integer part [ip], a dot, a
    fraction [fp], and [% of]. *)
Definition ProgressLine (s ip fp : jsstring) : Prop :=
  exists ws rest,
    s = lit "[download]" ++ ws ++ ip ++ DOT :: fp ++ lit "% of" ++ rest
    /\ ws <> [] /\ forallb isSpace ws = true
    /\ ip <> [] /\ forallb isDigit ip = true
    /\ fp <> [] /\ forallb isDigit fp = true.

(** The pattern matches [s] at offset [k]. *)
Definition ProgressAt (s : jsstring) (k : nat) (ip fp : jsstring) : Prop :=
  k <= List.length s /\ ProgressLine (skipn k s) ip fp.

(** The mathematical value of a string of decimal digits, as the
    grammar of numeric literals gives it: digit by digit from the left,
    ten times what came before plus the digit. *)
Inductive DigitsValue : jsstring -> Z -> Prop :=
| DigitsValue_nil : DigitsValue [] 0
| DigitsValue_snoc (ds : jsstring) (v : Z) (c : char) :
    DigitsValue ds v -> isDigit c = true ->
    DigitsValue (ds ++ [c]) (10 * v + (Z.of_N c - 48)).

(** The mathematical value of the decimal numeral [ip.fp]: the value of
    [ip] plus the value of [fp] over ten to the number of its digits. *)
Definition NumeralValue (ip fp : jsstring) (x : Q) : Prop :=
  exists vi vf,
    DigitsValue ip vi /\ DigitsValue fp vf
    /\ (x == inject_Z vi
             + inject_Z vf / inject_Z (10 ^ Z.of_nat (List.length fp)))%Q.

(** The finite values of the Number type, IEEE 754 binary64: a
    significand [m] of at most 53 bits and an exponent [e] stand for
    [m * 2^e]. The pair is the one of the format: the significand has
    all its 53 bits unless the exponent is the least one. *)
Definition Binary64 (m e : Z) : Prop :=
  (Z.abs m < 2 ^ 53 /\ -1074 <= e <= 971
   /\ (2 ^ 52 <= Z.abs m \/ e = -1074))%Z.

Definition binary_value (m e : Z) : Q := (inject_Z m * 2 ^ e)%Q.

(** What a real number can be rounded to (ECMA-262, 6.1.6.1): the
    finite values of the Number type, each with the parity of its
    significand, and the two values [2^1024] and [-2^1024], which count
    as even. *)
Inductive Candidate : Q -> bool -> Prop :=
| Candidate_finite (m e : Z) (c : Q) :
    Binary64 m e -> (c == binary_value m e)%Q -> Candidate c (Z.even m)
| Candidate_limit (c : Q) :
    (Qabs c == binary_value 1 1024)%Q -> Candidate c true.

(** [c] is the candidate chosen for [x]: none is nearer, and if another
    one is as near, [c] is even. *)
Definition Closest (x c : Q) (even : bool) : Prop :=
  Candidate c even
  /\ forall c' even', Candidate c' even' ->
       (Qabs (x - c) <= Qabs (x - c'))%Q
       /\ ((Qabs (x - c') == Qabs (x - c))%Q -> ~ (c' == c)%Q ->
           even = true).

(** The Number value for a real [x] that is not negative: the chosen
    candidate, or [Infinity] when that is [2^1024]. *)
Inductive NumberFor (x : Q) : number -> Prop :=
| NumberFor_finite (c : Q) (even : bool) :
    Closest x c even -> (Qabs c < binary_value 1 1024)%Q ->
    NumberFor x (Num (Qred c))
| NumberFor_Infinity :
    Closest x (binary_value 1 1024) true -> NumberFor x Infinity.

(** What one stdout chunk contributes to the reports. *)
Definition stdout_reports (outputString : jsstring) : list message :=
  match stdout_progress outputString with
  | Some update => [update]
  | None => []
  end.

(** The alternatives of a yt-dlp format selector, in the order the tool
    tries them: the parts between slashes. *)
Fixpoint alternatives (selector : jsstring) : list jsstring :=
  match selector with
  | [] => [[]]
  | c :: s' =>
      if N.eqb c SLASH then [] :: alternatives s'
      else match alternatives s' with
           | a :: rest => (c :: a) :: rest
           | [] => [[c]]
           end
  end.

(** The text a run puts on stdout, and on stderr. *)
Fixpoint stdout_text (evs : list io_event) : jsstring :=
  match evs with
  | [] => []
  | Stdout data :: evs' => data ++ stdout_text evs'
  | _ :: evs' => stdout_text evs'
  end.

Fixpoint stderr_text (evs : list io_event) : jsstring :=
  match evs with
  | [] => []
  | Stderr data :: evs' => data ++ stderr_text evs'
  | _ :: evs' => stderr_text evs'
  end.

(** Two computations that agree on their result and on the files they
    leave whenever they start from the same files, whatever the socket. *)
Definition same_outcome {A} (m1 m2 : M A) : Prop :=
  forall st1 st2, files st1 = files st2 ->
    fst (m1 st1) = fst (m2 st2) /\ files (snd (m1 st1)) = files (snd (m2 st2)).

(** A computation that only appends to [sent], and only messages in [P]. *)
Definition sends_only {A} (P : message -> Prop) (m : M A) : Prop :=
  forall st, exists l, sent (snd (m st)) = sent st ++ l /\ Forall P l.

(** A computation that delivers nothing once the socket is not open,
    and does not reopen it. *)
Definition mute_when_closed {A} (m : M A) : Prop :=
  forall st, readyState st <> OPEN ->
    sent (snd (m st)) = sent st /\ readyState (snd (m st)) <> OPEN.

(** A tool whose runs are never interleaved with the close of the socket. *)
Definition undisturbed (t : tool) : tool :=
  fun args fs =>
    let r := t args fs in
    mkRun (filter (fun e => match e with SocketClose => false | _ => true end)
             (events r))
          (exitCode r) (leaves r).

(** No separator of alternatives inside [s]. *)
Definition noSlash (s : jsstring) : bool :=
  forallb (fun c => negb (N.eqb c SLASH)) s.

(** [part] holds the bytes of [body] from position [first] to position
    [last], or to the end of [body] if that comes before. *)
Definition RangeOf (first last : nat) (body part : bytes) : Prop :=
  List.length part = Nat.min last (List.length body - 1) + 1 - first
  /\ forall i, i < List.length part ->
       nth_error part i = nth_error body (first + i).

(** A path that lies inside a directory: the directory, a separator
    and something more. *)
Definition inside (dir p : path) : bool :=
  match stripPrefix (dir ++ [SLASH]) p with
  | Some (_ :: _) => true
  | _ => false
  end.

(** A name that is one segment of a path and stands for itself: not
    empty, without separator, and neither "." nor "..". *)
Definition plain_name (name : jsstring) : bool :=
  nonempty name && noSlash name
  && negb (eqb name [DOT]) && negb (eqb name [DOT; DOT]).

(* ================================================================= *)
(** ** Concrete scenarios *)

Definition ex_DIR : path := lit "/srv/videograb/downloads".
Definition ex_fileId : jsstring := lit "7c9e6679-7425-40de-944b-e07fc1f90ae7".
Definition ex_staged_name : jsstring :=
  lit "7c9e6679-7425-40de-944b-e07fc1f90ae7_httpsexamp.mp4".
Definition ex_body : bytes := [x00; x00; x00; x18; x66; x74; x79; x70].

(** A staging directory that holds one finished artifact. *)
Definition ex_staged : state :=
  mkState OPEN [] [(path_join ex_DIR ex_staged_name, ex_body)].

(** A download-ready message announces a size above zero. *)
Definition ready_size_positive (m : message) : Prop :=
  match m with
  | DownloadReady _ size _ => (0 < size)%N
  | _ => True
  end.

(** What the specification lets the peer see: any status, progress or
    download-ready message, and errors from the fixed categories only. *)
Definition classified_only (m : message) : Prop :=
  match m with
  | Error text => In text fixed_categories
  | _ => True
  end.

(** What the handler can put on the socket: besides the above, the
    internal-error message of the outer [catch], and a stderr chunk of
    the extraction tool that carries the marker "ERROR:". *)
Definition forwarded (yt_dlp : tool) (m : message) : Prop :=
  match m with
  | Error text =>
      In text fixed_categories
      \/ text = MSG_INTERNAL
      \/ (Substring (lit "ERROR:") text
          /\ exists args fs, In (Stderr text) (events (yt_dlp args fs)))
  | _ => True
  end.

Definition ex_request : payload :=
  mkPayload (lit "https://example/video") (lit "mp3") (lit "auto").

Definition ex_download_request : inbound :=
  Envelope (lit "download-request") (Some ex_request).

(** The extraction tool of the scenario of section 8: it writes
    "ERROR: Private video" on stderr and exits with status 1. *)
Definition ex_private_video : tool :=
  fun _ _ => mkRun [Stderr (lit "ERROR: Private video")] 1 [].

(** A tool that says nothing, leaves nothing and exits with status 0. *)
Definition ex_idle : tool := fun _ _ => mkRun [] 0 [].

(** An open socket and an empty staging directory. *)
Definition ex_fresh : state := mkState OPEN [] [].

Definition ex_prefix : jsstring :=
  workingName ex_fileId (sanitizeUrl (url ex_request)).

(** An extraction tool that exits with status 0 and leaves the audio
    under the extension m4a. *)
Definition ex_leaves_m4a : tool :=
  fun _ _ => mkRun [] 0 [(path_join ex_DIR (ex_prefix ++ lit ".m4a"), ex_body)].

Definition ex_request_mp4 : payload :=
  mkPayload (lit "https://example/video") (lit "mp4") (lit "720p").

(** An extraction tool that exits with status 0 and leaves an mp4. *)
Definition ex_leaves_mp4 : tool :=
  fun _ _ => mkRun [] 0 [(path_join ex_DIR (ex_prefix ++ lit ".mp4"), ex_body)].

(** An extraction tool that prints a title when asked for one, and
    otherwise downloads a file of zero bytes, with status 0 each time. *)
Definition ex_empty_download : tool :=
  fun args _ =>
    match args with
    | a :: _ =>
        if eqb a (lit "--get-title")
        then mkRun [Stdout (lit "Big Buck Bunny")] 0 []
        else mkRun [Stdout (lit "[download] 100.0% of 0.00B")] 0
               [(path_join ex_DIR (ex_prefix ++ lit ".mp3"), [])]
    | [] => mkRun [] 0 []
    end.

(** An extraction tool during whose title run the peer goes away. *)
Definition ex_peer_leaves : tool :=
  fun args _ =>
    match args with
    | a :: _ =>
        if eqb a (lit "--get-title")
        then mkRun [SocketClose; Stdout (lit "Big Buck Bunny")] 0 []
        else mkRun [Stdout (lit "[download]  50.0% of 3.00MiB")] 0
               [(path_join ex_DIR (ex_prefix ++ lit ".mp3"), ex_body)]
    | [] => mkRun [] 0 []
    end.

(** The same staging directory as [ex_fresh] behind a closed socket. *)
Definition ex_gone : state := mkState CLOSED [] [].

(** A finished artifact in staging and a file next to the staging
    directory. *)
Definition ex_exposed : state :=
  mkState OPEN []
    [(path_join ex_DIR ex_staged_name, ex_body);
     (lit "/srv/videograb/secret.txt", ex_body)].

(** A staging directory that holds one file of zero bytes. *)
Definition ex_empty_staged : state :=
  mkState OPEN [] [(path_join ex_DIR ex_staged_name, [])].

(* ================================================================= *)
(** ** Notions for the child-process wrappers *)

(** What one event of a run makes [runYtDlp] hand to its callback. *)
Definition ytdlp_reports (e : io_event) : list message :=
  match e with
  | Stdout data => stdout_reports data
  | Stderr data => if includes (lit "ERROR:") data then [Error data] else []
  | SocketClose => []
  end.

(** What one event of a run makes [runFFmpeg] hand to its callback. *)
Definition ffmpeg_reports (e : io_event) : list message :=
  match e with
  | Stderr data =>
      if includes (lit "size=") data then [Progress (num 90)] else []
  | _ => []
  end.

Definition is_close (e : io_event) : bool :=
  match e with SocketClose => true | _ => false end.

(** The events of a run up to the moment the socket closes. *)
Fixpoint before_close (evs : list io_event) : list io_event :=
  match evs with
  | [] => []
  | e :: evs' => if is_close e then [] else e :: before_close evs'
  end.

(** A callback that returns normally and leaves the files alone. *)
Definition callback_returns (onProgress : message -> M unit) : Prop :=
  forall update st,
    exists st', onProgress update st = (Ok tt, st') /\ files st' = files st.

(** The callback [() => {}] of the metadata route (line 105). *)
Definition no_progress (update : message) : M unit := ret tt.

(** A run that reports progress, warns, and fails with an error line. *)
Definition ex_chatty : tool :=
  fun _ _ =>
    mkRun [ Stdout (lit "[download]  10.0% of 3.00MiB");
            Stderr (lit "WARNING: slow connection");
            Stdout (lit "Destination: clip.webm");
            Stdout (lit "[download] 100.0% of 3.00MiB");
            Stderr (lit "ERROR: unable to download video data") ]
          1 [].

(** The same run, with the peer leaving after the first chunk. *)
Definition ex_chatty_left : tool :=
  fun _ _ =>
    mkRun [ Stdout (lit "[download]  10.0% of 3.00MiB");
            SocketClose;
            Stdout (lit "[download] 100.0% of 3.00MiB");
            Stderr (lit "ERROR: unable to download video data") ]
          1 [].

(** A transcoder run with two size lines. *)
Definition ex_remux : tool :=
  fun _ _ =>
    mkRun [ Stderr (lit "Input #0, matroska,webm");
            Stdout (lit "ignored");
            Stderr (lit "frame=  100 size=     512kB time=00:00:04");
            Stderr (lit "frame=  200 size=    1024kB time=00:00:08") ]
          0 [].

(* ================================================================= *)
(** ** The metadata route (lines 98-125) *)

(** One element of [formats] in the tool's JSON, as far as the route
    reads it; an absent or null member is [None]. *)
Record format_entry := mkFormat {
  format_id : option jsstring;
  ext : option jsstring;
  height : option N;
  filesize : option N
}.

(** The parsed output of [--dump-json], as far as the route reads it. *)
Record video_info := mkInfo {
  info_title : option jsstring;
  duration_string : option jsstring;
  uploader : option jsstring;
  thumbnail : option jsstring;
  formats : option (list format_entry)
}.

(** One element of [formats] in the answer. *)
Record format_summary := mkSummary {
  summary_format_id : option jsstring;
  summary_ext : option jsstring;
  summary_quality : N;
  summary_filesize : option N
}.

Inductive info_response :=
| InfoError (status : N) (error : jsstring)
| Info (title : option jsstring) (duration uploader : jsstring)
       (thumbnail : option jsstring) (formats : list format_summary).

(** [s || fallback] where [s] may be missing. *)
Definition string_or (s : option jsstring) (fallback : jsstring) : jsstring :=
  match s with
  | Some text => or_else text fallback
  | None => fallback
  end.

(** The arrow function of lines 112-117. *)
Definition summarise_format (f : format_entry) : format_summary :=
  mkSummary (format_id f) (ext f)
    (match height f with Some h => h | None => 0%N end)
    (filesize f).

(** The object handed to [res.json] (lines 107-118). *)
Definition summarise (videoInfo : video_info) : info_response :=
  Info (info_title videoInfo)
    (string_or (duration_string videoInfo) (lit "Unknown"))
    (string_or (uploader videoInfo) (lit "Unknown"))
    (thumbnail videoInfo)
    (match formats videoInfo with
     | Some fs => List.map summarise_format fs
     | None => []
     end).

Definition MSG_INFO_FAILED : jsstring :=
  lit "Failed to get video information. Please check the URL and try again.".

Section Metadata.

(** The extraction tool, and [JSON.parse] followed by the reads of the
    route: [None] when parsing or reading throws. *)
Variable yt_dlp : tool.
Variable JSON_parse : jsstring -> option video_info.

(** [app.post('/api/video-info', ...)]; [url] is [req.body.url], [None]
    when the body has none. *)
Definition video_info_route (url : option jsstring) : M info_response :=
  try_catch
    (match url with
     | Some u =>
         if nonempty u then
           output <- runYtDlp yt_dlp
                       [lit "--dump-json"; lit "--no-download"; u]
                       no_progress ;;
           match JSON_parse output with
           | Some videoInfo => ret (summarise videoInfo)
           | None => throw (lit "Unexpected token in JSON")
           end
         else ret (InfoError 400 (lit "URL is required"))
     | None => ret (InfoError 400 (lit "URL is required"))
     end)
    (fun _ => ret (InfoError 500 MSG_INFO_FAILED)).

End Metadata.

(** A tool that prints a JSON document and exits with status 0, and a
    parser that knows this one document. *)
Definition ex_dump_json : tool :=
  fun _ _ => mkRun [Stdout (lit "{title:Big Buck Bunny}")] 0 [].

Definition ex_parse (text : jsstring) : option video_info :=
  if eqb text (lit "{title:Big Buck Bunny}") then
    Some (mkInfo (Some (lit "Big Buck Bunny")) None (Some []) None
            (Some [mkFormat (Some (lit "18")) (Some (lit "mp4")) (Some 360%N)
                     None;
                   mkFormat (Some (lit "140")) (Some (lit "m4a")) None
                     (Some 1024%N)]))
  else None.

(** The first and the last code unit of a string are no blanks. *)
Definition trimmed (s : jsstring) : Prop :=
  (forall c r, s = c :: r -> isSpace c = false)
  /\ (forall c r, s = r ++ [c] -> isSpace c = false).

(** An extraction tool that leaves a webm, and a transcoder that turns
    it into the converted mp4. *)
Definition ex_leaves_webm : tool :=
  fun _ _ => mkRun [] 0 [(path_join ex_DIR (ex_prefix ++ lit ".webm"), ex_body)].

Definition ex_remux_ok : tool :=
  fun _ _ =>
    mkRun [Stderr (lit "frame=  100 size=     512kB time=00:00:04")] 0
      [(path_join ex_DIR (ex_prefix ++ lit "_converted.mp4"), ex_body)].

(** An extraction tool that prints a title when asked for one, and
    otherwise downloads the audio under the requested extension. *)
Definition ex_audio_ok : tool :=
  fun args _ =>
    match args with
    | a :: _ =>
        if eqb a (lit "--get-title")
        then mkRun [Stdout (lit "Big Buck Bunny")] 0 []
        else mkRun [Stdout (lit "[download] 100.0% of 3.00MiB")] 0
               [(path_join ex_DIR (ex_prefix ++ lit ".mp3"), ex_body)]
    | [] => mkRun [] 0 []
    end.

Definition ex_request_flac : payload :=
  mkPayload (lit "https://example/video") (lit "flac") (lit "auto").

(** A tool that only knows how to print a title. *)
Definition ex_title_only : tool :=
  fun _ _ => mkRun [Stdout (lit "  Big Buck Bunny ")] 0 [].

(** A message other than download-ready. *)
Definition not_ready (m : message) : Prop := is_ready m = false.

(** A computation that, when it returns, has handed a download-ready
    message of positive size to the socket as its very last act, and
    that hands none before or when it throws. *)
Definition ends_ready {A} (m : M A) : Prop :=
  forall st,
    exists body,
      Forall not_ready body
      /\ match m st with
         | (Ok _, st') =>
             exists f s u,
               (0 < s)%N
               /\ sent st'
                  = sent st ++ body
                    ++ (if is_open (readyState st')
                        then [DownloadReady f s u] else [])
         | (Throw _, st') => sent st' = sent st ++ body
         end.

(** A computation under which the file at [q], once there, stays there. *)
Definition keeps_file (q : path) {A} (m : M A) : Prop :=
  forall st,
    fs_lookup q (files st) <> None ->
    fs_lookup q (files (snd (m st))) <> None.

(** A staging directory that holds the artifact of another job. *)
Definition ex_foreign_name : jsstring :=
  lit "0d3b7c1e-52aa-4e0b-9c57-1f2f0a6d9b11_httpsother.mp3".

Definition ex_foreign : state :=
  mkState OPEN [] [(path_join ex_DIR ex_foreign_name, ex_body)].

(* ================================================================= *)
(** * Properties *)

Unset Implicit Arguments.

(** ** Strings *)

Lemma eqb_eq (a b : jsstring) : eqb a b = true <-> a = b.
Proof.
  revert b; induction a as [|x a IH]; intros [|y b]; simpl;
    try (split; (reflexivity || discriminate)).
  rewrite andb_true_iff, N.eqb_eq, IH.
  split; [intros [-> ->]; reflexivity | intros H; inversion H; auto].
Qed.

Lemma eqb_refl (a : jsstring) : eqb a a = true.
Proof. apply eqb_eq; reflexivity. Qed.

Lemma startsWith_spec (p s : jsstring) :
  startsWith p s = true <-> exists r, s = p ++ r.
Proof.
  revert s; induction p as [|x p IH]; intros s; simpl.
  - split; [intros _; exists s; reflexivity | reflexivity].
  - destruct s as [|y s].
    + split; [discriminate | intros [r H]; discriminate].
    + rewrite andb_true_iff, N.eqb_eq, IH. split.
      * intros [-> [r ->]]. exists r; reflexivity.
      * intros [r H]. inversion H; subst. split; [reflexivity | exists r; reflexivity].
Qed.

Lemma startsWith_app (p r : jsstring) : startsWith p (p ++ r) = true.
Proof. apply startsWith_spec; exists r; reflexivity. Qed.

Lemma includes_spec (needle s : jsstring) :
  includes needle s = true <-> Substring needle s.
Proof.
  unfold Substring. induction s as [|c s IH].
  - simpl. rewrite orb_false_r, startsWith_spec. split.
    + intros [r H]. exists [], r. exact H.
    + intros [pre [post H]]. destruct pre as [|x pre]; [|discriminate].
      exists post. exact H.
  - cbn [includes]. rewrite orb_true_iff, startsWith_spec, IH. split.
    + intros [[r H] | [pre [post H]]].
      * exists [], r. exact H.
      * exists (c :: pre), post. rewrite H. reflexivity.
    + intros [[|x pre] [post H]].
      * left. exists post. exact H.
      * right. inversion H; subst. exists pre, post. reflexivity.
Qed.

Lemma includes_false (needle s : jsstring) :
  includes needle s = false <-> ~ Substring needle s.
Proof.
  rewrite <- includes_spec. destruct (includes needle s); split;
    congruence.
Qed.

(** ** Failure classification *)

(** C1. The message of the terminal error is a function of the
    diagnostic text alone, decided by substring tests in a fixed order
    where the first hit wins: "format is not available" gives the
    not-available message; failing that, "private" or "login" gives the
    access-restricted one; failing that, "geo" gives the
    region-restricted one; failing that, "copyright" gives the
    rights-restricted one; any other text gives the generic retry
    message. The five messages are pairwise different, so the category
    of a text is unique. *)
Theorem errorMessage_first_match_wins (text : jsstring) :
  (Substring (lit "format is not available") text ->
     errorMessage text = MSG_NOT_AVAILABLE)
  /\ (~ Substring (lit "format is not available") text ->
      Substring (lit "private") text \/ Substring (lit "login") text ->
      errorMessage text = MSG_ACCESS)
  /\ (~ Substring (lit "format is not available") text ->
      ~ Substring (lit "private") text -> ~ Substring (lit "login") text ->
      Substring (lit "geo") text ->
      errorMessage text = MSG_REGION)
  /\ (~ Substring (lit "format is not available") text ->
      ~ Substring (lit "private") text -> ~ Substring (lit "login") text ->
      ~ Substring (lit "geo") text ->
      Substring (lit "copyright") text ->
      errorMessage text = MSG_RIGHTS)
  /\ (~ Substring (lit "format is not available") text ->
      ~ Substring (lit "private") text -> ~ Substring (lit "login") text ->
      ~ Substring (lit "geo") text ->
      ~ Substring (lit "copyright") text ->
      errorMessage text = MSG_GENERIC)
  /\ In (errorMessage text) fixed_categories
  /\ NoDup fixed_categories.
Proof.
  unfold errorMessage.
  repeat rewrite <- includes_false. repeat rewrite <- includes_spec.
  repeat split.
  - intros ->. reflexivity.
  - intros -> [-> | ->]; [reflexivity | rewrite orb_true_r; reflexivity].
  - intros -> -> -> ->. reflexivity.
  - intros -> -> -> -> ->. reflexivity.
  - intros -> -> -> -> ->. reflexivity.
  - unfold fixed_categories.
    destruct (includes _ text); [simpl; tauto|].
    destruct (includes _ text || includes _ text); [simpl; tauto|].
    destruct (includes _ text); [simpl; tauto|].
    destruct (includes _ text); simpl; tauto.
  - unfold fixed_categories.
    repeat (constructor; [simpl; intuition discriminate|]). constructor.
Qed.

Lemma errorMessage_first_match_wins_witness :
  errorMessage (lit "ERROR: format is not available") = MSG_NOT_AVAILABLE
  /\ errorMessage (lit "ERROR: video is private") = MSG_ACCESS
  /\ errorMessage (lit "please login geo copyright") = MSG_ACCESS
  /\ errorMessage (lit "blocked: geo restriction, copyright") = MSG_REGION
  /\ errorMessage (lit "copyright claim") = MSG_RIGHTS
  /\ errorMessage (lit "connection reset") = MSG_GENERIC.
Proof.
  assert (Y : forall n s, includes n s = true -> Substring n s)
    by (intros n s; apply includes_spec).
  assert (Nn : forall n s, includes n s = false -> ~ Substring n s)
    by (intros n s; apply includes_false).
  refine (conj _ (conj _ (conj _ (conj _ (conj _ _))))).
  - apply (proj1 (errorMessage_first_match_wins _)).
    apply Y; vm_compute; reflexivity.
  - apply (proj1 (proj2 (errorMessage_first_match_wins _))).
    + apply Nn; vm_compute; reflexivity.
    + left; apply Y; vm_compute; reflexivity.
  - apply (proj1 (proj2 (errorMessage_first_match_wins _))).
    + apply Nn; vm_compute; reflexivity.
    + right; apply Y; vm_compute; reflexivity.
  - apply (proj1 (proj2 (proj2 (errorMessage_first_match_wins _))));
      try (apply Nn; vm_compute; reflexivity).
    apply Y; vm_compute; reflexivity.
  - apply (proj1 (proj2 (proj2 (proj2 (errorMessage_first_match_wins _)))));
      try (apply Nn; vm_compute; reflexivity).
    apply Y; vm_compute; reflexivity.
  - apply (proj1 (proj2 (proj2 (proj2 (proj2 (errorMessage_first_match_wins _))))));
      apply Nn; vm_compute; reflexivity.
Defined.

(** ** The progress pattern *)

Ltac class_compare :=
  repeat match goal with
  | |- context [(?a =? ?b)%N] =>
      first [ rewrite (proj2 (N.eqb_neq a b)) by lia
            | rewrite (proj2 (N.eqb_eq a b)) by lia ]
  | |- context [(?a <=? ?b)%N] =>
      first [ rewrite (proj2 (N.leb_le a b)) by lia
            | rewrite (proj2 (N.leb_gt a b)) by lia ]
  end.

Lemma digit_range (c : char) : isDigit c = true <-> (48 <= c <= 57)%N.
Proof.
  unfold isDigit. rewrite andb_true_iff, !N.leb_le. reflexivity.
Qed.

Lemma digit_not_space (c : char) : isDigit c = true -> isSpace c = false.
Proof.
  rewrite digit_range. intros H. unfold isSpace. class_compare. reflexivity.
Qed.

Lemma span_app (p : char -> bool) (s a b : jsstring) :
  span p s = (a, b) ->
  s = a ++ b /\ forallb p a = true /\ (forall c b', b = c :: b' -> p c = false).
Proof.
  revert a b; induction s as [|c s IH]; simpl; intros a b H.
  - inversion H; subst. repeat split. discriminate.
  - destruct (p c) eqn:Pc.
    + destruct (span p s) as [a' b'] eqn:E. inversion H; subst.
      destruct (IH a' b eq_refl) as (-> & Fa & Hb).
      repeat split; simpl; [rewrite Pc, Fa; reflexivity | exact Hb].
    + inversion H; subst. repeat split.
      intros c' b' E. inversion E; subst. exact Pc.
Qed.

Lemma span_unique (p : char -> bool) (a b : jsstring) :
  forallb p a = true ->
  (forall c b', b = c :: b' -> p c = false) ->
  span p (a ++ b) = (a, b).
Proof.
  intros Fa Hb. induction a as [|x a IH]; simpl in *.
  - destruct b as [|c b']; [reflexivity|]. simpl.
    rewrite (Hb c b' eq_refl). reflexivity.
  - apply andb_true_iff in Fa as [Px Fa]. rewrite Px, (IH Fa). reflexivity.
Qed.

Lemma span_all (p : char -> bool) (a : jsstring) :
  forallb p a = true -> span p a = (a, []).
Proof.
  intros Fa. rewrite <- (app_nil_r a) at 1.
  apply span_unique; [exact Fa | discriminate].
Qed.

Lemma stripPrefix_spec (p s r : jsstring) :
  stripPrefix p s = Some r <-> s = p ++ r.
Proof.
  unfold stripPrefix. destruct (startsWith p s) eqn:E.
  - apply startsWith_spec in E as [r' ->].
    rewrite skipn_app, Nat.sub_diag, skipn_all. simpl.
    split; [intros H; inversion H; reflexivity|].
    intros H. apply app_inv_head in H. subst; reflexivity.
  - split; [discriminate|]. intros ->.
    rewrite startsWith_app in E. discriminate.
Qed.

Lemma nonempty_true (s : jsstring) : nonempty s = true <-> s <> [].
Proof. destruct s; simpl; split; congruence. Qed.

Lemma head_of_digits (ip rest : jsstring) (p : char -> bool) :
  ip <> [] -> (forall c, In c ip -> p c = false) ->
  forall c b', ip ++ rest = c :: b' -> p c = false.
Proof.
  intros Hne Hp c b' E. destruct ip as [|x ip]; [congruence|].
  inversion E; subst. apply Hp. left; reflexivity.
Qed.

Lemma progress_match_here_spec (s g : jsstring) :
  progress_match_here s = Some g <->
  exists ip fp, ProgressLine s ip fp /\ g = ip ++ DOT :: fp.
Proof.
  unfold progress_match_here, ProgressLine. split.
  - destruct (stripPrefix _ s) as [r1|] eqn:E1; [|discriminate].
    apply stripPrefix_spec in E1.
    destruct (span isSpace r1) as [ws r2] eqn:E2.
    destruct (span isDigit r2) as [ip r3] eqn:E3.
    destruct r3 as [|c r4]; [discriminate|].
    destruct (span isDigit r4) as [fp r5] eqn:E4.
    destruct (nonempty ws && nonempty ip && (c =? DOT)%N && nonempty fp
              && startsWith (lit "% of") r5) eqn:C; [|discriminate].
    intros H; inversion H; subst g; clear H.
    repeat rewrite andb_true_iff in C.
    destruct C as ((((Hws & Hip) & Hc) & Hfp) & Hof).
    apply N.eqb_eq in Hc. subst c.
    apply startsWith_spec in Hof as [rest ->].
    apply span_app in E2 as (-> & Fws & _).
    apply span_app in E3 as (-> & Fip & _).
    apply span_app in E4 as (-> & Ffp & _).
    exists ip, fp. split; [|reflexivity].
    exists ws, rest. rewrite !nonempty_true in *.
    repeat split; auto.
  - intros (ip & fp & (ws & rest & -> & Hws & Fws & Hip & Fip & Hfp & Ffp) & ->).
    rewrite (proj2 (stripPrefix_spec _ _ _) eq_refl).
    rewrite (@span_unique isSpace ws _ Fws).
    2:{ apply head_of_digits; [exact Hip|].
        intros c Hc. apply digit_not_space.
        rewrite forallb_forall in Fip. auto. }
    rewrite (@span_unique isDigit ip _ Fip).
    2:{ intros c b' E. inversion E. reflexivity. }
    rewrite (@span_unique isDigit fp _ Ffp).
    2:{ intros c b' E. inversion E. reflexivity. }
    rewrite startsWith_app.
    rewrite (proj2 (nonempty_true ws) Hws), (proj2 (nonempty_true ip) Hip),
      (proj2 (nonempty_true fp) Hfp). reflexivity.
Qed.

Lemma progress_group_unique (ip fp ip' fp' : jsstring) :
  forallb isDigit ip = true -> forallb isDigit ip' = true ->
  ip ++ DOT :: fp = ip' ++ DOT :: fp' -> ip = ip' /\ fp = fp'.
Proof.
  intros F F' E.
  assert (S1 : span isDigit (ip ++ DOT :: fp) = (ip, DOT :: fp))
    by (apply span_unique; [exact F | intros c b' H; inversion H; reflexivity]).
  assert (S2 : span isDigit (ip' ++ DOT :: fp') = (ip', DOT :: fp'))
    by (apply span_unique; [exact F' | intros c b' H; inversion H; reflexivity]).
  rewrite E, S2 in S1. inversion S1. split; reflexivity.
Qed.

Lemma ProgressAt_0 (s ip fp : jsstring) :
  ProgressAt s 0 ip fp <-> ProgressLine s ip fp.
Proof. unfold ProgressAt; simpl. split; [tauto | split; [lia | assumption]]. Qed.

Lemma ProgressAt_S (c : char) (s : jsstring) (k : nat) (ip fp : jsstring) :
  ProgressAt (c :: s) (S k) ip fp <-> ProgressAt s k ip fp.
Proof. unfold ProgressAt; simpl. split; intros [H1 H2]; split; auto; lia. Qed.

Lemma progress_match_none (s : jsstring) :
  progress_match s = None <-> forall k ip fp, ~ ProgressAt s k ip fp.
Proof.
  induction s as [|c s IH].
  - simpl. split; [|reflexivity]. intros _ k ip fp [Hk Hl].
    simpl in Hk. assert (k = 0) by lia. subst k.
    assert (E : progress_match_here [] = Some (ip ++ DOT :: fp))
      by (apply progress_match_here_spec; eauto).
    discriminate.
  - cbn [progress_match].
    destruct (progress_match_here (c :: s)) as [g|] eqn:E.
    + split; [discriminate|]. intros H. exfalso.
      apply progress_match_here_spec in E as (ip & fp & Hl & _).
      apply (H 0 ip fp). apply ProgressAt_0. exact Hl.
    + rewrite IH. split.
      * intros H [|k] ip fp Hk.
        -- apply ProgressAt_0 in Hk.
           assert (E' : progress_match_here (c :: s) = Some (ip ++ DOT :: fp))
             by (apply progress_match_here_spec; eauto).
           congruence.
        -- apply ProgressAt_S in Hk. exact (H k ip fp Hk).
      * intros H k ip fp Hk. apply (H (S k) ip fp). apply ProgressAt_S. exact Hk.
Qed.

Lemma progress_match_leftmost (s : jsstring) (k : nat) (ip fp : jsstring) :
  ProgressAt s k ip fp ->
  (forall j ip' fp', j < k -> ~ ProgressAt s j ip' fp') ->
  progress_match s = Some (ip ++ DOT :: fp).
Proof.
  revert k; induction s as [|c s IH]; intros k Hk Hmin.
  - exfalso. revert Hk. apply progress_match_none. reflexivity.
  - cbn [progress_match]. destruct k as [|k].
    + apply ProgressAt_0 in Hk.
      rewrite (proj2 (progress_match_here_spec _ _)) by eauto. reflexivity.
    + destruct (progress_match_here (c :: s)) as [g|] eqn:E.
      * exfalso. apply progress_match_here_spec in E as (ip' & fp' & Hl & _).
        apply (Hmin 0 ip' fp'); [lia | apply ProgressAt_0; exact Hl].
      * apply ProgressAt_S in Hk. apply (IH k Hk).
        intros j ip' fp' Hj Hat. apply (Hmin (S j) ip' fp'); [lia|].
        apply ProgressAt_S. exact Hat.
Qed.

Lemma progress_match_some (s g : jsstring) :
  progress_match s = Some g ->
  exists k ip fp, ProgressAt s k ip fp /\ g = ip ++ DOT :: fp
    /\ forall j ip' fp', j < k -> ~ ProgressAt s j ip' fp'.
Proof.
  induction s as [|c s IH]; [discriminate|]. cbn [progress_match].
  destruct (progress_match_here (c :: s)) as [g'|] eqn:E.
  - intros H; inversion H; subst g'.
    apply progress_match_here_spec in E as (ip & fp & Hl & ->).
    exists 0, ip, fp. repeat split; [lia | exact Hl | intros; lia].
  - intros H. destruct (IH H) as (k & ip & fp & Hk & -> & Hmin).
    exists (S k), ip, fp. split; [apply ProgressAt_S; exact Hk|].
    split; [reflexivity|]. intros [|j] ip' fp' Hj Hat.
    + apply ProgressAt_0 in Hat.
      assert (E' : progress_match_here (c :: s) = Some (ip' ++ DOT :: fp'))
        by (apply progress_match_here_spec; eauto).
      congruence.
    + apply ProgressAt_S in Hat. apply (Hmin j ip' fp'); [lia | exact Hat].
Qed.

(** ** Numbers *)

Lemma round_half_even_spec (a w : Z) :
  (0 < w)%Z ->
  let m := round_half_even a w in
  (2 * Z.abs (a - m * w) <= w
   /\ (2 * Z.abs (a - m * w) = w -> Z.even m = true))%Z.
Proof.
  intros Hw. cbv zeta. unfold round_half_even.
  pose proof (Z.div_mod a w ltac:(lia)) as D.
  pose proof (Z.mod_pos_bound a w Hw) as B.
  set (q := (a / w)%Z) in *. set (r := (a mod w)%Z) in *.
  assert (Eq : (a - q * w = r)%Z) by lia.
  assert (Eq1 : (a - (q + 1) * w = r - w)%Z) by lia.
  destruct (Z.compare_spec (2 * r) w) as [E|L|G].
  - destruct (Z.even q) eqn:Ev.
    + rewrite Eq. split; [lia | intros _; exact Ev].
    + rewrite Eq1. split; [lia|]. intros _.
      rewrite Z.even_add, Ev. reflexivity.
  - rewrite Eq. split; lia.
  - rewrite Eq1. split; lia.
Qed.

Lemma nearest_multiple (a w m j : Z) :
  (0 < w)%Z -> (2 * Z.abs (a - m * w) <= w)%Z ->
  (Z.abs (a - m * w) <= Z.abs (a - j * w))%Z
  /\ (Z.abs (a - j * w) = Z.abs (a - m * w) -> j <> m ->
      2 * Z.abs (a - m * w) = w /\ (j = m + 1 \/ j = m - 1))%Z.
Proof.
  intros Hw H.
  destruct (Z.eq_dec j m) as [->|Hn]; [split; [lia | congruence]|].
  assert (Hd : (w <= Z.abs (j * w - m * w))%Z).
  { assert (K : (1 <= j - m \/ j - m <= -1)%Z) by lia.
    destruct K as [K|K]; nia. }
  split; [lia|]. intros T _. split; [lia|].
  assert (Hu : (Z.abs (j * w - m * w) <= w)%Z) by lia.
  destruct (Z_le_gt_dec (j - m) 1) as [A|A];
    destruct (Z_le_gt_dec (-1) (j - m)) as [B|B]; try lia.
  - assert ((j - m) * w <= (-2) * w)%Z
      by (apply Z.mul_le_mono_nonneg_r; lia). lia.
  - assert (2 * w <= (j - m) * w)%Z
      by (apply Z.mul_le_mono_nonneg_r; lia). lia.
Qed.

Lemma div_lt_inv (a b q : Z) : (0 < b -> a / b < q -> a < b * q)%Z.
Proof.
  intros Hb H. pose proof (Z.div_mod a b ltac:(lia)) as D.
  pose proof (Z.mod_pos_bound a b Hb) as B. nia.
Qed.

Lemma div_le_inv (a b q : Z) : (0 < b -> q <= a / b -> b * q <= a)%Z.
Proof.
  intros Hb H. pose proof (Z.div_mod a b ltac:(lia)) as D.
  pose proof (Z.mod_pos_bound a b Hb) as B. nia.
Qed.

(** The exponent chosen for [a / d] leaves a quotient below [2^53],
    and of at least [2^52] unless the exponent is the least one. *)
Lemma exponent_bounds (a d : Z) :
  (0 <= a)%Z -> (0 < d)%Z ->
  let e := Z.max 0 (Z.log2 (a / d) - 52) in
  (0 <= e /\ a < 2 ^ 53 * (d * 2 ^ e)
   /\ (e = 0 \/ 2 ^ 52 * (d * 2 ^ e) <= a))%Z.
Proof.
  intros Ha Hd. cbv zeta.
  assert (Ht : (0 <= a / d)%Z) by (apply Z.div_pos; lia).
  destruct (Z.eq_dec (a / d) 0) as [E0|N0].
  - rewrite E0. cbn [Z.log2]. rewrite Z.max_l by lia.
    rewrite Z.pow_0_r, Z.mul_1_r. split; [lia|]. split; [|left; reflexivity].
    assert (a < d * 1)%Z by (apply div_lt_inv; lia). lia.
  - destruct (Z.log2_spec (a / d) ltac:(lia)) as [Lo Hi].
    pose proof (Z.log2_nonneg (a / d)) as Ln.
    set (l := Z.log2 (a / d)) in *.
    destruct (Z_le_gt_dec l 52) as [Hl|Hl].
    + rewrite Z.max_l by lia. rewrite Z.pow_0_r, Z.mul_1_r.
      split; [lia|]. split; [|left; reflexivity].
      assert (Hp : (2 ^ Z.succ l <= 2 ^ 53)%Z)
        by (apply Z.pow_le_mono_r; lia).
      assert (a < d * 2 ^ 53)%Z by (apply div_lt_inv; lia). lia.
    + rewrite Z.max_r by lia. split; [lia|].
      assert (P1 : (2 ^ 53 * 2 ^ (l - 52) = 2 ^ Z.succ l)%Z).
      { rewrite <- Z.pow_add_r by lia. f_equal. lia. }
      assert (P2 : (2 ^ 52 * 2 ^ (l - 52) = 2 ^ l)%Z).
      { rewrite <- Z.pow_add_r by lia. f_equal. lia. }
      split.
      * assert (a < d * 2 ^ Z.succ l)%Z by (apply div_lt_inv; lia). nia.
      * right. assert (d * 2 ^ l <= a)%Z by (apply div_le_inv; lia). nia.
Qed.

Lemma significand_bounds (a w m : Z) (lo : Z) :
  (0 < w)%Z -> (0 <= lo)%Z ->
  (2 * Z.abs (a - m * w) <= w)%Z ->
  (lo * w <= a)%Z -> (a < 2 ^ 53 * w)%Z ->
  (lo <= m <= 2 ^ 53)%Z.
Proof.
  intros Hw Hlo H L U. split.
  - destruct (Z_le_gt_dec lo m) as [|G]; [assumption|]. exfalso.
    assert ((m + 1) * w <= lo * w)%Z
      by (apply Z.mul_le_mono_nonneg_r; lia). lia.
  - destruct (Z_le_gt_dec m (2 ^ 53)) as [|G]; [assumption|]. exfalso.
    assert ((2 ^ 53 + 1) * w <= m * w)%Z
      by (apply Z.mul_le_mono_nonneg_r; lia). lia.
Qed.

(** No number [m' * 2^e'] with a significand of at most 53 bits is
    nearer to [a / d] than the rounded one, in units of the least
    exponent; one that is as near is the next multiple of [2^e] on
    either side, and [a / d] lies half way between. *)
Lemma rounded_is_nearest (a d e m m' e' : Z) :
  (0 < d)%Z -> (0 <= e)%Z ->
  (a < 2 ^ 53 * (d * 2 ^ e))%Z ->
  (e = 0 \/ 2 ^ 52 * (d * 2 ^ e) <= a)%Z ->
  (2 * Z.abs (a - m * (d * 2 ^ e)) <= d * 2 ^ e)%Z ->
  (Z.abs m' < 2 ^ 53)%Z -> (0 <= e')%Z ->
  (Z.abs (a - m * 2 ^ e * d) <= Z.abs (a - m' * 2 ^ e' * d)
   /\ (Z.abs (a - m' * 2 ^ e' * d) = Z.abs (a - m * 2 ^ e * d) ->
       m' * 2 ^ e' <> m * 2 ^ e ->
       2 * Z.abs (a - m * (d * 2 ^ e)) = d * 2 ^ e
       /\ e <= e'
       /\ (m' * 2 ^ (e' - e) = m + 1 \/ m' * 2 ^ (e' - e) = m - 1)))%Z.
Proof.
  intros Hd He U L H Hm' He'.
  assert (Hp : (0 < 2 ^ e)%Z) by (apply Z.pow_pos_nonneg; lia).
  assert (Hw : (0 < d * 2 ^ e)%Z) by nia.
  set (w := (d * 2 ^ e)%Z) in *.
  replace (m * 2 ^ e * d)%Z with (m * w)%Z by (unfold w; ring).
  destruct (Z_le_gt_dec e e') as [Le|Gt].
  - assert (P : (2 ^ e' = 2 ^ (e' - e) * 2 ^ e)%Z).
    { rewrite <- Z.pow_add_r by lia. f_equal. lia. }
    replace (m' * 2 ^ e' * d)%Z with (m' * 2 ^ (e' - e) * w)%Z
      by (rewrite P; unfold w; ring).
    destruct (nearest_multiple a w m (m' * 2 ^ (e' - e)) Hw H) as [N1 N2].
    split; [exact N1|]. intros T Hne.
    destruct (N2 T) as [N3 N4].
    { intros Hj. apply Hne. rewrite P, <- Hj. ring. }
    split; [exact N3|]. split; [exact Le | exact N4].
  - destruct L as [->|L]; [lia|].
    assert (P : (2 ^ e = 2 * 2 ^ (e - 1))%Z).
    { rewrite <- (Z.pow_succ_r 2 (e - 1)) by lia. f_equal. lia. }
    assert (Q1 : (2 ^ e' <= 2 ^ (e - 1))%Z)
      by (apply Z.pow_le_mono_r; lia).
    assert (Hp' : (0 < 2 ^ e')%Z) by (apply Z.pow_pos_nonneg; lia).
    assert (B : (m' * 2 ^ e' < 2 ^ 52 * 2 ^ e)%Z).
    { assert (m' * 2 ^ e' <= (2 ^ 53 - 1) * 2 ^ e')%Z
        by (apply Z.mul_le_mono_nonneg_r; lia).
      assert ((2 ^ 53 - 1) * 2 ^ e' <= (2 ^ 53 - 1) * 2 ^ (e - 1))%Z
        by (apply Z.mul_le_mono_nonneg_l; lia).
      rewrite P. lia. }
    assert (B' : (m' * 2 ^ e' * d < 2 ^ 52 * w)%Z).
    { unfold w.
      assert (m' * 2 ^ e' * d < 2 ^ 52 * 2 ^ e * d)%Z
        by (apply Z.mul_lt_mono_pos_r; lia). lia. }
    destruct (nearest_multiple a w m (2 ^ 52) Hw H) as [N1 _].
    split; [lia|]. intros T. lia.
Qed.

(** What the rounding of [n / d] has to offer: its exponent [e] and its
    significand [m], in units of [2^-1074]. *)
Lemma rounding_facts (n d : Z) :
  (0 <= n)%Z -> (0 < d)%Z ->
  let a := (n * 2 ^ 1074)%Z in
  let e := Z.max 0 (Z.log2 (a / d) - 52) in
  let m := round_half_even a (d * 2 ^ e) in
  (0 <= e)%Z /\ (0 <= m <= 2 ^ 53)%Z /\ (e = 0 \/ 2 ^ 52 <= m)%Z
  /\ (2 * Z.abs (a - m * (d * 2 ^ e)) = d * 2 ^ e -> Z.even m = true)%Z
  /\ (forall m' e',
        (Z.abs m' < 2 ^ 53)%Z -> (0 <= e')%Z ->
        (Z.abs (a - m * 2 ^ e * d) <= Z.abs (a - m' * 2 ^ e' * d)
         /\ (Z.abs (a - m' * 2 ^ e' * d) = Z.abs (a - m * 2 ^ e * d) ->
             m' * 2 ^ e' <> m * 2 ^ e ->
             2 * Z.abs (a - m * (d * 2 ^ e)) = d * 2 ^ e
             /\ e <= e'
             /\ (m' * 2 ^ (e' - e) = m + 1
                 \/ m' * 2 ^ (e' - e) = m - 1)))%Z)
  /\ (m * 2 ^ e < 2 ^ 2098 -> e <= 2045)%Z
  /\ (2 ^ 2098 <= m * 2 ^ e -> a < 2 ^ 2098 * d ->
      e = 2045 /\ m = 2 ^ 53)%Z.
Proof.
  intros Hn Hd.
  assert (Hs : (0 < 2 ^ 1074)%Z) by (apply Z.pow_pos_nonneg; lia).
  assert (Ha : (0 <= n * 2 ^ 1074)%Z) by nia.
  destruct (exponent_bounds (n * 2 ^ 1074) d Ha Hd) as (He & U & L).
  intros a e. fold a e in He, U, L.
  assert (Hp : (0 < 2 ^ e)%Z) by (apply Z.pow_pos_nonneg; lia).
  assert (Hw : (0 < d * 2 ^ e)%Z) by nia.
  destruct (round_half_even_spec a (d * 2 ^ e) Hw) as [R1 R2].
  intros m. fold m in R1, R2.
  assert (Hm : (0 <= m <= 2 ^ 53)%Z)
    by (apply (significand_bounds a (d * 2 ^ e) m 0); lia).
  assert (Hm2 : (e = 0 \/ 2 ^ 52 <= m)%Z).
  { destruct L as [L|L]; [left; exact L | right].
    apply (significand_bounds a (d * 2 ^ e) m (2 ^ 52)); lia. }
  split; [exact He|]. split; [exact Hm|]. split; [exact Hm2|].
  split; [exact R2|].
  split; [exact (fun m' e' => rounded_is_nearest a d e m m' e' Hd He U L R1)|].
  split.
  - intros Small.
    destruct (Z_le_gt_dec e 2045) as [|G]; [assumption|]. exfalso.
    destruct Hm2 as [Hm2|Hm2]; [lia|].
    assert (2 ^ 2046 <= 2 ^ e)%Z by (apply Z.pow_le_mono_r; lia).
    assert (2 ^ 52 * 2 ^ e <= m * 2 ^ e)%Z
      by (apply Z.mul_le_mono_nonneg_r; lia).
    assert (2 ^ 52 * 2 ^ 2046 <= 2 ^ 52 * 2 ^ e)%Z
      by (apply Z.mul_le_mono_nonneg_l; lia).
    assert (2 ^ 52 * 2 ^ 2046 = 2 ^ 2098)%Z by reflexivity. lia.
  - intros Big Close.
    assert (E1 : (2045 <= e)%Z).
    { destruct (Z_le_gt_dec 2045 e) as [|G]; [assumption|]. exfalso.
      assert (2 ^ e <= 2 ^ 2044)%Z by (apply Z.pow_le_mono_r; lia).
      assert (m * 2 ^ e <= 2 ^ 53 * 2 ^ e)%Z
        by (apply Z.mul_le_mono_nonneg_r; lia).
      assert (2 ^ 53 * 2 ^ e <= 2 ^ 53 * 2 ^ 2044)%Z
        by (apply Z.mul_le_mono_nonneg_l; lia).
      assert (2 ^ 53 * 2 ^ 2044 < 2 ^ 2098)%Z by reflexivity. lia. }
    assert (E2 : e = 2045%Z).
    { destruct (Z.eq_dec e 2045) as [|N]; [assumption|]. exfalso.
      destruct L as [L|L]; [lia|].
      assert (2 ^ 2046 <= 2 ^ e)%Z by (apply Z.pow_le_mono_r; lia).
      assert (2 ^ 52 * 2 ^ 2046 * d <= 2 ^ 52 * 2 ^ e * d)%Z.
      { apply Z.mul_le_mono_nonneg_r; [lia|].
        apply Z.mul_le_mono_nonneg_l; lia. }
      assert (2 ^ 52 * 2 ^ 2046 = 2 ^ 2098)%Z by reflexivity. nia. }
    split; [exact E2|]. rewrite E2 in Big.
    destruct (Z_le_gt_dec (2 ^ 53) m) as [|G]; [lia|]. exfalso.
    assert (m * 2 ^ 2045 <= (2 ^ 53 - 1) * 2 ^ 2045)%Z
      by (apply Z.mul_le_mono_nonneg_r; lia).
    assert ((2 ^ 53 - 1) * 2 ^ 2045 < 2 ^ 2098)%Z by reflexivity.
    lia.
Qed.

(** From rationals to integers in units of [2^-1074]. *)

Lemma Qabs_inject_Z (z : Z) : (Qabs (inject_Z z) == inject_Z (Z.abs z))%Q.
Proof. symmetry. exact (Zabs_Qabs z 1). Qed.

Lemma binary_value_scaled (m e : Z) :
  (-1074 <= e)%Z ->
  (binary_value m e * inject_Z (2 ^ 1074)
   == inject_Z (m * 2 ^ (e + 1074)))%Q.
Proof.
  intros He. unfold binary_value.
  rewrite inject_Z_mult, (Zpower_Qpower 2 1074) by lia.
  rewrite (Zpower_Qpower 2 (e + 1074)) by lia.
  rewrite <- Qmult_assoc. apply Qmult_comp; [reflexivity|].
  symmetry. apply Qpower_plus. discriminate.
Qed.

Lemma scaled_distance (n d M : Z) (x c : Q) :
  (0 < d)%Z ->
  (x == inject_Z n / inject_Z d)%Q ->
  (c * inject_Z (2 ^ 1074) == inject_Z M)%Q ->
  (Qabs (x - c) * inject_Z (d * 2 ^ 1074)
   == inject_Z (Z.abs (n * 2 ^ 1074 - M * d)))%Q.
Proof.
  intros Hd Hx Hc.
  assert (Hd' : ~ (inject_Z d == 0)%Q).
  { change 0%Q with (inject_Z 0). rewrite inject_Z_injective. lia. }
  assert (Hk : (0 <= inject_Z (d * 2 ^ 1074))%Q).
  { change 0%Q with (inject_Z 0). rewrite <- Zle_Qle.
    assert (0 < 2 ^ 1074)%Z by (apply Z.pow_pos_nonneg; lia). nia. }
  rewrite <- (Qabs_pos _ Hk) at 1. rewrite <- Qabs_Qmult, <- Qabs_inject_Z.
  apply Qabs_wd.
  unfold Z.sub. rewrite inject_Z_plus, inject_Z_opp, !inject_Z_mult.
  rewrite <- Hc, Hx. field. exact Hd'.
Qed.

Lemma scale_positive (d : Z) :
  (0 < d)%Z -> (0 < inject_Z (d * 2 ^ 1074))%Q.
Proof.
  intros Hd. change 0%Q with (inject_Z 0). rewrite <- Zlt_Qlt.
  assert (0 < 2 ^ 1074)%Z by (apply Z.pow_pos_nonneg; lia). nia.
Qed.

(** A candidate in units of [2^-1074], with what its parity is the
    parity of. *)
Lemma Candidate_scaled (c : Q) (even : bool) :
  Candidate c even ->
  exists m e,
    (Z.abs m < 2 ^ 53)%Z /\ (0 <= e)%Z
    /\ (c * inject_Z (2 ^ 1074) == inject_Z (m * 2 ^ e))%Q
    /\ (m * 2 ^ e <= 2 ^ 2098)%Z
    /\ ((even = Z.even m /\ (e <= 2045)%Z) \/ e = 2098%Z).
Proof.
  intros [m e c' (Hm & He & _) Hc | c' Hc].
  - exists m, (e + 1074)%Z.
    split; [lia|]. split; [lia|]. split; [|split].
    + rewrite Hc. apply binary_value_scaled. lia.
    + assert (P : (2 ^ (e + 1074) <= 2 ^ 2045)%Z)
        by (apply Z.pow_le_mono_r; lia).
      assert (Pp : (0 < 2 ^ (e + 1074))%Z) by (apply Z.pow_pos_nonneg; lia).
      assert (m * 2 ^ (e + 1074) <= 2 ^ 53 * 2 ^ (e + 1074))%Z
        by (apply Z.mul_le_mono_nonneg_r; lia).
      assert (2 ^ 53 * 2 ^ (e + 1074) <= 2 ^ 53 * 2 ^ 2045)%Z
        by (apply Z.mul_le_mono_nonneg_l; lia).
      change (2 ^ 2098)%Z with (2 ^ 53 * 2 ^ 2045)%Z. lia.
    + left. split; [reflexivity | lia].
  - pose proof (binary_value_scaled 1 1024 ltac:(lia)) as V.
    change (1024 + 1074)%Z with 2098%Z in V.
    destruct (Qlt_le_dec c' 0) as [Neg|Pos].
    + exists (-1)%Z, 2098%Z.
      split; [lia|]. split; [lia|]. split; [|split; [lia | right; reflexivity]].
      rewrite Qabs_neg in Hc by (apply Qlt_le_weak; exact Neg).
      assert (E : (c' == - binary_value 1 1024)%Q)
        by (rewrite <- Hc; ring).
      rewrite E.
      replace (-1 * 2 ^ 2098)%Z with (- (1 * 2 ^ 2098))%Z by ring.
      rewrite inject_Z_opp, <- V. ring.
    + exists 1%Z, 2098%Z.
      split; [lia|]. split; [lia|]. split; [|split; [lia | right; reflexivity]].
      rewrite Qabs_pos in Hc by exact Pos. rewrite Hc. exact V.
Qed.

Lemma scale_nonzero : ~ (inject_Z (2 ^ 1074) == 0)%Q.
Proof.
  change 0%Q with (inject_Z 0). rewrite inject_Z_injective.
  assert (0 < 2 ^ 1074)%Z by (apply Z.pow_pos_nonneg; lia). lia.
Qed.

Lemma Qmake_scaled (M : Z) :
  (Qmake M (Z.to_pos (2 ^ 1074)) * inject_Z (2 ^ 1074) == inject_Z M)%Q.
Proof.
  rewrite Qmake_Qdiv, Z2Pos.id by (apply Z.pow_pos_nonneg; lia).
  rewrite Qmult_comm. apply Qmult_div_r. exact scale_nonzero.
Qed.

Lemma scaled_eq (c c' : Q) (M : Z) :
  (c * inject_Z (2 ^ 1074) == inject_Z M)%Q ->
  (c' * inject_Z (2 ^ 1074) == inject_Z M)%Q -> (c == c')%Q.
Proof.
  intros H H'. apply (Qmult_inj_r c c' _ scale_nonzero).
  rewrite H, H'. reflexivity.
Qed.

(** A candidate that is nearest in units of [2^-1074] is the closest. *)
Lemma Closest_scaled (n d M : Z) (x c : Q) (even : bool) :
  (0 < d)%Z ->
  (x == inject_Z n / inject_Z d)%Q ->
  (c * inject_Z (2 ^ 1074) == inject_Z M)%Q ->
  Candidate c even ->
  (forall m' e',
      (Z.abs m' < 2 ^ 53)%Z -> (0 <= e')%Z -> (m' * 2 ^ e' <= 2 ^ 2098)%Z ->
      (Z.abs (n * 2 ^ 1074 - M * d)
       <= Z.abs (n * 2 ^ 1074 - m' * 2 ^ e' * d))%Z
      /\ (Z.abs (n * 2 ^ 1074 - m' * 2 ^ e' * d)
          = Z.abs (n * 2 ^ 1074 - M * d) ->
          (m' * 2 ^ e')%Z <> M -> even = true)) ->
  Closest x c even.
Proof.
  intros Hd Hx Hc Cand Near. split; [exact Cand|].
  intros c' even' Cand'.
  destruct (Candidate_scaled c' even' Cand')
    as (m' & e' & Hm' & He' & Hc' & Hb & _).
  destruct (Near m' e' Hm' He' Hb) as [N1 N2].
  pose proof (scaled_distance n d M x c Hd Hx Hc) as D.
  pose proof (scaled_distance n d _ x c' Hd Hx Hc') as D'.
  pose proof (scale_positive d Hd) as K.
  split.
  - apply (Qmult_le_r _ _ _ K). rewrite D, D', <- Zle_Qle. exact N1.
  - intros T Hne. apply N2.
    + apply inject_Z_injective. rewrite <- D, <- D', T. reflexivity.
    + intros E. apply Hne. apply (scaled_eq c' c M); [|exact Hc].
      rewrite Hc', E. reflexivity.
Qed.

Lemma pow2_split (a b : Z) :
  (0 <= a)%Z -> (0 <= b)%Z -> (2 ^ (a + b) = 2 ^ a * 2 ^ b)%Z.
Proof. intros. apply Z.pow_add_r; assumption. Qed.

Lemma limit_scaled :
  (binary_value 1 1024 * inject_Z (2 ^ 1074) == inject_Z (1 * 2 ^ 2098))%Q.
Proof. exact (binary_value_scaled 1 1024 ltac:(lia)). Qed.

Lemma limit_positive : (0 <= binary_value 1 1024)%Q.
Proof.
  unfold binary_value. apply Qmult_le_0_compat; [discriminate|].
  apply Qpower_0_le. discriminate.
Qed.

(** [Number_of_ratio] is the Number value of ECMA-262 (6.1.6.1) for a
    rational that is not negative. *)
Lemma Number_of_ratio_spec (n d : Z) (x : Q) :
  (0 <= n)%Z -> (0 < d)%Z -> (x == inject_Z n / inject_Z d)%Q ->
  NumberFor x (Number_of_ratio n d).
Proof.
  intros Hn Hd Hx. unfold Number_of_ratio.
  destruct (rounding_facts n d Hn Hd)
    as (He & Hm & Hm2 & R2 & Near & Ebound & Edge).
  cbv zeta in *.
  set (a := (n * 2 ^ 1074)%Z) in *.
  set (e := Z.max 0 (Z.log2 (a / d) - 52)) in *.
  set (m := round_half_even a (d * 2 ^ e)) in *.
  assert (Hs : (0 < 2 ^ 1074)%Z) by (apply Z.pow_pos_nonneg; lia).
  destruct (Z.leb_spec (2 ^ 2098) (m * 2 ^ e)) as [Big|Small].
  - (* from 2^1024 on *)
    apply NumberFor_Infinity.
    apply (Closest_scaled n d (1 * 2 ^ 2098) x _ true Hd Hx limit_scaled).
    { apply Candidate_limit. apply Qabs_pos. exact limit_positive. }
    intros m' e' Hm' He' Hb. split; [|reflexivity].
    fold a.
    destruct (Z_le_gt_dec (2 ^ 2098 * d) a) as [Far|Close].
    + assert (m' * 2 ^ e' * d <= 2 ^ 2098 * d)%Z
        by (apply Z.mul_le_mono_nonneg_r; lia). lia.
    + destruct (Edge Big ltac:(lia)) as [E2 E3].
      replace (1 * 2 ^ 2098)%Z with (m * 2 ^ e)%Z
        by (rewrite E2, E3; reflexivity).
      apply (Near m' e' Hm' He').
  - (* a finite value *)
    specialize (Ebound Small).
    pose proof (Qmake_scaled (m * 2 ^ e)) as Hc.
    set (c := Qmake (m * 2 ^ e) (Z.to_pos (2 ^ 1074))) in *.
    assert (Small' : (Qabs c < binary_value 1 1024)%Q).
    { assert (K : (0 < inject_Z (2 ^ 1074))%Q)
        by (change 0%Q with (inject_Z 0); rewrite <- Zlt_Qlt; exact Hs).
      apply (Qmult_lt_r _ _ _ K). rewrite limit_scaled.
      rewrite Qabs_pos.
      - rewrite Hc, <- Zlt_Qlt. lia.
      - unfold c. unfold Qle. cbn [Qnum Qden].
        assert (0 < 2 ^ e)%Z by (apply Z.pow_pos_nonneg; lia). nia. }
    destruct (Z_lt_ge_dec m (2 ^ 53)) as [Lt|Ge].
    + apply (@NumberFor_finite x c (Z.even m)); [|exact Small'].
      apply (Closest_scaled n d (m * 2 ^ e) x c _ Hd Hx Hc).
      * apply (@Candidate_finite m (e - 1074)).
        -- split; [lia|]. split; [lia|]. destruct Hm2; [right|left]; lia.
        -- apply (scaled_eq _ _ (m * 2 ^ e) Hc).
           rewrite binary_value_scaled by lia.
           replace (e - 1074 + 1074)%Z with e by lia. reflexivity.
      * intros m' e' Hm' He' _. fold a.
        destruct (Near m' e' Hm' He') as [N1 N2].
        split; [exact N1|]. intros T Hne. apply R2. apply (N2 T Hne).
    + assert (Em : m = (2 ^ 53)%Z) by lia.
      assert (E' : (e < 2045)%Z).
      { destruct (Z_lt_ge_dec e 2045) as [|G]; [assumption|]. exfalso.
        assert (E2 : e = 2045%Z) by lia.
        rewrite Em, E2 in Small.
        assert (2 ^ 53 * 2 ^ 2045 = 2 ^ 2098)%Z by reflexivity. lia. }
      apply (@NumberFor_finite x c (Z.even (2 ^ 52))); [|exact Small'].
      apply (Closest_scaled n d (m * 2 ^ e) x c _ Hd Hx Hc).
      * apply (@Candidate_finite (2 ^ 52) (e + 1 - 1074)).
        -- split; [reflexivity|]. split; [lia|]. left. reflexivity.
        -- apply (scaled_eq _ _ (m * 2 ^ e) Hc).
           rewrite binary_value_scaled by lia.
           replace (e + 1 - 1074 + 1074)%Z with (e + 1)%Z by lia.
           rewrite Em, pow2_split by lia.
           replace (2 ^ 52 * (2 ^ e * 2 ^ 1))%Z with (2 ^ 53 * 2 ^ e)%Z
             by (change (2 ^ 53)%Z with (2 ^ 52 * 2 ^ 1)%Z; ring).
           reflexivity.
      * intros m' e' Hm' He' _. fold a.
        destruct (Near m' e' Hm' He') as [N1 _].
        split; [exact N1 | reflexivity].
Qed.

Lemma odd_multiple (m' k j : Z) :
  (0 <= k)%Z -> (m' * 2 ^ k)%Z = j -> Z.even j = false ->
  k = 0%Z /\ m' = j.
Proof.
  intros Hk E Ev. destruct (Z.eq_dec k 0) as [->|N].
  - rewrite Z.pow_0_r in E. split; [reflexivity | lia].
  - exfalso. rewrite <- E, Z.even_mul in Ev.
    rewrite (Z.even_pow 2 k) in Ev by lia.
    rewrite orb_true_r in Ev. discriminate.
Qed.

Lemma neighbour_odd (m j : Z) :
  Z.even m = true -> (j = m + 1 \/ j = m - 1)%Z -> Z.even j = false.
Proof.
  intros E [->| ->]; [rewrite Z.even_add | rewrite Z.even_sub];
    rewrite E; reflexivity.
Qed.

(** A candidate that is as near as the rounded one, and is another
    number, has an odd significand. *)
Lemma tie_is_odd (a d e m m' e' : Z) (even : bool) :
  (Z.abs (a - m' * 2 ^ e' * d) = Z.abs (a - m * 2 ^ e * d) ->
   m' * 2 ^ e' <> m * 2 ^ e ->
   2 * Z.abs (a - m * (d * 2 ^ e)) = d * 2 ^ e
   /\ e <= e'
   /\ (m' * 2 ^ (e' - e) = m + 1 \/ m' * 2 ^ (e' - e) = m - 1))%Z ->
  ((2 * Z.abs (a - m * (d * 2 ^ e)))%Z = (d * 2 ^ e)%Z -> Z.even m = true) ->
  (e <= 2045)%Z ->
  Z.abs (a - m' * 2 ^ e' * d) = Z.abs (a - m * 2 ^ e * d) ->
  (m' * 2 ^ e')%Z <> (m * 2 ^ e)%Z ->
  (even = Z.even m' /\ (e' <= 2045)%Z) \/ e' = 2098%Z ->
  even = false.
Proof.
  intros Tie R2 Eb T Hne Hpar.
  destruct (Tie T Hne) as (Half & Le & Next).
  pose proof (neighbour_odd m _ (R2 Half) Next) as Odd.
  destruct (odd_multiple m' (e' - e) _ ltac:(lia) eq_refl Odd) as [Ek Em].
  destruct Hpar as [[-> _]|E98]; [|lia].
  rewrite Em. exact Odd.
Qed.

(** Whatever is chosen for [n / d] is the number the rounding gives,
    or [2^1024] if that is larger. *)
Lemma Closest_rounded (n d : Z) (x c : Q) (even : bool) :
  (0 <= n)%Z -> (0 < d)%Z -> (x == inject_Z n / inject_Z d)%Q ->
  Closest x c even ->
  let a := (n * 2 ^ 1074)%Z in
  let e := Z.max 0 (Z.log2 (a / d) - 52) in
  let m := round_half_even a (d * 2 ^ e) in
  (c * inject_Z (2 ^ 1074) == inject_Z (Z.min (m * 2 ^ e) (2 ^ 2098)))%Q.
Proof.
  intros Hn Hd Hx [Cand Best].
  pose proof (Number_of_ratio_spec n d x Hn Hd Hx) as Spec.
  unfold Number_of_ratio in Spec.
  destruct (rounding_facts n d Hn Hd)
    as (He & Hm & Hm2 & R2 & Near & Ebound & Edge).
  cbv zeta in *.
  set (a := (n * 2 ^ 1074)%Z) in *.
  set (e := Z.max 0 (Z.log2 (a / d) - 52)) in *.
  set (m := round_half_even a (d * 2 ^ e)) in *.
  destruct (Candidate_scaled c even Cand)
    as (m' & e' & Hm' & He' & Hc' & Hb & Hpar).
  rewrite Hc'.
  destruct (Z.eq_dec (m' * 2 ^ e') (Z.min (m * 2 ^ e) (2 ^ 2098)))
    as [E|N]; [rewrite E; reflexivity | exfalso].
  pose proof (scale_positive d Hd) as K.
  pose proof (scaled_distance n d _ x c Hd Hx Hc') as D'. fold a in D'.
  (* the chosen number [c0], which is [C] units *)
  assert (Chosen : exists c0 even0 C,
             Closest x c0 even0
             /\ (c0 * inject_Z (2 ^ 1074) == inject_Z C)%Q
             /\ C = Z.min (m * 2 ^ e) (2 ^ 2098)).
  { destruct (Z.leb_spec (2 ^ 2098) (m * 2 ^ e)) as [Big|Small].
    - remember Infinity as r0 eqn:Er.
      destruct Spec as [c0 even0 Cl _|Cl]; [discriminate Er|].
      exists (binary_value 1 1024), true, (2 ^ 2098)%Z.
      split; [exact Cl|]. split; [exact limit_scaled | lia].
    - pose proof (Qmake_scaled (m * 2 ^ e)) as Hcs.
      set (cs := Qmake (m * 2 ^ e) (Z.to_pos (2 ^ 1074))) in *.
      remember (Num (Qred cs)) as r0 eqn:Er.
      destruct Spec as [c0 even0 Cl _|Cl]; [|discriminate Er].
      assert (Ec : Qred c0 = Qred cs) by congruence.
      apply Qred_eq_iff in Ec.
      exists c0, even0, (m * 2 ^ e)%Z. split; [exact Cl|]. split; [|lia].
      rewrite Ec. exact Hcs. }
  destruct Chosen as (c0 & even0 & C & [Cand0 Best0] & Hc0 & EC).
  rewrite <- EC in N.
  pose proof (scaled_distance n d _ x c0 Hd Hx Hc0) as D0. fold a in D0.
  destruct (Best c0 even0 Cand0) as [Le1 Tie1].
  destruct (Best0 c even Cand) as [Le0 _].
  assert (Hev : even = true).
  { apply Tie1; [apply Qle_antisym; assumption|].
    intros Eq. apply N. apply inject_Z_injective.
    rewrite <- Hc', <- Hc0, Eq. reflexivity. }
  assert (T : Z.abs (a - m' * 2 ^ e' * d) = Z.abs (a - C * d)).
  { apply inject_Z_injective. rewrite <- D', <- D0.
    apply Qmult_comp; [|reflexivity]. apply Qle_antisym; assumption. }
  assert (Hp : (0 < 2 ^ e)%Z) by (apply Z.pow_pos_nonneg; lia).
  destruct (Z_le_gt_dec (2 ^ 2098) (m * 2 ^ e)) as [Big|Small].
  - rewrite Z.min_r in EC by lia. subst C.
    destruct (Z_le_gt_dec (2 ^ 2098 * d) a) as [Far|Close].
    + assert (m' * 2 ^ e' * d < 2 ^ 2098 * d)%Z
        by (apply Z.mul_lt_mono_pos_r; lia). lia.
    + destruct (Edge Big ltac:(lia)) as [E2 E3].
      assert (E4 : (m * 2 ^ e = 2 ^ 2098)%Z)
        by (rewrite E2, E3; reflexivity).
      rewrite <- E4 in T, N.
      pose proof (tie_is_odd a d e m m' e' even
                    (proj2 (Near m' e' Hm' He')) R2 ltac:(lia) T N Hpar).
      congruence.
  - rewrite Z.min_l in EC by lia. subst C.
    pose proof (tie_is_odd a d e m m' e' even
                  (proj2 (Near m' e' Hm' He')) R2 (Ebound ltac:(lia)) T N Hpar).
    congruence.
Qed.

(** The Number value for a rational that is not negative is the one
    [Number_of_ratio] computes, and no other. *)
Lemma NumberFor_unique (n d : Z) (x : Q) (r : number) :
  (0 <= n)%Z -> (0 < d)%Z -> (x == inject_Z n / inject_Z d)%Q ->
  NumberFor x r -> r = Number_of_ratio n d.
Proof.
  intros Hn Hd Hx Hr. unfold Number_of_ratio.
  assert (Hs : (0 < 2 ^ 1074)%Z) by (apply Z.pow_pos_nonneg; lia).
  assert (K : (0 < inject_Z (2 ^ 1074))%Q)
    by (change 0%Q with (inject_Z 0); rewrite <- Zlt_Qlt; exact Hs).
  destruct Hr as [c even Cl Small | Cl];
    pose proof (Closest_rounded n d x _ _ Hn Hd Hx Cl) as R; cbv zeta in R;
    destruct (Z.leb_spec (2 ^ 2098)
                (round_half_even (n * 2 ^ 1074)
                   (d * 2 ^ Z.max 0 (Z.log2 (n * 2 ^ 1074 / d) - 52))
                 * 2 ^ Z.max 0 (Z.log2 (n * 2 ^ 1074 / d) - 52)))
      as [Big|Less].
  - exfalso. rewrite Z.min_r in R by lia.
    assert (E : (c == binary_value 1 1024)%Q)
      by (apply (scaled_eq _ _ _ R); exact limit_scaled).
    rewrite E, (Qabs_pos _ limit_positive) in Small.
    exact (Qlt_irrefl _ Small).
  - rewrite Z.min_l in R by lia. f_equal. apply Qred_complete.
    apply (scaled_eq _ _ _ R). apply Qmake_scaled.
  - reflexivity.
  - exfalso. rewrite Z.min_l in R by lia.
    rewrite limit_scaled in R.
    apply (proj1 (inject_Z_injective _ _)) in R. lia.
Qed.

(** ** The percentage of a match *)

Lemma decimalValue_snoc (ds : jsstring) (c : char) :
  decimalValue (ds ++ [c]) = (10 * decimalValue ds + digitValue c)%Z.
Proof. unfold decimalValue. rewrite fold_left_app. reflexivity. Qed.

Lemma DigitsValue_decimalValue (ds : jsstring) (v : Z) :
  DigitsValue ds v -> v = decimalValue ds /\ (0 <= v)%Z.
Proof.
  induction 1 as [|ds v c _ [IH Pos] Hc].
  - split; [reflexivity | lia].
  - rewrite decimalValue_snoc, <- IH. unfold digitValue.
    apply digit_range in Hc. split; lia.
Qed.

Lemma DigitsValue_digits (ds : jsstring) :
  forallb isDigit ds = true -> DigitsValue ds (decimalValue ds).
Proof.
  induction ds as [|c ds IH] using rev_ind; [constructor|].
  rewrite forallb_app. cbn [forallb]. rewrite andb_true_r, andb_true_iff.
  intros [Hds Hc]. rewrite decimalValue_snoc.
  apply DigitsValue_snoc; [exact (IH Hds) | exact Hc].
Qed.

Lemma decimalValue_app (ip fp : jsstring) :
  decimalValue (ip ++ fp)
  = (decimalValue ip * 10 ^ Z.of_nat (List.length fp) + decimalValue fp)%Z.
Proof.
  induction fp as [|c fp IH] using rev_ind.
  - rewrite app_nil_r. cbn [List.length Z.of_nat decimalValue fold_left].
    rewrite Z.pow_0_r. lia.
  - rewrite app_assoc, !decimalValue_snoc, IH, length_app.
    cbn [List.length]. rewrite Nat.add_1_r, Nat2Z.inj_succ, Z.pow_succ_r by lia.
    ring.
Qed.

Lemma pow10_spec (n : nat) : Z.pos (pow10 n) = (10 ^ Z.of_nat n)%Z.
Proof.
  induction n as [|n IH]; [reflexivity|].
  rewrite Nat2Z.inj_succ, Z.pow_succ_r by lia. rewrite <- IH. reflexivity.
Qed.

Lemma NumeralValue_digits (ip fp : jsstring) :
  forallb isDigit ip = true -> forallb isDigit fp = true ->
  exists x, NumeralValue ip fp x.
Proof.
  intros Fip Ffp.
  exists (inject_Z (decimalValue ip)
          + inject_Z (decimalValue fp)
            / inject_Z (10 ^ Z.of_nat (List.length fp)))%Q.
  exists (decimalValue ip), (decimalValue fp).
  split; [apply DigitsValue_digits; exact Fip|].
  split; [apply DigitsValue_digits; exact Ffp | reflexivity].
Qed.

Lemma NumeralValue_ratio (ip fp : jsstring) (x : Q) :
  NumeralValue ip fp x ->
  (0 <= decimalValue (ip ++ fp))%Z
  /\ (x == inject_Z (decimalValue (ip ++ fp))
           / inject_Z (Z.pos (pow10 (List.length fp))))%Q.
Proof.
  intros (vi & vf & Hi & Hf & Hx).
  destruct (DigitsValue_decimalValue _ _ Hi) as [Ei Pi].
  destruct (DigitsValue_decimalValue _ _ Hf) as [Ef Pf].
  assert (Hp : (0 < 10 ^ Z.of_nat (List.length fp))%Z)
    by (apply Z.pow_pos_nonneg; lia).
  split.
  - rewrite decimalValue_app, <- Ei, <- Ef. nia.
  - rewrite Hx, decimalValue_app, pow10_spec, <- Ei, <- Ef.
    rewrite inject_Z_plus, inject_Z_mult. field.
    change 0%Q with (inject_Z 0). rewrite inject_Z_injective. lia.
Qed.

Lemma parseFloat_ratio (ip fp : jsstring) :
  ip <> [] -> forallb isDigit ip = true -> forallb isDigit fp = true ->
  parseFloat (ip ++ DOT :: fp)
  = Number_of_ratio (decimalValue (ip ++ fp))
      (Z.pos (pow10 (List.length fp))).
Proof.
  intros Hip Fip Ffp. unfold parseFloat.
  rewrite (@span_unique isDigit ip _ Fip)
    by (intros c b' E; inversion E; reflexivity).
  rewrite N.eqb_refl, (@span_all isDigit fp Ffp).
  rewrite (proj2 (nonempty_true ip) Hip). reflexivity.
Qed.

(** On a numeral with a fraction, [parseFloat] gives the Number value
    of what the numeral stands for. *)
Lemma parseFloat_numeral (ip fp : jsstring) (x : Q) :
  ip <> [] -> forallb isDigit ip = true -> forallb isDigit fp = true ->
  NumeralValue ip fp x ->
  NumberFor x (parseFloat (ip ++ DOT :: fp))
  /\ forall r, NumberFor x r -> r = parseFloat (ip ++ DOT :: fp).
Proof.
  intros Hip Fip Ffp Hv. rewrite (parseFloat_ratio ip fp Hip Fip Ffp).
  destruct (NumeralValue_ratio ip fp x Hv) as [Pos Hx]. split.
  - apply Number_of_ratio_spec; [exact Pos | reflexivity | exact Hx].
  - intros r Hr.
    apply (NumberFor_unique _ (Z.pos (pow10 (List.length fp))) x r Pos
             eq_refl Hx Hr).
Qed.

Lemma stdout_progress_at (s : jsstring) (k : nat) (ip fp : jsstring) :
  ProgressAt s k ip fp ->
  (forall j ip' fp', j < k -> ~ ProgressAt s j ip' fp') ->
  stdout_progress s = Some (Progress (parseFloat (ip ++ DOT :: fp))).
Proof.
  intros Hk Hmin. unfold stdout_progress.
  rewrite (progress_match_leftmost _ _ _ _ Hk Hmin).
  destruct Hk as [_ (ws & rest & _ & _ & _ & Hip & _)].
  destruct ip; [congruence | reflexivity].
Qed.

Lemma stdout_reports_at (s : jsstring) (k : nat) (ip fp : jsstring) :
  ProgressAt s k ip fp ->
  (forall j ip' fp', j < k -> ~ ProgressAt s j ip' fp') ->
  stdout_reports s = [Progress (parseFloat (ip ++ DOT :: fp))]
  /\ (exists x, NumeralValue ip fp x)
  /\ forall x, NumeralValue ip fp x ->
       NumberFor x (parseFloat (ip ++ DOT :: fp))
       /\ forall r, NumberFor x r -> r = parseFloat (ip ++ DOT :: fp).
Proof.
  intros Hk Hmin. unfold stdout_reports.
  rewrite (stdout_progress_at _ _ _ _ Hk Hmin).
  destruct Hk as [_ (ws & rest & _ & _ & _ & Hip & Fip & _ & Ffp)].
  split; [reflexivity|]. split.
  - apply NumeralValue_digits; assumption.
  - intros x Hx. apply parseFloat_numeral; assumption.
Qed.

(** ** The monad *)

Lemma sendProgress_open (update : message) (st : state) :
  readyState st = OPEN ->
  sendProgress update st
  = (Ok tt, mkState OPEN (sent st ++ [update]) (files st)).
Proof.
  intros H. unfold sendProgress, bind, get_readyState, ws_send.
  rewrite H. simpl. rewrite H. reflexivity.
Qed.

Lemma sendProgress_not_open (update : message) (st : state) :
  readyState st <> OPEN -> sendProgress update st = (Ok tt, st).
Proof.
  intros H. unfold sendProgress, bind, get_readyState.
  destruct (readyState st); try reflexivity. congruence.
Qed.

Lemma runYtDlp_events_stdout (fragments : list jsstring) :
  forall output error st, readyState st = OPEN ->
    sent (snd (runYtDlp_events sendProgress (map Stdout fragments)
                 output error st))
    = sent st ++ flat_map stdout_reports fragments.
Proof.
  induction fragments as [|f fs IH]; intros output error st Hopen.
  - simpl. rewrite app_nil_r. reflexivity.
  - cbn [map runYtDlp_events flat_map]. unfold bind at 1.
    unfold stdout_reports at 1.
    destruct (stdout_progress f) as [u|].
    + rewrite (sendProgress_open u _ Hopen), IH by reflexivity.
      simpl. rewrite <- app_assoc. reflexivity.
    + unfold ret at 1. rewrite IH by exact Hopen. reflexivity.
Qed.

(** C9. For a stdout chunk in which the progress pattern (the download
    marker, blanks, a decimal numeral with a fraction, then "% of")
    occurs, the handler reports exactly one progress event. Its
    percentage is the numeral of the leftmost occurrence as a Number,
    and the only Number that is: among the doubles none is nearer to
    the value the numeral stands for (of two that are equally near it
    is the one with the even significand), and it is Infinity when that
    value rounds to 2^1024. A chunk without occurrence reports nothing;
    and a sequence of chunks reports chunk by chunk, so later chunks
    keep reporting. *)
Theorem stdout_progress_first_match (fragment : jsstring) :
  (forall k ip fp,
      ProgressAt fragment k ip fp ->
      (forall j ip' fp', j < k -> ~ ProgressAt fragment j ip' fp') ->
      exists percent,
        stdout_reports fragment = [Progress percent]
        /\ (exists x, NumeralValue ip fp x)
        /\ forall x, NumeralValue ip fp x ->
             NumberFor x percent /\ forall r, NumberFor x r -> r = percent)
  /\ ((exists k ip fp, ProgressAt fragment k ip fp) ->
      exists k ip fp percent,
        ProgressAt fragment k ip fp
        /\ (forall j ip' fp', j < k -> ~ ProgressAt fragment j ip' fp')
        /\ stdout_reports fragment = [Progress percent]
        /\ (exists x, NumeralValue ip fp x)
        /\ forall x, NumeralValue ip fp x ->
             NumberFor x percent /\ forall r, NumberFor x r -> r = percent)
  /\ ((forall k ip fp, ~ ProgressAt fragment k ip fp) ->
      stdout_reports fragment = [])
  /\ (forall before after output error st,
      readyState st = OPEN ->
      sent (snd (runYtDlp_events sendProgress
                   (map Stdout (before ++ fragment :: after)) output error st))
      = sent st ++ flat_map stdout_reports before
        ++ stdout_reports fragment ++ flat_map stdout_reports after).
Proof.
  split; [|split; [|split]].
  - intros k ip fp Hk Hmin.
    exists (parseFloat (ip ++ DOT :: fp)).
    apply (stdout_reports_at _ _ _ _ Hk Hmin).
  - intros (k0 & ip0 & fp0 & H0).
    destruct (progress_match fragment) as [g|] eqn:E.
    + apply progress_match_some in E as (k & ip & fp & Hk & _ & Hmin).
      exists k, ip, fp, (parseFloat (ip ++ DOT :: fp)).
      split; [exact Hk|]. split; [exact Hmin|].
      apply (stdout_reports_at _ _ _ _ Hk Hmin).
    + exfalso. revert H0. apply progress_match_none. exact E.
  - intros H. apply progress_match_none in H.
    unfold stdout_reports, stdout_progress. rewrite H. reflexivity.
  - intros before after output error st Hopen.
    rewrite (runYtDlp_events_stdout _ _ _ _ Hopen), flat_map_app.
    reflexivity.
Qed.

Lemma stdout_progress_first_match_witness :
  (exists percent,
      stdout_reports
        (lit "eta [download]  42.7% of 10.00MiB [download] 99.9% of 10.00MiB")
      = [Progress percent]
      /\ (exists x, NumeralValue (lit "42") (lit "7") x)
      /\ forall x, NumeralValue (lit "42") (lit "7") x ->
           NumberFor x percent /\ forall r, NumberFor x r -> r = percent)
  /\ stdout_reports
       (lit "eta [download]  42.7% of 10.00MiB [download] 99.9% of 10.00MiB")
     = [Progress (Num (Qmake 3004745376386253 70368744177664))]
  /\ stdout_reports (lit "[download] 100.0% of 10.00MiB") = [Progress (num 100)]
  /\ stdout_reports (lit "[download] 99.99999999999999999% of 10.00MiB")
     = [Progress (num 100)]
  /\ stdout_reports
       (lit "[download] " ++ repeat 57%N 309 ++ lit ".0% of 10.00MiB")
     = [Progress Infinity].
Proof.
  refine (conj _ (conj _ (conj _ (conj _ _)))); try (vm_compute; reflexivity).
  apply (proj1 (stdout_progress_first_match _) 4%nat).
  - split; [vm_compute; lia|].
    exists (lit "  "), (lit " 10.00MiB [download] 99.9% of 10.00MiB").
    repeat split; try discriminate.
  - intros j ip' fp' Hj [_ Hl].
    assert (E : progress_match_here
                  (skipn j (lit "eta [download]  42.7% of 10.00MiB [download] 99.9% of 10.00MiB"))
                = Some (ip' ++ DOT :: fp'))
      by (apply progress_match_here_spec; eauto).
    destruct j as [|[|[|[|j]]]]; try lia; vm_compute in E; discriminate.
Defined.

(** ** The format selector *)


Lemma alternatives_nonempty (s : jsstring) : alternatives s <> [].
Proof.
  induction s as [|c s IH]; simpl; [discriminate|].
  destruct (N.eqb c SLASH); [discriminate|].
  destruct (alternatives s); discriminate.
Qed.

Lemma alternatives_single (a : jsstring) :
  noSlash a = true -> alternatives a = [a].
Proof.
  unfold noSlash. induction a as [|c a IH]; simpl; [reflexivity|].
  rewrite andb_true_iff, negb_true_iff. intros [-> H].
  rewrite (IH H). reflexivity.
Qed.

Lemma alternatives_app (a b : jsstring) :
  noSlash a = true -> alternatives (a ++ SLASH :: b) = a :: alternatives b.
Proof.
  unfold noSlash. induction a as [|c a IH]; simpl.
  - intros _. reflexivity.
  - rewrite andb_true_iff, negb_true_iff. intros [-> H].
    rewrite (IH H). reflexivity.
Qed.

Lemma noSlash_app (a b : jsstring) :
  noSlash (a ++ b) = noSlash a && noSlash b.
Proof. apply forallb_app. Qed.

Lemma noSlash_digits (h : jsstring) :
  forallb isDigit h = true -> noSlash h = true.
Proof.
  unfold noSlash. rewrite !forallb_forall. intros H c Hc.
  specialize (H c Hc). apply digit_range in H.
  apply negb_true_iff, N.eqb_neq. unfold SLASH. lia.
Qed.

Lemma removeFirst_p_height (h : jsstring) :
  forallb isDigit h = true -> removeFirst 112%N (h ++ lit "p") = h.
Proof.
  induction h as [|c h IH]; simpl; [reflexivity|].
  rewrite andb_true_iff. intros [Hc Hh]. apply digit_range in Hc.
  rewrite (proj2 (N.eqb_neq c 112)) by lia. rewrite (IH Hh). reflexivity.
Qed.

Lemma height_is_not_auto (h : jsstring) :
  eqb (h ++ lit "p") (lit "auto") = false.
Proof.
  destruct (eqb (h ++ lit "p") (lit "auto")) eqn:E; [|reflexivity].
  apply eqb_eq in E. apply (f_equal (@rev char)) in E.
  rewrite rev_app_distr in E. discriminate.
Qed.

(** C7 as the code has it. For a video container and a quality
    "<height>p", the selector has two alternatives: first the best
    video stream at or below that height in the requested container
    merged with the best m4a audio, and as fallback the best combined
    stream still at or below that height and in that container. *)
Theorem formatSelector_height_alternatives (format h : jsstring) :
  In format [lit "mp4"; lit "webm"] ->
  h <> [] -> forallb isDigit h = true ->
  alternatives (formatSelector format (h ++ lit "p"))
  = [ lit "bestvideo[height<=" ++ h ++ lit "][ext=" ++ format
        ++ lit "]+bestaudio[ext=m4a]";
      lit "best[height<=" ++ h ++ lit "][ext=" ++ format ++ lit "]" ].
Proof.
  intros Hf _ Hh. unfold formatSelector.
  rewrite height_is_not_auto, (removeFirst_p_height h Hh).
  assert (Nf : noSlash format = true)
    by (destruct Hf as [<- | [<- | []]]; reflexivity).
  pose proof (noSlash_digits h Hh) as Nh.
  change (lit "]+bestaudio[ext=m4a]/best[height<=")
    with (lit "]+bestaudio[ext=m4a]" ++ SLASH :: lit "best[height<=").
  repeat rewrite <- app_assoc.
  replace (lit "bestvideo[height<=" ++ h ++ lit "][ext=" ++ format
           ++ lit "]+bestaudio[ext=m4a]" ++
           (SLASH :: lit "best[height<=") ++ h ++ lit "][ext=" ++ format ++ lit "]")
    with ((lit "bestvideo[height<=" ++ h ++ lit "][ext=" ++ format
           ++ lit "]+bestaudio[ext=m4a]") ++
          SLASH :: (lit "best[height<=" ++ h ++ lit "][ext=" ++ format ++ lit "]"))
    by (repeat rewrite <- app_assoc; reflexivity).
  rewrite alternatives_app, alternatives_single; [reflexivity | |];
    repeat rewrite noSlash_app; rewrite Nf, Nh; reflexivity.
Qed.

Lemma formatSelector_height_alternatives_witness :
  alternatives (formatSelector (lit "webm") (lit "1080p"))
  = [ lit "bestvideo[height<=1080][ext=webm]+bestaudio[ext=m4a]";
      lit "best[height<=1080][ext=webm]" ].
Proof.
  apply (formatSelector_height_alternatives (lit "webm") (lit "1080")).
  - simpl; auto.
  - discriminate.
  - reflexivity.
Defined.

(** C7 as the specification words it fails: at 720p in mp4 the last
    alternative is not the unconstrained "best". *)
Lemma formatSelector_fallback_is_constrained :
  last (alternatives (formatSelector (lit "mp4") (lit "720p"))) []
  = lit "best[height<=720][ext=mp4]"
  /\ last (alternatives (formatSelector (lit "mp4") (lit "720p"))) []
     <> lit "best".
Proof. split; [reflexivity | vm_compute; discriminate]. Qed.

(** ** Running the monad *)

Arguments lit : simpl never.
Arguments path_join : simpl never.
Arguments path_basename : simpl never.
Arguments ENOENT : simpl never.
Arguments errorMessage : simpl never.
Arguments formatSelector : simpl never.
Arguments workingName : simpl never.
Arguments sanitizeUrl : simpl never.
Arguments sanitizeTitle : simpl never.
Arguments trim : simpl never.
Arguments stdout_progress : simpl never.
Arguments fs_lookup : simpl never.
Arguments fs_remove : simpl never.
Arguments fs_write : simpl never.
Arguments fs_entries : simpl never.

(** Unfolds the monadic plumbing and the primitives, leaving the
    program's own decisions in the goal. *)
Ltac mrun :=
  cbv beta iota zeta delta
    [bind ret throw try_catch get_files set_files get_readyState ws_send
     socket_closed fs_access fs_unlink fs_stat_size fs_readdir spawn
     child_closed];
  cbn [fst snd files sent readyState].

(** ** Paths *)

Lemma noSlash_includes (s : jsstring) :
  includes [SLASH] s = false -> noSlash s = true.
Proof.
  intros H. apply includes_false in H. unfold noSlash.
  apply forallb_forall. intros c Hc. apply negb_true_iff.
  destruct (N.eqb_spec c SLASH) as [->|]; [|reflexivity].
  exfalso. apply H. apply in_split in Hc as (pre & post & ->).
  exists pre, post. reflexivity.
Qed.

Lemma path_segments_nonempty (p : jsstring) : path_segments p <> [].
Proof.
  induction p as [|c p IH]; cbn [path_segments]; [discriminate|].
  destruct (N.eqb c SLASH); [discriminate|].
  destruct (path_segments p); [contradiction | discriminate].
Qed.

Lemma path_segments_noSlash (s : jsstring) :
  noSlash s = true -> path_segments s = [s].
Proof.
  unfold noSlash. induction s as [|c s IH]; cbn [forallb path_segments];
    [reflexivity|].
  intros H. apply andb_true_iff in H as [Hc Hs].
  apply negb_true_iff in Hc. rewrite Hc, (IH Hs). reflexivity.
Qed.

Lemma path_segments_app (a b : jsstring) :
  path_segments (a ++ SLASH :: b) = path_segments a ++ path_segments b.
Proof.
  induction a as [|c a IH]; [reflexivity|].
  cbn [app path_segments]. rewrite IH.
  destruct (N.eqb c SLASH); [reflexivity|].
  pose proof (path_segments_nonempty a) as N.
  destruct (path_segments a); [contradiction | reflexivity].
Qed.

Lemma plain_name_spec (name : jsstring) :
  plain_name name = true <->
  name <> [] /\ noSlash name = true /\ name <> [DOT] /\ name <> [DOT; DOT].
Proof.
  unfold plain_name. rewrite !andb_true_iff, !negb_true_iff, nonempty_true.
  split.
  - intros (((A & B) & C) & D). repeat split; try assumption.
    + intros ->. discriminate C.
    + intros ->. discriminate D.
  - intros (A & B & C & D). repeat split; try assumption.
    + destruct (eqb name [DOT]) eqn:E; [|reflexivity].
      apply eqb_eq in E. contradiction.
    + destruct (eqb name [DOT; DOT]) eqn:E; [|reflexivity].
      apply eqb_eq in E. contradiction.
Qed.

Lemma normalize_segment_plain (allowAboveRoot : bool) (kept : list jsstring)
    (name : jsstring) :
  plain_name name = true ->
  normalize_segment allowAboveRoot kept name = name :: kept.
Proof.
  intros H. apply plain_name_spec in H as (A & _ & C & D).
  unfold normalize_segment.
  destruct (eqb name []) eqn:E1; [apply eqb_eq in E1; contradiction|].
  destruct (eqb name [DOT]) eqn:E2; [apply eqb_eq in E2; contradiction|].
  destruct (eqb name [DOT; DOT]) eqn:E3; [apply eqb_eq in E3; contradiction|].
  reflexivity.
Qed.

Lemma join_segments_snoc (l : list jsstring) (x : jsstring) :
  join_segments (l ++ [x])
  = match l with
    | [] => x
    | _ :: _ => join_segments l ++ SLASH :: x
    end.
Proof.
  induction l as [|y l IH]; [reflexivity|].
  cbn [app]. destruct l as [|z l].
  - reflexivity.
  - change (join_segments (y :: (z :: l) ++ [x]))
      with (y ++ SLASH :: join_segments ((z :: l) ++ [x])).
    rewrite IH. cbn [join_segments]. rewrite <- app_assoc. reflexivity.
Qed.

Lemma endsWith_slash_plain (pre name : jsstring) :
  plain_name name = true -> endsWith [SLASH] (pre ++ name) = false.
Proof.
  intros H. apply plain_name_spec in H as (A & B & _).
  unfold endsWith. rewrite rev_app_distr.
  destruct (rev name) as [|c r] eqn:E.
  - apply (f_equal (@rev char)) in E. rewrite rev_involutive in E.
    contradiction.
  - cbn [rev app startsWith].
    assert (Hc : In c name) by (apply in_rev; rewrite E; left; reflexivity).
    unfold noSlash in B. rewrite forallb_forall in B.
    specialize (B c Hc). apply negb_true_iff in B.
    rewrite N.eqb_sym, B. reflexivity.
Qed.

(** A path whose last segment is a plain name keeps it, after a
    separator if anything stands before it. *)
Lemma path_normalize_plain (before : list jsstring) (p name : jsstring) :
  plain_name name = true ->
  path_segments p = before ++ [name] ->
  (exists pre, p = pre ++ name) ->
  exists pre,
    path_normalize p = pre ++ name
    /\ (pre = [] \/ exists pre', pre = pre' ++ [SLASH]).
Proof.
  intros Hp Hs [pre0 Hpre]. unfold path_normalize.
  destruct p as [|c0 p0] eqn:Ep.
  { apply plain_name_spec in Hp as (A & _).
    destruct pre0; [|discriminate]. cbn [app] in Hpre. congruence. }
  rewrite <- Ep in *. rewrite Hs, fold_left_app. cbn [fold_left].
  rewrite (normalize_segment_plain _ _ _ Hp). cbn [rev].
  rewrite join_segments_snoc.
  assert (Ht : endsWith [SLASH] p = false)
    by (rewrite Hpre; apply endsWith_slash_plain; exact Hp).
  rewrite Ht.
  set (kept := fold_left _ before []).
  destruct (plain_name_spec name) as [Hn _].
  destruct (Hn Hp) as (A & _). destruct name as [|c n]; [contradiction|].
  destruct (rev kept) as [|y l] eqn:Ek.
  - rewrite app_nil_r. destruct (startsWith [SLASH] p).
    + exists [SLASH]. split; [reflexivity|]. right. exists []. reflexivity.
    + exists []. split; [reflexivity|]. left. reflexivity.
  - set (body := join_segments (y :: l)).
    destruct (body ++ SLASH :: c :: n) as [|b0 b] eqn:Eb.
    { destruct body; discriminate Eb. }
    rewrite <- Eb, app_nil_r. destruct (startsWith [SLASH] p).
    + exists ([SLASH] ++ body ++ [SLASH]). split.
      * rewrite <- !app_assoc. reflexivity.
      * right. exists ([SLASH] ++ body). rewrite <- app_assoc. reflexivity.
    + exists (body ++ [SLASH]). split.
      * rewrite <- app_assoc. reflexivity.
      * right. exists body. reflexivity.
Qed.

Lemma path_join_plain (dir name : jsstring) :
  plain_name name = true ->
  exists pre,
    path_join dir name = pre ++ name
    /\ (pre = [] \/ exists pre', pre = pre' ++ [SLASH]).
Proof.
  intros Hp. pose proof Hp as Hp'.
  apply plain_name_spec in Hp' as (A & B & _).
  unfold path_join. destruct name as [|c n] eqn:En; [contradiction|].
  rewrite <- En in *. destruct dir as [|d0 dir0] eqn:Ed.
  - apply (path_normalize_plain [] name name Hp).
    + apply path_segments_noSlash. exact B.
    + exists []. reflexivity.
  - rewrite <- Ed.
    apply (path_normalize_plain (path_segments dir) _ name Hp).
    + rewrite path_segments_app, (path_segments_noSlash _ B). reflexivity.
    + exists (dir ++ [SLASH]). rewrite <- app_assoc. reflexivity.
Qed.

Lemma path_basename_last (pre name : jsstring) :
  name <> [] -> noSlash name = true ->
  pre = [] \/ (exists pre', pre = pre' ++ [SLASH]) ->
  path_basename (pre ++ name) = name.
Proof.
  intros A B Hpre. unfold path_basename. rewrite rev_app_distr.
  assert (Hr : forallb (fun c => negb (N.eqb c SLASH)) (rev name) = true).
  { unfold noSlash in B. rewrite forallb_forall in *. intros c Hc.
    apply B. apply in_rev. exact Hc. }
  destruct (rev name) as [|c r] eqn:E.
  { apply (f_equal (@rev char)) in E. rewrite rev_involutive in E.
    contradiction. }
  assert (Hc : N.eqb c SLASH = false).
  { cbn [forallb] in Hr. apply andb_true_iff in Hr as [Hc _].
    apply negb_true_iff in Hc. exact Hc. }
  cbn [app dropWhile]. rewrite Hc.
  change (c :: r ++ rev pre) with ((c :: r) ++ rev pre).
  rewrite span_unique.
  - cbn [fst]. rewrite <- E. apply rev_involutive.
  - exact Hr.
  - intros x b' Ex. destruct Hpre as [->|[pre' ->]]; [discriminate Ex|].
    rewrite rev_app_distr in Ex. inversion Ex. reflexivity.
Qed.

Lemma path_basename_join (dir name : jsstring) :
  plain_name name = true -> path_basename (path_join dir name) = name.
Proof.
  intros Hp. destruct (path_join_plain dir name Hp) as (pre & -> & Hpre).
  apply plain_name_spec in Hp as (A & B & _).
  apply path_basename_last; assumption.
Qed.

Lemma path_basename_noSlash (name : jsstring) :
  noSlash name = true -> path_basename name = name.
Proof.
  intros B. destruct name as [|c n] eqn:E; [reflexivity|]. rewrite <- E in *.
  apply (path_basename_last [] name); [congruence | exact B |].
  left. reflexivity.
Qed.

Lemma path_join_inj (dir a b : jsstring) :
  plain_name a = true -> plain_name b = true ->
  path_join dir a = path_join dir b -> a = b.
Proof.
  intros Ha Hb H. apply (f_equal path_basename) in H.
  rewrite !path_basename_join in H by assumption. exact H.
Qed.

(** The path functions on some names a request can carry. *)
Lemma path_join_examples :
  path_join ex_DIR (lit "../secret.txt") = lit "/srv/videograb/secret.txt"
  /\ path_join ex_DIR (lit "./a//b/../x.mp4")
     = lit "/srv/videograb/downloads/a/x.mp4"
  /\ path_join ex_DIR (lit "../../../../etc/passwd") = lit "/etc/passwd"
  /\ path_join ex_DIR (lit ".") = ex_DIR
  /\ path_join ex_DIR (lit "x.mp4/") = lit "/srv/videograb/downloads/x.mp4/"
  /\ path_join ex_DIR (lit "..x") = lit "/srv/videograb/downloads/..x"
  /\ path_normalize (lit "a/../../b/") = lit "../b/"
  /\ path_basename (lit "/a/b//") = lit "b"
  /\ path_basename (lit "../secret.txt") = lit "secret.txt".
Proof. repeat split; vm_compute; reflexivity. Qed.

(** A name that starts with a working name is plain: the working name
    holds an underscore. *)
Lemma plain_name_working (fileId sanitizedUrl name : jsstring) :
  noSlash name = true ->
  startsWith (workingName fileId sanitizedUrl) name = true ->
  plain_name name = true.
Proof.
  intros B H. apply startsWith_spec in H as [r ->].
  assert (U : In 95%N (workingName fileId sanitizedUrl ++ r)).
  { unfold workingName. apply in_or_app. left. apply in_or_app. right.
    left. reflexivity. }
  apply plain_name_spec. repeat split; try assumption.
  - intros E. rewrite E in U. destruct U.
  - intros E. rewrite E in U. destruct U as [U|[]]. discriminate U.
  - intros E. rewrite E in U. destruct U as [U|[U|[]]]; discriminate.
Qed.

(** Under a directory that is an absolute path in normal form, not the
    root, a plain name resolves to the directory, a separator and the
    name, which lies inside the directory. *)
Lemma path_join_normal (dir name : jsstring) :
  startsWith [SLASH] dir = true -> endsWith [SLASH] dir = false ->
  path_normalize dir = dir ->
  plain_name name = true ->
  path_join dir name = dir ++ SLASH :: name
  /\ inside dir (path_join dir name) = true.
Proof.
  intros Habs Htrail Hnorm Hp.
  assert (E : path_join dir name = dir ++ SLASH :: name).
  { pose proof Hp as Hp'. apply plain_name_spec in Hp' as (A & B & _).
    destruct dir as [|d0 dir0] eqn:Ed; [discriminate Habs|].
    destruct name as [|c n] eqn:En; [contradiction|].
    rewrite <- Ed, <- En in *. unfold path_join. rewrite Ed, En.
    rewrite <- Ed, <- En.
    revert Hnorm. unfold path_normalize. rewrite Ed at 1.
    rewrite Habs, Htrail. cbn [negb].
    set (kept := fold_left (normalize_segment false) (path_segments dir) []).
    intros Hnorm.
    destruct (dir ++ SLASH :: name) as [|x0 rest] eqn:Ep;
      [destruct dir; discriminate|]. rewrite <- Ep.
    assert (Ha : startsWith [SLASH] (dir ++ SLASH :: name) = true)
      by (rewrite Ed; rewrite Ed in Habs; exact Habs).
    rewrite Ha, path_segments_app, (path_segments_noSlash _ B), fold_left_app.
    cbn [negb fold_left]. fold kept.
    rewrite (normalize_segment_plain _ _ _ Hp). cbn [rev].
    rewrite join_segments_snoc.
    replace (endsWith [SLASH] (dir ++ SLASH :: name)) with false
      by (symmetry;
          replace (dir ++ SLASH :: name) with ((dir ++ [SLASH]) ++ name)
            by (rewrite <- app_assoc; reflexivity);
          apply endsWith_slash_plain; exact Hp).
    destruct (rev kept) as [|y l] eqn:Ek.
    - cbn [join_segments] in Hnorm. rewrite <- Hnorm in Htrail.
      discriminate Htrail.
    - destruct (join_segments (y :: l)) as [|b0 b] eqn:Eb.
      + rewrite <- Hnorm in Htrail. discriminate Htrail.
      + cbn [app] in Hnorm. rewrite app_nil_r in Hnorm.
        cbn [app]. rewrite app_nil_r, <- Hnorm. reflexivity. }
  split; [exact E|]. rewrite E. unfold inside.
  replace (dir ++ SLASH :: name) with ((dir ++ [SLASH]) ++ name)
    by (rewrite <- app_assoc; reflexivity).
  rewrite (proj2 (stripPrefix_spec _ _ _) eq_refl).
  apply plain_name_spec in Hp as (A & _).
  destruct name; [contradiction | reflexivity].
Qed.

(** ** The retrieval route *)

Lemma fs_lookup_remove_same (p : path) (fs : filesystem) :
  fs_lookup p (fs_remove p fs) = None.
Proof.
  unfold fs_lookup, fs_remove.
  induction fs as [|[q b] fs IH]; simpl; [reflexivity|].
  destruct (eqb q p) eqn:E; simpl; [exact IH|].
  rewrite E. exact IH.
Qed.

Lemma download_route_missing (DOWNLOADS_DIR : path) (filename : jsstring)
    (t : transfer) (st : state) :
  fs_lookup (path_join DOWNLOADS_DIR filename) (files st) = None ->
  download_route DOWNLOADS_DIR filename t st
  = (Ok (Json 404 (lit "File not found or has expired.")), st).
Proof.
  intros H. destruct st as [rs delivered fs]. cbn [files] in H.
  unfold download_route, res_download. mrun. rewrite H. reflexivity.
Qed.

(** The route on a file that is there, outcome by outcome. *)
Lemma download_route_present (DOWNLOADS_DIR : path) (filename : jsstring)
    (t : transfer) (st : state) (body : bytes) :
  fs_lookup (path_join DOWNLOADS_DIR filename) (files st) = Some body ->
  let filePath := path_join DOWNLOADS_DIR filename in
  let name := path_basename filename in
  let gone :=
    mkState (readyState st) (sent st) (fs_remove filePath (files st)) in
  let failed := Ok (Json 500 (lit "File download failed")) in
  download_route DOWNLOADS_DIR filename t st
  = match t with
    | Completed => (Ok (Attachment name body), gone)
    | HeadersOnly =>
        (Ok (AttachmentHead name (N.of_nat (List.length body))), gone)
    | NotModified => (Ok NotModified304, gone)
    | Partial first last =>
        if satisfiable first last body
        then (Ok (PartialContent name first (byte_range first last body)),
              gone)
        else (failed, st)
    | Failed headersSent =>
        (if headersSent then Ok (Interrupted name) else failed, st)
    end.
Proof.
  intros H. cbv zeta. destruct st as [rs delivered fs]. cbn [files] in H.
  unfold download_route, res_download.
  destruct t as [| | |first last|headersSent];
    repeat (progress (mrun; rewrite ?H)); try reflexivity.
  - destruct (satisfiable first last body);
      repeat (progress (mrun; rewrite ?H)); reflexivity.
  - destruct headersSent; reflexivity.
Qed.

Lemma download_route_completed (DOWNLOADS_DIR : path) (filename : jsstring)
    (st : state) (body : bytes) :
  fs_lookup (path_join DOWNLOADS_DIR filename) (files st) = Some body ->
  download_route DOWNLOADS_DIR filename Completed st
  = (Ok (Attachment (path_basename filename) body),
     mkState (readyState st) (sent st)
       (fs_remove (path_join DOWNLOADS_DIR filename) (files st))).
Proof. intros H. exact (download_route_present _ _ Completed _ _ H). Qed.

Lemma download_route_failed (DOWNLOADS_DIR : path) (filename : jsstring)
    (headersSent : bool) (st : state) (body : bytes) :
  fs_lookup (path_join DOWNLOADS_DIR filename) (files st) = Some body ->
  download_route DOWNLOADS_DIR filename (Failed headersSent) st
  = (if headersSent then Ok (Interrupted (path_basename filename))
     else Ok (Json 500 (lit "File download failed")), st).
Proof. intros H. exact (download_route_present _ _ (Failed _) _ _ H). Qed.

Lemma byte_range_spec (first last : nat) (body : bytes) :
  first <= last -> first < List.length body ->
  RangeOf first last body (byte_range first last body).
Proof.
  intros L1 L2. unfold RangeOf, byte_range. split.
  - rewrite length_firstn, length_skipn. lia.
  - intros i Hi. rewrite length_firstn, length_skipn in Hi.
    rewrite nth_error_firstn, nth_error_skipn.
    rewrite (proj2 (Nat.ltb_lt i (last + 1 - first))) by lia. reflexivity.
Qed.

(** C4 as the code has it. The requested name is resolved against the
    staging directory as [path.join] does it, so that ".." steps out of
    the directory. A request that resolves to a path inside the staging
    directory where no file is, is answered 404 and changes nothing
    (the staging directory itself and what lies outside it can be a
    directory, of which the model knows nothing). A plain name, one
    segment that is neither "." nor "..", resolves to the staging
    directory, a separator and the name, when the directory is an
    absolute path in normal form as [path.join] returns it; that path
    is inside, and the name is its own base name. When a file is at the
    resolved path: if the transfer ends without
    error, the file is deleted, whether the whole file went out under
    the base name of the requested name, or only the headers (a HEAD
    request), a 304, or the bytes of a satisfiable range; if the
    transfer fails, or the range cannot be satisfied, the file stays,
    and the answer is a 500 unless the headers had gone out. *)
Theorem download_route_outcomes (DOWNLOADS_DIR : path) (filename : jsstring)
    (t : transfer) (st : state) :
  let filePath := path_join DOWNLOADS_DIR filename in
  let saveName := path_basename filename in
  let out := download_route DOWNLOADS_DIR filename t st in
  let deleted :=
    files (snd out) = fs_remove filePath (files st)
    /\ fs_lookup filePath (files (snd out)) = None in
  let failed := Ok (Json 500 (lit "File download failed")) in
  (inside DOWNLOADS_DIR filePath = true ->
   fs_lookup filePath (files st) = None ->
     out = (Ok (Json 404 (lit "File not found or has expired.")), st))
  /\ (forall body, fs_lookup filePath (files st) = Some body ->
        match t with
        | Completed => fst out = Ok (Attachment saveName body) /\ deleted
        | HeadersOnly =>
            fst out
            = Ok (AttachmentHead saveName (N.of_nat (List.length body)))
            /\ deleted
        | NotModified => fst out = Ok NotModified304 /\ deleted
        | Partial first last =>
            (first <= last -> first < List.length body ->
               exists part,
                 fst out = Ok (PartialContent saveName first part)
                 /\ RangeOf first last body part /\ deleted)
            /\ (last < first \/ List.length body <= first ->
                  out = (failed, st))
        | Failed headersSent =>
            snd out = st
            /\ fst out
               = if headersSent then Ok (Interrupted saveName) else failed
        end)
  /\ (startsWith [SLASH] DOWNLOADS_DIR = true ->
      endsWith [SLASH] DOWNLOADS_DIR = false ->
      path_normalize DOWNLOADS_DIR = DOWNLOADS_DIR ->
      plain_name filename = true ->
        filePath = DOWNLOADS_DIR ++ SLASH :: filename
        /\ inside DOWNLOADS_DIR filePath = true
        /\ saveName = filename).
Proof.
  cbv zeta. split; [|split].
  3:{ intros Habs Htrail Hnorm Hp.
      destruct (path_join_normal _ _ Habs Htrail Hnorm Hp) as [E I].
      split; [exact E|]. split; [exact I|].
      apply path_basename_noSlash.
      apply plain_name_spec in Hp as (_ & B & _). exact B. }
  - intros _ H. apply download_route_missing. exact H.
  - intros body H. rewrite (download_route_present _ _ t _ _ H). cbv zeta.
    destruct t as [| | |first last|headersSent]; cbn [fst snd files].
    + repeat split. apply fs_lookup_remove_same.
    + repeat split. apply fs_lookup_remove_same.
    + repeat split. apply fs_lookup_remove_same.
    + unfold satisfiable. split.
      * intros Hin1 Hin2.
        rewrite (proj2 (Nat.leb_le first last)),
          (proj2 (Nat.ltb_lt first (List.length body))) by lia.
        cbn [andb fst snd files]. exists (byte_range first last body).
        split; [reflexivity|]. split; [apply byte_range_spec; lia|].
        split; [reflexivity | apply fs_lookup_remove_same].
      * intros Hout.
        destruct (Nat.leb_spec first last) as [L|L];
          [|reflexivity].
        rewrite (proj2 (Nat.ltb_ge first (List.length body))) by lia.
        reflexivity.
    + split; reflexivity.
Qed.

Lemma download_route_outcomes_witness :
  fst (download_route ex_DIR ex_staged_name Completed ex_staged)
  = Ok (Attachment ex_staged_name ex_body)
  /\ download_route ex_DIR (lit "missing.mp4") Completed ex_staged
     = (Ok (Json 404 (lit "File not found or has expired.")), ex_staged)
  /\ fst (download_route ex_DIR (lit "../secret.txt") HeadersOnly ex_exposed)
     = Ok (AttachmentHead (lit "secret.txt") 8)
  /\ fs_lookup (lit "/srv/videograb/secret.txt")
       (files (snd (download_route ex_DIR (lit "../secret.txt") HeadersOnly
                      ex_exposed)))
     = None
  /\ download_route ex_DIR ex_staged_name (Partial 2 100) ex_staged
     = (Ok (PartialContent ex_staged_name 2 [x00; x18; x66; x74; x79; x70]),
        mkState OPEN [] [])
  /\ download_route ex_DIR ex_staged_name (Partial 8 100) ex_staged
     = (Ok (Json 500 (lit "File download failed")), ex_staged).
Proof.
  refine (conj _ (conj _ (conj _ (conj _ (conj _ _))))).
  - apply (proj1 (proj2 (download_route_outcomes ex_DIR ex_staged_name
                           Completed ex_staged)) ex_body).
    vm_compute; reflexivity.
  - apply (proj1 (download_route_outcomes ex_DIR (lit "missing.mp4") Completed
                    ex_staged)).
    + apply (proj2 (proj2 (download_route_outcomes ex_DIR (lit "missing.mp4")
                             Completed ex_staged)));
        vm_compute; reflexivity.
    + vm_compute; reflexivity.
  - apply (proj1 (proj2 (download_route_outcomes ex_DIR (lit "../secret.txt")
                           HeadersOnly ex_exposed)) ex_body).
    vm_compute; reflexivity.
  - apply (proj1 (proj2 (download_route_outcomes ex_DIR (lit "../secret.txt")
                           HeadersOnly ex_exposed)) ex_body).
    vm_compute; reflexivity.
  - vm_compute; reflexivity.
  - apply (proj2 (proj1 (proj2 (download_route_outcomes ex_DIR ex_staged_name
                                  (Partial 8 100) ex_staged)) ex_body
                    ltac:(vm_compute; reflexivity))).
    right. vm_compute. lia.
Defined.

(** C4 as the specification words it fails: after a transfer that
    broke off, the staged file is still there. *)
Lemma download_route_failed_transfer_keeps_file :
  fst (download_route ex_DIR ex_staged_name (Failed true) ex_staged)
  = Ok (Interrupted ex_staged_name)
  /\ fs_lookup (path_join ex_DIR ex_staged_name)
       (files (snd (download_route ex_DIR ex_staged_name (Failed true)
                      ex_staged)))
     <> None.
Proof. split; [vm_compute; reflexivity | vm_compute; discriminate]. Qed.

Lemma errorMessage_in_categories (text : jsstring) :
  In (errorMessage text) fixed_categories.
Proof.
  unfold errorMessage, fixed_categories.
  destruct (includes _ text); [simpl; tauto|].
  destruct (includes _ text || includes _ text); [simpl; tauto|].
  destruct (includes _ text); [simpl; tauto|].
  destruct (includes _ text); simpl; tauto.
Qed.

(** ** What a computation sends *)

Section SendsOnly.

Variable P : message -> Prop.

Lemma sends_only_silent {A} (m : M A) :
  (forall st, sent (snd (m st)) = sent st) -> sends_only P m.
Proof.
  intros H st. exists []. rewrite app_nil_r. split; [apply H | constructor].
Qed.

Lemma sends_only_ret {A} (a : A) : sends_only P (ret a).
Proof. apply sends_only_silent. reflexivity. Qed.

Lemma sends_only_throw {A} (e : jsstring) : sends_only P (@throw A e).
Proof. apply sends_only_silent. reflexivity. Qed.

Lemma sends_only_bind {A B} (m : M A) (k : A -> M B) :
  sends_only P m -> (forall a, sends_only P (k a)) ->
  sends_only P (bind m k).
Proof.
  intros Hm Hk st. unfold bind. destruct (Hm st) as (l1 & E1 & F1).
  destruct (m st) as [[a|e] st1]; cbn [snd] in *.
  - destruct (Hk a st1) as (l2 & E2 & F2). exists (l1 ++ l2).
    rewrite E2, E1, app_assoc. split; [reflexivity | apply Forall_app; auto].
  - exists l1. auto.
Qed.

Lemma sends_only_bind_post {A B} (Q : A -> Prop) (m : M A) (k : A -> M B) :
  sends_only P m ->
  (forall st a, fst (m st) = Ok a -> Q a) ->
  (forall a, Q a -> sends_only P (k a)) ->
  sends_only P (bind m k).
Proof.
  intros Hm HQ Hk st. unfold bind. destruct (Hm st) as (l1 & E1 & F1).
  specialize (HQ st).
  destruct (m st) as [[a|e] st1]; cbn [fst snd] in *.
  - destruct (Hk a (HQ a eq_refl) st1) as (l2 & E2 & F2). exists (l1 ++ l2).
    rewrite E2, E1, app_assoc. split; [reflexivity | apply Forall_app; auto].
  - exists l1. auto.
Qed.

Lemma sends_only_try {A} (m : M A) (h : jsstring -> M A) :
  sends_only P m -> (forall e, sends_only P (h e)) ->
  sends_only P (try_catch m h).
Proof.
  intros Hm Hh st. unfold try_catch. destruct (Hm st) as (l1 & E1 & F1).
  destruct (m st) as [[a|e] st1]; cbn [snd] in *.
  - exists l1. auto.
  - destruct (Hh e st1) as (l2 & E2 & F2). exists (l1 ++ l2).
    rewrite E2, E1, app_assoc. split; [reflexivity | apply Forall_app; auto].
Qed.

Lemma sends_only_ws_send (u : message) : P u -> sends_only P (ws_send u).
Proof.
  intros Hu st. exists [u]. split; [reflexivity | repeat constructor; exact Hu].
Qed.

Lemma sends_only_sendProgress (u : message) :
  P u -> sends_only P (sendProgress u).
Proof.
  intros Hu. unfold sendProgress. apply sends_only_bind.
  - apply sends_only_silent. reflexivity.
  - intros rs. destruct (is_open rs);
      [apply sends_only_ws_send; exact Hu | apply sends_only_ret].
Qed.

Lemma sends_only_get_files : sends_only P get_files.
Proof. apply sends_only_silent. reflexivity. Qed.

Lemma sends_only_set_files (fs : filesystem) : sends_only P (set_files fs).
Proof. apply sends_only_silent. reflexivity. Qed.

Lemma sends_only_socket_closed : sends_only P socket_closed.
Proof. apply sends_only_silent. reflexivity. Qed.

Lemma sends_only_get_readyState : sends_only P get_readyState.
Proof. apply sends_only_silent. reflexivity. Qed.

End SendsOnly.

Create HintDb sends discriminated.
#[export] Hint Resolve sends_only_ret sends_only_throw sends_only_ws_send
  sends_only_sendProgress sends_only_get_files sends_only_set_files
  sends_only_socket_closed sends_only_get_readyState : sends.

(** Walks a monadic program: binds and handlers by the composition
    lemmas [Lb] and [Lt], branches by cases, leaves by [tac]. *)
Ltac walk Lb Lt tac :=
  repeat first
    [ solve [tac]
    | apply Lb; [ | intro ]
    | apply Lt; [ | intro ]
    | match goal with
      | |- context [match ?x with _ => _ end] =>
          match type of x with
          | M _ => fail 1
          | _ => destruct x
          end
      end ].

Lemma stdout_progress_is_progress (s : jsstring) (u : message) :
  stdout_progress s = Some u -> exists n, u = Progress n.
Proof.
  unfold stdout_progress. destruct (progress_match s) as [g|]; [|discriminate].
  destruct (nonempty g); [|discriminate].
  intros H; inversion H. eexists; reflexivity.
Qed.

Lemma runYtDlp_spawned (yt_dlp : tool) (args : list jsstring)
    (onProgress : message -> M unit) (st : state) :
  runYtDlp yt_dlp args onProgress st
  = (let process := yt_dlp args (files st) in
     acc <- runYtDlp_events onProgress (events process) [] [] ;;
     child_closed process ;;;
     if (exitCode process =? 0)%Z then ret (fst acc)
     else throw (or_else (snd acc) (lit "Video processing command failed")))
      st.
Proof. reflexivity. Qed.

Lemma runFFmpeg_spawned (ffmpeg : tool) (args : list jsstring)
    (onProgress : message -> M unit) (st : state) :
  runFFmpeg ffmpeg args onProgress st
  = (let process := ffmpeg args (files st) in
     error <- runFFmpeg_events onProgress (events process) [] ;;
     child_closed process ;;;
     if (exitCode process =? 0)%Z then ret tt
     else throw (or_else error (lit "Video conversion failed")))
      st.
Proof. reflexivity. Qed.

Lemma finalize_positive (finalPath : path) (st : state) (size : N) :
  fst (finalize finalPath st) = Ok size -> (0 < size)%N.
Proof.
  unfold finalize. mrun.
  destruct (fs_lookup finalPath (files st)) as [b|]; [|discriminate].
  destruct (N.eqb_spec (N.of_nat (List.length b)) 0) as [E|E];
    [discriminate|].
  cbn [fst]. intros H. inversion H. lia.
Qed.

Section JobSends.

Variable DOWNLOADS_DIR : path.
Variable yt_dlp ffmpeg : tool.
Variable uuidv4 : jsstring.
Variable P : message -> Prop.

Hypothesis P_status : forall s n, P (Status s n).
Hypothesis P_progress : forall n, P (Progress n).
Hypothesis P_ready : forall f s u, (0 < s)%N -> P (DownloadReady f s u).
Hypothesis P_classified : forall e, P (Error (errorMessage e)).
Hypothesis P_internal : P (Error MSG_INTERNAL).
Hypothesis P_raw :
  forall args fs data,
    In (Stderr data) (events (yt_dlp args fs)) ->
    includes (lit "ERROR:") data = true -> P (Error data).

Lemma sends_only_fs_access (p : path) : sends_only P (fs_access p).
Proof.
  apply sends_only_silent. intros st. unfold fs_access. mrun.
  destruct (fs_lookup p (files st)); reflexivity.
Qed.

Lemma sends_only_fs_stat_size (p : path) : sends_only P (fs_stat_size p).
Proof.
  apply sends_only_silent. intros st. unfold fs_stat_size. mrun.
  destruct (fs_lookup p (files st)); reflexivity.
Qed.

Lemma sends_only_fs_unlink (p : path) : sends_only P (fs_unlink p).
Proof.
  apply sends_only_silent. intros st. unfold fs_unlink. mrun.
  destruct (fs_lookup p (files st)); reflexivity.
Qed.

Lemma sends_only_fs_readdir (p : path) : sends_only P (fs_readdir p).
Proof. apply sends_only_silent. reflexivity. Qed.

Lemma sends_only_child_closed (r : process_run) :
  sends_only P (child_closed r).
Proof. apply sends_only_silent. reflexivity. Qed.

Lemma sends_only_runYtDlp_events (evs : list io_event) :
  (forall data, In (Stderr data) evs ->
     includes (lit "ERROR:") data = true -> P (Error data)) ->
  forall output error,
    sends_only P (runYtDlp_events sendProgress evs output error).
Proof.
  induction evs as [|[data|data|] evs IH]; intros Hraw output error;
    cbn [runYtDlp_events].
  - apply sends_only_ret.
  - apply sends_only_bind.
    + destruct (stdout_progress data) as [u|] eqn:E.
      * apply stdout_progress_is_progress in E as [n ->].
        apply sends_only_sendProgress, P_progress.
      * apply sends_only_ret.
    + intros _. apply IH. intros d Hd. apply Hraw. right; exact Hd.
  - apply sends_only_bind.
    + destruct (includes (lit "ERROR:") data) eqn:E.
      * apply sends_only_sendProgress, Hraw; [left; reflexivity | exact E].
      * apply sends_only_ret.
    + intros _. apply IH. intros d Hd. apply Hraw. right; exact Hd.
  - apply sends_only_bind; [apply sends_only_socket_closed|].
    intros _. apply IH. intros d Hd. apply Hraw. right; exact Hd.
Qed.

Lemma sends_only_runFFmpeg_events (evs : list io_event) :
  forall error, sends_only P (runFFmpeg_events sendProgress evs error).
Proof.
  induction evs as [|[data|data|] evs IH]; intros error;
    cbn [runFFmpeg_events].
  - apply sends_only_ret.
  - apply IH.
  - apply sends_only_bind.
    + destruct (includes (lit "size=") data).
      * apply sends_only_sendProgress, P_progress.
      * apply sends_only_ret.
    + intros _. apply IH.
  - apply sends_only_bind; [apply sends_only_socket_closed|].
    intros _. apply IH.
Qed.

Lemma sends_only_runYtDlp (args : list jsstring) :
  sends_only P (runYtDlp yt_dlp args sendProgress).
Proof.
  intros st. rewrite runYtDlp_spawned. cbv zeta.
  apply sends_only_bind.
  - apply sends_only_runYtDlp_events. intros data. apply P_raw.
  - intros acc. apply sends_only_bind; [apply sends_only_child_closed|].
    intros _. destruct (exitCode _ =? 0)%Z;
      [apply sends_only_ret | apply sends_only_throw].
Qed.

Lemma sends_only_runFFmpeg (args : list jsstring) :
  sends_only P (runFFmpeg ffmpeg args sendProgress).
Proof.
  intros st. rewrite runFFmpeg_spawned. cbv zeta.
  apply sends_only_bind.
  - apply sends_only_runFFmpeg_events.
  - intros acc. apply sends_only_bind; [apply sends_only_child_closed|].
    intros _. destruct (exitCode _ =? 0)%Z;
      [apply sends_only_ret | apply sends_only_throw].
Qed.

Hint Resolve sends_only_fs_access sends_only_fs_stat_size
  sends_only_fs_unlink sends_only_fs_readdir sends_only_runYtDlp
  sends_only_runFFmpeg : sends.

Ltac sends := walk sends_only_bind sends_only_try ltac:(auto with sends).

Lemma sends_only_download_step (p : payload) (fileId sanitizedUrl : jsstring) :
  sends_only P
    (download_step DOWNLOADS_DIR yt_dlp ffmpeg p fileId sanitizedUrl).
Proof.
  unfold download_step, audio_download, video_download, locate_download.
  cbv zeta. sends.
Qed.

Lemma sends_only_download_job (p : payload) :
  sends_only P (download_job DOWNLOADS_DIR yt_dlp ffmpeg uuidv4 p).
Proof.
  pose proof sends_only_download_step.
  unfold download_job, ensureDownloadsDir. cbv zeta.
  repeat (apply sends_only_bind; [solve [auto with sends] | intro]).
  apply (sends_only_bind_post P (fun size => (0 < size)%N)).
  - unfold finalize. sends.
  - intros st size. apply finalize_positive.
  - intros size Hsize. auto with sends.
Qed.

Lemma sends_only_on_message (m : inbound) :
  sends_only P (on_message DOWNLOADS_DIR yt_dlp ffmpeg uuidv4 m).
Proof.
  pose proof sends_only_download_job.
  unfold on_message, on_download_request. sends.
Qed.

End JobSends.

(** C2 as the code has it. Whatever arrives and whatever the tools do,
    a message delivered to the peer is a status, a progress, a
    download-ready descriptor, or an error whose text is one of the five
    classified messages, the internal-error message, or a stderr chunk
    of the extraction tool that contains "ERROR:", forwarded as it
    came. *)
Theorem peer_receives_only_forwarded (DOWNLOADS_DIR : path)
    (yt_dlp ffmpeg : tool) (uuidv4 : jsstring) (m : inbound) (st : state) :
  exists delivered,
    sent (snd (on_message DOWNLOADS_DIR yt_dlp ffmpeg uuidv4 m st))
    = sent st ++ delivered
    /\ Forall (forwarded yt_dlp) delivered.
Proof.
  apply (sends_only_on_message DOWNLOADS_DIR yt_dlp ffmpeg uuidv4
           (forwarded yt_dlp)); try (intros; exact I).
  - intros e. left. apply errorMessage_in_categories.
  - right; left; reflexivity.
  - intros args fs data Hin Hinc. right; right. split.
    + apply includes_spec. exact Hinc.
    + exists args, fs. exact Hin.
Qed.

(** ** Validation of the final file *)

Lemma ENOENT_not_empty_message (syscall : string) (p : path) :
  ENOENT syscall p <> lit "Downloaded file is empty".
Proof.
  unfold ENOENT. intros H. apply (f_equal (@hd_error char)) in H.
  vm_compute in H. discriminate.
Qed.

(** C8. The size check fails with the empty-file error exactly when the
    stat of the file reports size 0; when it accepts, the size it gives
    is the one the stat reports and is positive; it changes nothing; and
    every download-ready message a handler delivers announces a size
    above zero. *)
Theorem finalize_empty_artifact (finalPath : path) (st : state) :
  (fst (finalize finalPath st) = Throw (lit "Downloaded file is empty")
   <-> fst (fs_stat_size finalPath st) = Ok 0%N)
  /\ (forall size,
        fst (finalize finalPath st) = Ok size
        <-> fst (fs_stat_size finalPath st) = Ok size /\ (0 < size)%N)
  /\ snd (finalize finalPath st) = st
  /\ (forall DOWNLOADS_DIR yt_dlp ffmpeg uuidv4 m st0,
        exists delivered,
          sent (snd (on_message DOWNLOADS_DIR yt_dlp ffmpeg uuidv4 m st0))
          = sent st0 ++ delivered
          /\ Forall ready_size_positive delivered).
Proof.
  assert (End_to_end :
    forall DOWNLOADS_DIR yt_dlp ffmpeg uuidv4 m st0,
      exists delivered,
        sent (snd (on_message DOWNLOADS_DIR yt_dlp ffmpeg uuidv4 m st0))
        = sent st0 ++ delivered
        /\ Forall ready_size_positive delivered).
  { intros DOWNLOADS_DIR yt_dlp ffmpeg uuidv4 m st0.
    apply (sends_only_on_message DOWNLOADS_DIR yt_dlp ffmpeg uuidv4
             ready_size_positive); try (intros; exact I).
    intros f s u Hs. exact Hs. }
  unfold finalize, fs_stat_size, bind, get_files.
  destruct (fs_lookup finalPath (files st)) as [b|]; cbn [ret throw fst snd].
  - destruct (N.eqb_spec (N.of_nat (List.length b)) 0) as [E|E];
      cbn [throw ret fst snd];
      (split; [|split; [|split; [reflexivity | exact End_to_end]]]).
    + rewrite E. split; reflexivity.
    + intros size. split; [discriminate|].
      intros [H L]. inversion H; subst. lia.
    + split; [discriminate|]. intros H; inversion H; congruence.
    + intros size. split.
      * intros H; inversion H; subst. split; [reflexivity | lia].
      * intros [H _]; exact H.
  - split; [|split; [|split; [reflexivity | exact End_to_end]]].
    + split; [|discriminate]. intros H. exfalso.
      apply (ENOENT_not_empty_message "stat" finalPath). congruence.
    + intros size. split; [discriminate|]. intros [H _]; discriminate.
Qed.

Lemma finalize_empty_artifact_witness :
  (fst (fs_stat_size (path_join ex_DIR ex_staged_name) ex_staged) = Ok 8%N
   /\ (0 < 8)%N)
  /\ fst (finalize (path_join ex_DIR ex_staged_name) ex_empty_staged)
     = Throw (lit "Downloaded file is empty").
Proof.
  split.
  - apply (proj1 (proj1 (proj2 (finalize_empty_artifact
                                  (path_join ex_DIR ex_staged_name)
                                  ex_staged)) 8%N)).
    vm_compute. reflexivity.
  - apply (proj2 (proj1 (finalize_empty_artifact
                           (path_join ex_DIR ex_staged_name)
                           ex_empty_staged))).
    vm_compute. reflexivity.
Defined.

Lemma private_video_messages :
  sent (snd (on_message ex_DIR ex_private_video ex_idle ex_fileId
               ex_download_request ex_fresh))
  = [ Status (lit "Fetching video information...") (num 5);
      Error (lit "ERROR: Private video");
      Error MSG_GENERIC ].
Proof. vm_compute. reflexivity. Qed.

(** C2 as the specification words it fails: in the private-video
    scenario the peer receives the stderr chunk itself, which is none of
    the classified messages. *)
Lemma raw_stderr_reaches_peer :
  In (Error (lit "ERROR: Private video"))
     (sent (snd (on_message ex_DIR ex_private_video ex_idle ex_fileId
                   ex_download_request ex_fresh)))
  /\ ~ Forall classified_only
         (sent (snd (on_message ex_DIR ex_private_video ex_idle ex_fileId
                       ex_download_request ex_fresh))).
Proof.
  rewrite private_video_messages. split; [right; left; reflexivity|].
  intros F. inversion F as [|? ? _ F1]. inversion F1 as [|? ? C _].
  vm_compute in C. intuition discriminate.
Qed.

(** C3 as the specification words it fails: the peer gets two error
    events, and the last one does not carry the access-restricted
    message. *)
Lemma private_video_two_errors :
  let delivered :=
    sent (snd (on_message ex_DIR ex_private_video ex_idle ex_fileId
                 ex_download_request ex_fresh)) in
  List.length (filter is_error delivered) = 2
  /\ last delivered (Progress NaN) = Error MSG_GENERIC
  /\ ~ (List.length (filter is_error delivered) = 1
        /\ last delivered (Progress NaN) = Error MSG_ACCESS
        /\ filter is_ready delivered = []).
Proof.
  cbv zeta. rewrite private_video_messages. cbn [filter is_error List.length].
  split; [reflexivity | split; [reflexivity|]].
  intros (H & _). discriminate.
Qed.

(** ** Running the job step by step *)

(** Like [mrun], and through the handler's own layers too. *)
Ltac jrun :=
  cbv beta iota zeta delta
    [bind ret throw try_catch get_files set_files get_readyState ws_send
     socket_closed fs_access fs_unlink fs_stat_size fs_readdir spawn
     child_closed sendProgress is_open runYtDlp runFFmpeg on_message
     on_download_request download_job ensureDownloadsDir download_step
     audio_download video_download locate_download finalize];
  cbn [fst snd files sent readyState events exitCode leaves
       runYtDlp_events runFFmpeg_events fold_left].

(** C3 as the code has it. When the title run of the extraction tool
    writes "ERROR: Private video" on stderr and exits with a non-zero
    status, an open channel delivers the first status, then the stderr
    chunk as an error event, then one terminal error event whose
    message is one of the five classified messages; no download-ready
    event is delivered. *)
Theorem private_video_failure (DOWNLOADS_DIR : path) (yt_dlp ffmpeg : tool)
    (uuidv4 : jsstring) (p : payload) (st : state) :
  readyState st = OPEN ->
  events (yt_dlp [lit "--get-title"; url p] (files st))
    = [Stderr (lit "ERROR: Private video")] ->
  exitCode (yt_dlp [lit "--get-title"; url p] (files st)) <> 0%Z ->
  let out :=
    on_message DOWNLOADS_DIR yt_dlp ffmpeg uuidv4
      (Envelope (lit "download-request") (Some p)) st in
  exists terminal,
    In terminal fixed_categories
    /\ sent (snd out)
       = sent st
         ++ [ Status (lit "Fetching video information...") (num 5);
              Error (lit "ERROR: Private video");
              Error terminal ]
    /\ filter is_ready (sent (snd out)) = filter is_ready (sent st).
Proof.
  destruct st as [rs delivered fs]. cbn [readyState files sent].
  intros -> Hev Hexit.
  exists (errorMessage (lit "ERROR: Private video")).
  split; [apply errorMessage_in_categories|].
  jrun. rewrite eqb_refl. jrun. rewrite Hev. jrun.
  change (includes (lit "ERROR:") (lit "ERROR: Private video")) with true.
  jrun. destruct (Z.eqb_spec (exitCode (yt_dlp [lit "--get-title"; url p] fs)) 0)
    as [E|_]; [contradiction|].
  jrun. change ([] ++ lit "ERROR: Private video") with (lit "ERROR: Private video").
  change (or_else (lit "ERROR: Private video") (lit "Video processing command failed"))
    with (lit "ERROR: Private video").
  repeat rewrite <- app_assoc. cbn [app]. split; [reflexivity|].
  rewrite filter_app. cbn. rewrite app_nil_r. reflexivity.
Qed.

Lemma private_video_failure_witness :
  exists terminal,
    In terminal fixed_categories
    /\ sent (snd (on_message ex_DIR ex_private_video ex_idle ex_fileId
                    ex_download_request ex_fresh))
       = [ Status (lit "Fetching video information...") (num 5);
           Error (lit "ERROR: Private video");
           Error terminal ].
Proof.
  destruct (private_video_failure ex_DIR ex_private_video ex_idle ex_fileId
              ex_request ex_fresh)
    as (terminal & Hin & Hsent & _); try reflexivity.
  - vm_compute; lia.
  - exists terminal. split; [exact Hin | exact Hsent].
Defined.

(** ** What a child-process wrapper returns and leaves *)

(** One step of a sequence, from what the first part returns. *)
Lemma bind_Ok {A B} (m : M A) (k : A -> M B) (st st' : state) (a : A) :
  m st = (Ok a, st') -> bind m k st = k a st'.
Proof. intros H. unfold bind. rewrite H. reflexivity. Qed.

Lemma sendProgress_effect (update : message) (st : state) :
  exists st',
    sendProgress update st = (Ok tt, st')
    /\ files st' = files st /\ readyState st' = readyState st.
Proof.
  destruct st as [rs delivered fs]. unfold sendProgress. mrun.
  destruct rs; cbn; eexists; repeat split.
Qed.

Lemma runYtDlp_events_result (evs : list io_event) :
  forall output error st,
    fst (runYtDlp_events sendProgress evs output error st)
    = Ok (output ++ stdout_text evs, error ++ stderr_text evs)
    /\ files (snd (runYtDlp_events sendProgress evs output error st))
       = files st.
Proof.
  induction evs as [|[data|data|] evs IH]; intros output error st;
    cbn [runYtDlp_events stdout_text stderr_text].
  - rewrite !app_nil_r. split; reflexivity.
  - destruct (stdout_progress data) as [u|].
    + destruct (sendProgress_effect u st) as (st1 & E & F1 & _).
      rewrite (bind_Ok _ _ _ _ _ E), !app_assoc, <- F1. apply IH.
    + rewrite (bind_Ok _ _ st st tt eq_refl), !app_assoc. apply IH.
  - destruct (includes (lit "ERROR:") data).
    + destruct (sendProgress_effect (Error data) st) as (st1 & E & F1 & _).
      rewrite (bind_Ok _ _ _ _ _ E), !app_assoc, <- F1. apply IH.
    + rewrite (bind_Ok _ _ st st tt eq_refl), !app_assoc. apply IH.
  - rewrite (bind_Ok _ _ st (mkState CLOSED (sent st) (files st)) tt eq_refl).
    apply (IH output error (mkState CLOSED (sent st) (files st))).
Qed.

Lemma runFFmpeg_events_result (evs : list io_event) :
  forall error st,
    fst (runFFmpeg_events sendProgress evs error st)
    = Ok (error ++ stderr_text evs)
    /\ files (snd (runFFmpeg_events sendProgress evs error st)) = files st.
Proof.
  induction evs as [|[data|data|] evs IH]; intros error st;
    cbn [runFFmpeg_events stderr_text].
  - rewrite app_nil_r. split; reflexivity.
  - apply IH.
  - destruct (includes (lit "size=") data).
    + destruct (sendProgress_effect (Progress (num 90)) st)
        as (st1 & E & F1 & _).
      rewrite (bind_Ok _ _ _ _ _ E), !app_assoc, <- F1. apply IH.
    + rewrite (bind_Ok _ _ st st tt eq_refl), !app_assoc. apply IH.
  - rewrite (bind_Ok _ _ st (mkState CLOSED (sent st) (files st)) tt eq_refl).
    apply (IH error (mkState CLOSED (sent st) (files st))).
Qed.

Lemma run_pair {A} (m : M A) (st : state) (a : A) (fs : filesystem) :
  fst (m st) = Ok a /\ files (snd (m st)) = fs ->
  exists st', m st = (Ok a, st') /\ files st' = fs.
Proof.
  destruct (m st) as [r st']. cbn [fst snd]. intros [-> F].
  exists st'. split; [reflexivity | exact F].
Qed.

Lemma runYtDlp_result (yt_dlp : tool) (args : list jsstring) (st : state) :
  let process := yt_dlp args (files st) in
  fst (runYtDlp yt_dlp args sendProgress st)
  = (if (exitCode process =? 0)%Z then Ok (stdout_text (events process))
     else Throw (or_else (stderr_text (events process))
                   (lit "Video processing command failed")))
  /\ files (snd (runYtDlp yt_dlp args sendProgress st))
     = written (leaves process) (files st).
Proof.
  intros process. rewrite runYtDlp_spawned. fold process. cbv zeta.
  destruct (run_pair _ _ _ _
              (runYtDlp_events_result (events process) [] [] st))
    as (st1 & E & F).
  rewrite (bind_Ok _ _ _ _ _ E). cbn [app]. mrun. rewrite F.
  destruct (exitCode process =? 0)%Z; split; reflexivity.
Qed.

Lemma runFFmpeg_result (ffmpeg : tool) (args : list jsstring) (st : state) :
  let process := ffmpeg args (files st) in
  fst (runFFmpeg ffmpeg args sendProgress st)
  = (if (exitCode process =? 0)%Z then Ok tt
     else Throw (or_else (stderr_text (events process))
                   (lit "Video conversion failed")))
  /\ files (snd (runFFmpeg ffmpeg args sendProgress st))
     = written (leaves process) (files st).
Proof.
  intros process. rewrite runFFmpeg_spawned. fold process. cbv zeta.
  destruct (run_pair _ _ _ _
              (runFFmpeg_events_result (events process) [] st))
    as (st1 & E & F).
  rewrite (bind_Ok _ _ _ _ _ E). cbn [app]. mrun. rewrite F.
  destruct (exitCode process =? 0)%Z; split; reflexivity.
Qed.

Lemma find_first {A} (f : A -> bool) (l : list A) (x : A) :
  find f l = Some x <->
  exists before after,
    l = before ++ x :: after /\ f x = true
    /\ Forall (fun y => f y = false) before.
Proof.
  induction l as [|y l IH]; simpl.
  - split; [discriminate|]. intros ([|? ?] & after & H & _); discriminate.
  - destruct (f y) eqn:Fy.
    + split.
      * intros H; inversion H; subst. exists [], l. repeat split; auto.
      * intros ([|z before] & after & H & Fx & Fb); inversion H; subst.
        -- reflexivity.
        -- inversion Fb; congruence.
    + rewrite IH. split.
      * intros (before & after & -> & Fx & Fb).
        exists (y :: before), after. repeat split; auto.
      * intros ([|z before] & after & H & Fx & Fb); inversion H; subst.
        -- congruence.
        -- inversion Fb; subst. exists before, after. repeat split; auto.
Qed.

Ltac step_send :=
  match goal with
  | |- context [bind (sendProgress ?u) ?k ?st] =>
      let st' := fresh "st" in
      let E := fresh "E" in
      let F := fresh "F" in
      destruct (sendProgress_effect u st) as (st' & E & F & _);
      rewrite (bind_Ok _ _ _ _ _ E); clear E
  end.

(** ** Where the download is looked for *)

Lemma locate_download_run (DOWNLOADS_DIR : path) (fileId sanitizedUrl : jsstring)
    (st : state) :
  locate_download DOWNLOADS_DIR fileId sanitizedUrl st
  = (match find (startsWith (workingName fileId sanitizedUrl))
             (fs_entries DOWNLOADS_DIR (files st)) with
     | Some downloadedFile => Ok downloadedFile
     | None => Throw (lit "Downloaded file not found")
     end, st).
Proof.
  unfold locate_download. mrun.
  destruct (find _ (fs_entries DOWNLOADS_DIR (files st))); reflexivity.
Qed.

Lemma audio_dispatch (f : jsstring) :
  In f [lit "mp3"; lit "m4a"] ->
  existsb (eqb f) [lit "mp3"; lit "m4a"] = true.
Proof. intros [<- | [<- | []]]; reflexivity. Qed.

Lemma video_dispatch (f : jsstring) :
  In f [lit "mp4"; lit "webm"] ->
  existsb (eqb f) [lit "mp3"; lit "m4a"] = false
  /\ existsb (eqb f) [lit "mp4"; lit "webm"] = true.
Proof. intros [<- | [<- | []]]; split; reflexivity. Qed.

(** C6 as the code has it. For an audio target the final path is
    written down from the working name and the requested format,
    whatever the staging directory holds. For a video target the
    download is the first entry of the staging directory, in listing
    order, whose name starts with the working name; the final path is
    that entry, or the converted file named from the working name when
    the entry does not end in the requested extension. *)
Theorem download_step_locates (DOWNLOADS_DIR : path) (yt_dlp ffmpeg : tool)
    (p : payload) (fileId sanitizedUrl : jsstring) (st : state) :
  let prefix := workingName fileId sanitizedUrl in
  let step := download_step DOWNLOADS_DIR yt_dlp ffmpeg p fileId sanitizedUrl in
  (In (format p) [lit "mp3"; lit "m4a"] ->
     let run := yt_dlp (audio_args DOWNLOADS_DIR p fileId sanitizedUrl)
                  (files st) in
     fst (step st)
     = if (exitCode run =? 0)%Z
       then Ok (path_join DOWNLOADS_DIR (prefix ++ lit "." ++ format p))
       else Throw (or_else (stderr_text (events run))
                     (lit "Video processing command failed")))
  /\ (In (format p) [lit "mp4"; lit "webm"] ->
      forall finalPath, fst (step st) = Ok finalPath ->
        let run := yt_dlp (video_args DOWNLOADS_DIR p fileId sanitizedUrl)
                     (files st) in
        exists before downloadedFile after,
          fs_entries DOWNLOADS_DIR (written (leaves run) (files st))
          = before ++ downloadedFile :: after
          /\ startsWith prefix downloadedFile = true
          /\ Forall (fun f => startsWith prefix f = false) before
          /\ (if endsWith (lit "." ++ format p) downloadedFile
              then finalPath = path_join DOWNLOADS_DIR downloadedFile
              else finalPath
                   = path_join DOWNLOADS_DIR
                       (prefix ++ lit "_converted." ++ format p))).
Proof.
  intros prefix step. subst step prefix. unfold download_step. split.
  - intros Hf. cbv zeta. rewrite (audio_dispatch _ Hf). unfold audio_download.
    step_send. rewrite <- F.
    pose proof (runYtDlp_result yt_dlp
                  (audio_args DOWNLOADS_DIR p fileId sanitizedUrl) st0) as [R _].
    cbv zeta in R. unfold bind.
    destruct (runYtDlp yt_dlp _ sendProgress st0) as [r st1].
    cbn [fst] in R. subst r.
    destruct (exitCode _ =? 0)%Z; reflexivity.
  - intros Hf finalPath. destruct (video_dispatch _ Hf) as [-> ->].
    unfold video_download. step_send. intros Hok. cbv zeta.
    rewrite <- F.
    pose proof (runYtDlp_result yt_dlp
                  (video_args DOWNLOADS_DIR p fileId sanitizedUrl) st0) as [R W].
    cbv zeta in R, W. unfold bind at 1 in Hok.
    destruct (runYtDlp yt_dlp _ sendProgress st0) as [r st1].
    cbn [fst snd] in R, W. subst r.
    destruct (exitCode _ =? 0)%Z; [|discriminate].
    unfold bind at 1 in Hok. rewrite locate_download_run in Hok.
    rewrite <- W.
    destruct (find _ (fs_entries DOWNLOADS_DIR (files st1)))
      as [downloadedFile|] eqn:Ef; [|discriminate].
    apply find_first in Ef as (before & after & El & Fx & Fb).
    exists before, downloadedFile, after.
    repeat (split; [assumption|]).
    destruct (endsWith (lit "." ++ format p) downloadedFile);
      cbn [negb] in Hok.
    + inversion Hok. reflexivity.
    + revert Hok. step_send.
      unfold bind at 1.
      destruct (runFFmpeg ffmpeg _ sendProgress st2) as [[[]|e] st3];
        [|discriminate].
      unfold bind at 1.
      destruct (fs_unlink _ st3) as [[[]|e] st4]; [|discriminate].
      intros Hok. inversion Hok. reflexivity.
Qed.


Lemma download_step_locates_witness :
  fst (download_step ex_DIR ex_leaves_m4a ex_idle ex_request ex_fileId
         (sanitizeUrl (url ex_request)) ex_fresh)
  = Ok (path_join ex_DIR (ex_prefix ++ lit ".mp3"))
  /\ exists before downloadedFile after,
       fs_entries ex_DIR
         (written
            (leaves (ex_leaves_mp4
                       (video_args ex_DIR ex_request_mp4 ex_fileId
                          (sanitizeUrl (url ex_request_mp4)))
                       (files ex_fresh)))
            (files ex_fresh))
       = before ++ downloadedFile :: after
       /\ startsWith ex_prefix downloadedFile = true
       /\ Forall (fun f => startsWith ex_prefix f = false) before.
Proof.
  split.
  - apply (proj1 (download_step_locates ex_DIR ex_leaves_m4a ex_idle
                    ex_request ex_fileId (sanitizeUrl (url ex_request))
                    ex_fresh)).
    simpl. auto.
  - destruct (proj2 (download_step_locates ex_DIR ex_leaves_mp4 ex_idle
                       ex_request_mp4 ex_fileId
                       (sanitizeUrl (url ex_request_mp4)) ex_fresh)
                (or_introl eq_refl)
                (path_join ex_DIR (ex_prefix ++ lit ".mp4")))
      as (before & f & after & H1 & H2 & H3 & _).
    + vm_compute. reflexivity.
    + exists before, f, after. repeat split; assumption.
Defined.

(** C6 as the specification words it fails: for an audio target the
    final path is not the entry a scan by prefix finds. *)
Lemma audio_path_is_not_scanned :
  let out :=
    download_step ex_DIR ex_leaves_m4a ex_idle ex_request ex_fileId
      (sanitizeUrl (url ex_request)) ex_fresh in
  fst out = Ok (path_join ex_DIR (ex_prefix ++ lit ".mp3"))
  /\ fst (locate_download ex_DIR ex_fileId (sanitizeUrl (url ex_request))
            (snd out))
     = Ok (ex_prefix ++ lit ".m4a")
  /\ path_join ex_DIR (ex_prefix ++ lit ".mp3")
     <> path_join ex_DIR (ex_prefix ++ lit ".m4a").
Proof.
  cbv zeta. split; [vm_compute; reflexivity|].
  split; [vm_compute; reflexivity|]. vm_compute. discriminate.
Qed.

(** ** What a failed job leaves in staging *)

Lemma finalize_state (finalPath : path) (st : state) :
  snd (finalize finalPath st) = st.
Proof.
  unfold finalize. mrun. destruct (fs_lookup finalPath (files st)) as [b|];
    [|reflexivity].
  destruct (N.of_nat (List.length b) =? 0)%N; reflexivity.
Qed.

Lemma files_bind_keep {A B} (m : M A) (k : A -> M B) (st : state) :
  (forall a st', files (snd (k a st')) = files st') ->
  files (snd (bind m k st)) = files (snd (m st)).
Proof.
  intros Hk. unfold bind. destruct (m st) as [[a|e] st']; cbn [snd];
    [apply Hk | reflexivity].
Qed.

Lemma files_try_keep {A} (m : M A) (h : jsstring -> M A) (st : state) :
  (forall e st', files (snd (h e st')) = files st') ->
  files (snd (try_catch m h st)) = files (snd (m st)).
Proof.
  intros Hh. unfold try_catch. destruct (m st) as [[a|e] st']; cbn [snd];
    [reflexivity | apply Hh].
Qed.

Lemma sendProgress_files (update : message) (st : state) :
  files (snd (sendProgress update st)) = files st.
Proof.
  destruct (sendProgress_effect update st) as (st' & -> & F & _). exact F.
Qed.

Lemma sendProgress_sent (update : message) (st : state) :
  sent (snd (sendProgress update st))
  = sent st ++ (if is_open (readyState st) then [update] else []).
Proof.
  destruct st as [rs delivered fs]. unfold sendProgress. mrun.
  destruct rs; cbn; rewrite ?app_nil_r; reflexivity.
Qed.

(** C5 as the code has it. The Failed transition only classifies and
    reports: after the terminal error event the staging directory is
    exactly as the failing step left it. For an audio target nothing is
    deleted at any point: after the job, failed or not, the staging
    directory is the initial one with the files the title run and the
    download run left. *)
Theorem failed_job_releases_nothing (DOWNLOADS_DIR : path)
    (yt_dlp ffmpeg : tool) (uuidv4 : jsstring) (p : payload) (st : state) :
  let job := download_job DOWNLOADS_DIR yt_dlp ffmpeg uuidv4 p in
  let out := on_download_request DOWNLOADS_DIR yt_dlp ffmpeg uuidv4 p st in
  (forall e st1,
      job (snd (sendProgress
                  (Status (lit "Fetching video information...") (num 5)) st))
      = (Throw e, st1) ->
      fst out = Ok tt
      /\ files (snd out) = files st1
      /\ sent (snd out)
         = sent st1
           ++ (if is_open (readyState st1) then [Error (errorMessage e)]
               else []))
  /\ (In (format p) [lit "mp3"; lit "m4a"] ->
      let title := yt_dlp [lit "--get-title"; url p] (files st) in
      let fs1 := written (leaves title) (files st) in
      files (snd out)
      = if (exitCode title =? 0)%Z
        then written
               (leaves (yt_dlp (audio_args DOWNLOADS_DIR p uuidv4
                                  (sanitizeUrl (url p))) fs1)) fs1
        else fs1).
Proof.
  intros job out. subst job out. unfold on_download_request. split.
  - intros e st1.
    destruct (sendProgress_effect
                (Status (lit "Fetching video information...") (num 5)) st)
      as (st0 & E & _).
    rewrite (bind_Ok _ _ _ _ _ E), E. cbn [snd]. intros Hjob.
    unfold try_catch. rewrite Hjob.
    destruct (sendProgress_effect (Error (errorMessage e)) st1)
      as (st2 & E2 & F2 & _).
    pose proof (sendProgress_sent (Error (errorMessage e)) st1) as S2.
    rewrite E2 in *. cbn [fst snd] in *. auto.
  - intros Hf. cbv zeta. step_send.
    rewrite files_try_keep by (intros; apply sendProgress_files).
    unfold download_job, ensureDownloadsDir.
    rewrite (bind_Ok _ _ st0 st0 tt eq_refl).
    pose proof (runYtDlp_result yt_dlp [lit "--get-title"; url p] st0)
      as [R W]. cbv zeta in R, W. rewrite F in R, W.
    unfold bind at 1.
    destruct (runYtDlp yt_dlp [lit "--get-title"; url p] sendProgress st0)
      as [r st1]. cbn [fst snd] in R, W. subst r.
    destruct (exitCode _ =? 0)%Z; [|exact W].
    cbv zeta. step_send.
    rewrite files_bind_keep.
    2:{ intros finalPath st'. rewrite files_bind_keep.
        - rewrite finalize_state. reflexivity.
        - intros; apply sendProgress_files. }
    unfold download_step. rewrite (audio_dispatch _ Hf).
    unfold audio_download. step_send.
    rewrite files_bind_keep by reflexivity.
    pose proof (runYtDlp_result yt_dlp
                  (audio_args DOWNLOADS_DIR p uuidv4 (sanitizeUrl (url p)))
                  st3) as [_ W3].
    cbv zeta in W3. rewrite W3, F1, F0, W. reflexivity.
Qed.

Lemma failed_job_releases_nothing_witness :
  files (snd (on_download_request ex_DIR ex_empty_download ex_idle ex_fileId
                ex_request ex_fresh))
  = [(path_join ex_DIR (ex_prefix ++ lit ".mp3"), [])]
  /\ sent (snd (on_download_request ex_DIR ex_empty_download ex_idle
                  ex_fileId ex_request ex_fresh))
     = [ Status (lit "Fetching video information...") (num 5);
         Status (lit "Processing: Big Buck Bunny") (num 10);
         Status (lit "Downloading audio...") (num 20);
         Progress (num 100) ]
       ++ [Error (errorMessage (lit "Downloaded file is empty"))].
Proof.
  split.
  - apply (proj2 (failed_job_releases_nothing ex_DIR ex_empty_download
                    ex_idle ex_fileId ex_request ex_fresh)).
    simpl. auto.
  - apply (proj1 (failed_job_releases_nothing ex_DIR ex_empty_download
                    ex_idle ex_fileId ex_request ex_fresh)
             (lit "Downloaded file is empty")
             (mkState OPEN
                [ Status (lit "Fetching video information...") (num 5);
                  Status (lit "Processing: Big Buck Bunny") (num 10);
                  Status (lit "Downloading audio...") (num 20);
                  Progress (num 100) ]
                [(path_join ex_DIR (ex_prefix ++ lit ".mp3"), [])])).
    vm_compute. reflexivity.
Defined.

(** C5 as the specification words it fails: a job whose download is
    empty ends with an error event, and the empty file is still in the
    staging directory afterwards. *)
Lemma failed_job_leaves_artifact :
  let out :=
    on_message ex_DIR ex_empty_download ex_idle ex_fileId
      ex_download_request ex_fresh in
  last (sent (snd out)) (Progress NaN) = Error MSG_GENERIC
  /\ fs_lookup (path_join ex_DIR (ex_prefix ++ lit ".mp3")) (files (snd out))
     = Some []
  /\ fs_entries ex_DIR (files (snd out)) <> [].
Proof.
  cbv zeta. split; [vm_compute; reflexivity|].
  split; [vm_compute; reflexivity | vm_compute; discriminate].
Qed.

(** ** A socket that is not open *)

Lemma mute_ret {A} (a : A) : mute_when_closed (ret a).
Proof. intros st H. split; [reflexivity | exact H]. Qed.

Lemma mute_throw {A} (e : jsstring) : mute_when_closed (@throw A e).
Proof. intros st H. split; [reflexivity | exact H]. Qed.

Lemma mute_bind {A B} (m : M A) (k : A -> M B) :
  mute_when_closed m -> (forall a, mute_when_closed (k a)) ->
  mute_when_closed (bind m k).
Proof.
  intros Hm Hk st H. unfold bind. destruct (Hm st H) as [S R].
  destruct (m st) as [[a|e] st1]; cbn [snd] in *.
  - destruct (Hk a st1 R) as [S' R']. rewrite S', S. auto.
  - auto.
Qed.

Lemma mute_try {A} (m : M A) (h : jsstring -> M A) :
  mute_when_closed m -> (forall e, mute_when_closed (h e)) ->
  mute_when_closed (try_catch m h).
Proof.
  intros Hm Hh st H. unfold try_catch. destruct (Hm st H) as [S R].
  destruct (m st) as [[a|e] st1]; cbn [snd] in *.
  - auto.
  - destruct (Hh e st1 R) as [S' R']. rewrite S', S. auto.
Qed.

Lemma mute_socket_blind {A} (m : M A) :
  (forall st, sent (snd (m st)) = sent st
              /\ readyState (snd (m st)) = readyState st) ->
  mute_when_closed m.
Proof. intros H st Hc. destruct (H st) as [S R]. rewrite S, R. auto. Qed.

Lemma sendProgress_not_open_mute (update : message) :
  mute_when_closed (sendProgress update).
Proof.
  intros st H. rewrite (sendProgress_not_open update st H). auto.
Qed.

Lemma mute_socket_closed : mute_when_closed socket_closed.
Proof. intros st H. split; [reflexivity | discriminate]. Qed.

Lemma mute_get_files : mute_when_closed get_files.
Proof. apply mute_socket_blind. auto. Qed.

Lemma mute_set_files (fs : filesystem) : mute_when_closed (set_files fs).
Proof. apply mute_socket_blind. auto. Qed.

Lemma mute_fs_stat_size (p : path) : mute_when_closed (fs_stat_size p).
Proof.
  apply mute_socket_blind. intros st. unfold fs_stat_size. mrun.
  destruct (fs_lookup p (files st)); auto.
Qed.

Lemma mute_fs_unlink (p : path) : mute_when_closed (fs_unlink p).
Proof.
  apply mute_socket_blind. intros st. unfold fs_unlink. mrun.
  destruct (fs_lookup p (files st)); auto.
Qed.

Lemma mute_fs_readdir (p : path) : mute_when_closed (fs_readdir p).
Proof. apply mute_socket_blind. auto. Qed.

Lemma mute_spawn (t : tool) (args : list jsstring) :
  mute_when_closed (spawn t args).
Proof. apply mute_socket_blind. auto. Qed.

Lemma mute_child_closed (r : process_run) : mute_when_closed (child_closed r).
Proof. apply mute_socket_blind. auto. Qed.

Lemma mute_runYtDlp_events (evs : list io_event) :
  forall output error,
    mute_when_closed (runYtDlp_events sendProgress evs output error).
Proof.
  induction evs as [|[data|data|] evs IH]; intros output error;
    cbn [runYtDlp_events].
  - apply mute_ret.
  - apply mute_bind; [|intros _; apply IH].
    destruct (stdout_progress data);
      [apply sendProgress_not_open_mute | apply mute_ret].
  - apply mute_bind; [|intros _; apply IH].
    destruct (includes (lit "ERROR:") data);
      [apply sendProgress_not_open_mute | apply mute_ret].
  - apply mute_bind; [apply mute_socket_closed | intros _; apply IH].
Qed.

Lemma mute_runFFmpeg_events (evs : list io_event) :
  forall error, mute_when_closed (runFFmpeg_events sendProgress evs error).
Proof.
  induction evs as [|[data|data|] evs IH]; intros error;
    cbn [runFFmpeg_events].
  - apply mute_ret.
  - apply IH.
  - apply mute_bind; [|intros _; apply IH].
    destruct (includes (lit "size=") data);
      [apply sendProgress_not_open_mute | apply mute_ret].
  - apply mute_bind; [apply mute_socket_closed | intros _; apply IH].
Qed.

Create HintDb mute discriminated.
#[export] Hint Resolve mute_ret mute_throw sendProgress_not_open_mute
  mute_socket_closed mute_get_files mute_set_files mute_fs_stat_size
  mute_fs_unlink mute_fs_readdir mute_spawn mute_child_closed
  mute_runYtDlp_events mute_runFFmpeg_events : mute.

Ltac mute := walk @mute_bind @mute_try ltac:(auto with mute).

Lemma mute_runYtDlp (yt_dlp : tool) (args : list jsstring) :
  mute_when_closed (runYtDlp yt_dlp args sendProgress).
Proof. unfold runYtDlp. mute. Qed.

Lemma mute_runFFmpeg (ffmpeg : tool) (args : list jsstring) :
  mute_when_closed (runFFmpeg ffmpeg args sendProgress).
Proof. unfold runFFmpeg. mute. Qed.

#[export] Hint Resolve mute_runYtDlp mute_runFFmpeg : mute.

Lemma mute_download_job (DOWNLOADS_DIR : path) (yt_dlp ffmpeg : tool)
    (uuidv4 : jsstring) (p : payload) :
  mute_when_closed (download_job DOWNLOADS_DIR yt_dlp ffmpeg uuidv4 p).
Proof.
  unfold download_job, ensureDownloadsDir, finalize, download_step,
    audio_download, video_download, locate_download.
  cbv zeta. mute.
Qed.

Lemma mute_on_message (DOWNLOADS_DIR : path) (yt_dlp ffmpeg : tool)
    (uuidv4 : jsstring) (m : inbound) :
  mute_when_closed (on_message DOWNLOADS_DIR yt_dlp ffmpeg uuidv4 m).
Proof.
  pose proof mute_download_job.
  unfold on_message, on_download_request.
  apply mute_try.
  - mute.
  - intros _. apply (sendProgress_not_open_mute (Error MSG_INTERNAL)).
Qed.

(** Once the socket has closed in the first part of a sequence, the
    rest adds nothing to what was sent. *)
Lemma closed_then_bind {A B} (m : M A) (k : A -> M B) (st : state)
    (s : list message) :
  sent (snd (m st)) = s /\ readyState (snd (m st)) <> OPEN ->
  (forall a, mute_when_closed (k a)) ->
  sent (snd (bind m k st)) = s /\ readyState (snd (bind m k st)) <> OPEN.
Proof.
  intros [S R] Hk. unfold bind. destruct (m st) as [[a|e] st1];
    cbn [snd] in *; [|auto].
  destruct (Hk a st1 R) as [S' R']. rewrite S'. auto.
Qed.

Lemma closed_then_try {A} (m : M A) (h : jsstring -> M A) (st : state)
    (s : list message) :
  sent (snd (m st)) = s /\ readyState (snd (m st)) <> OPEN ->
  (forall e, mute_when_closed (h e)) ->
  sent (snd (try_catch m h st)) = s
  /\ readyState (snd (try_catch m h st)) <> OPEN.
Proof.
  intros [S R] Hh. unfold try_catch. destruct (m st) as [[a|e] st1];
    cbn [snd] in *; [auto|].
  destruct (Hh e st1 R) as [S' R']. rewrite S'. auto.
Qed.

Lemma runYtDlp_events_closed (before after : list io_event) :
  forall output error st,
    sent (snd (runYtDlp_events sendProgress (before ++ SocketClose :: after)
                 output error st))
    = sent (snd (runYtDlp_events sendProgress before output error st))
    /\ readyState
         (snd (runYtDlp_events sendProgress (before ++ SocketClose :: after)
                 output error st))
       <> OPEN.
Proof.
  induction before as [|[data|data|] before IH]; intros output error st;
    cbn [app runYtDlp_events].
  - rewrite (bind_Ok _ _ st (mkState CLOSED (sent st) (files st)) tt eq_refl).
    apply (mute_runYtDlp_events after output error
             (mkState CLOSED (sent st) (files st))).
    discriminate.
  - destruct (stdout_progress data) as [u|].
    + destruct (sendProgress_effect u st) as (st1 & E & _).
      rewrite !(bind_Ok _ _ _ _ _ E). apply IH.
    + rewrite !(bind_Ok _ _ st st tt eq_refl). apply IH.
  - destruct (includes (lit "ERROR:") data).
    + destruct (sendProgress_effect (Error data) st) as (st1 & E & _).
      rewrite !(bind_Ok _ _ _ _ _ E). apply IH.
    + rewrite !(bind_Ok _ _ st st tt eq_refl). apply IH.
  - rewrite !(bind_Ok _ _ st (mkState CLOSED (sent st) (files st)) tt eq_refl).
    apply IH.
Qed.

Lemma on_message_returns (DOWNLOADS_DIR : path) (yt_dlp ffmpeg : tool)
    (uuidv4 : jsstring) (m : inbound) (st : state) :
  fst (on_message DOWNLOADS_DIR yt_dlp ffmpeg uuidv4 m st) = Ok tt.
Proof.
  unfold on_message, try_catch.
  match goal with |- context [let (_, _) := ?b st in _] =>
    destruct (b st) as [[[]|e] st1] end; [reflexivity|].
  destruct (sendProgress_effect (Error MSG_INTERNAL) st1) as (st2 & E & _).
  change (fst (sendProgress (Error MSG_INTERNAL) st1) = Ok tt).
  rewrite E. reflexivity.
Qed.

(** ** The job does not depend on the socket *)

Lemma same_ret {A} (a : A) : same_outcome (ret a) (ret a).
Proof. intros st1 st2 H. split; [reflexivity | exact H]. Qed.

Lemma same_throw {A} (e : jsstring) : same_outcome (@throw A e) (throw e).
Proof. intros st1 st2 H. split; [reflexivity | exact H]. Qed.

Lemma same_bind {A B} (m1 m2 : M A) (k1 k2 : A -> M B) :
  same_outcome m1 m2 -> (forall a, same_outcome (k1 a) (k2 a)) ->
  same_outcome (bind m1 k1) (bind m2 k2).
Proof.
  intros Hm Hk st1 st2 H. unfold bind. destruct (Hm st1 st2 H) as [R F].
  destruct (m1 st1) as [r1 s1], (m2 st2) as [r2 s2]. cbn [fst snd] in *.
  subst r2. destruct r1 as [a|e]; [apply Hk; exact F | auto].
Qed.

Lemma same_try {A} (m1 m2 : M A) (h1 h2 : jsstring -> M A) :
  same_outcome m1 m2 -> (forall e, same_outcome (h1 e) (h2 e)) ->
  same_outcome (try_catch m1 h1) (try_catch m2 h2).
Proof.
  intros Hm Hh st1 st2 H. unfold try_catch. destruct (Hm st1 st2 H) as [R F].
  destruct (m1 st1) as [r1 s1], (m2 st2) as [r2 s2]. cbn [fst snd] in *.
  subst r2. destruct r1 as [a|e]; [auto | apply Hh; exact F].
Qed.

Lemma same_sendProgress (update : message) :
  same_outcome (sendProgress update) (sendProgress update).
Proof.
  intros st1 st2 H.
  destruct (sendProgress_effect update st1) as (s1 & -> & F1 & _).
  destruct (sendProgress_effect update st2) as (s2 & -> & F2 & _).
  cbn [fst snd]. split; congruence.
Qed.

Lemma same_get_files : same_outcome get_files get_files.
Proof. intros st1 st2 H. cbn. split; congruence. Qed.

Lemma same_set_files (fs : filesystem) :
  same_outcome (set_files fs) (set_files fs).
Proof. intros st1 st2 H. cbn. split; reflexivity. Qed.

Lemma undisturbed_stdout (evs : list io_event) :
  stdout_text
    (filter (fun e => match e with SocketClose => false | _ => true end) evs)
  = stdout_text evs.
Proof.
  induction evs as [|[data|data|] evs IH]; cbn; rewrite ?IH; reflexivity.
Qed.

Lemma undisturbed_stderr (evs : list io_event) :
  stderr_text
    (filter (fun e => match e with SocketClose => false | _ => true end) evs)
  = stderr_text evs.
Proof.
  induction evs as [|[data|data|] evs IH]; cbn; rewrite ?IH; reflexivity.
Qed.

Lemma same_runYtDlp (yt_dlp : tool) (args : list jsstring) :
  same_outcome (runYtDlp yt_dlp args sendProgress)
               (runYtDlp (undisturbed yt_dlp) args sendProgress).
Proof.
  intros st1 st2 H.
  destruct (runYtDlp_result yt_dlp args st1) as [R1 F1].
  destruct (runYtDlp_result (undisturbed yt_dlp) args st2) as [R2 F2].
  cbv zeta in *. rewrite R1, R2, F1, F2. unfold undisturbed.
  cbn [events exitCode leaves].
  rewrite undisturbed_stdout, undisturbed_stderr, H. split; reflexivity.
Qed.

Lemma same_runFFmpeg (ffmpeg : tool) (args : list jsstring) :
  same_outcome (runFFmpeg ffmpeg args sendProgress)
               (runFFmpeg (undisturbed ffmpeg) args sendProgress).
Proof.
  intros st1 st2 H.
  destruct (runFFmpeg_result ffmpeg args st1) as [R1 F1].
  destruct (runFFmpeg_result (undisturbed ffmpeg) args st2) as [R2 F2].
  cbv zeta in *. rewrite R1, R2, F1, F2. unfold undisturbed.
  cbn [events exitCode leaves].
  rewrite undisturbed_stderr, H. split; reflexivity.
Qed.

Create HintDb same discriminated.
#[export] Hint Resolve same_ret same_throw same_sendProgress same_get_files
  same_set_files same_runYtDlp same_runFFmpeg : same.

Ltac same := walk @same_bind @same_try ltac:(auto with same).

Lemma same_download_job (DOWNLOADS_DIR : path) (yt_dlp ffmpeg : tool)
    (uuidv4 : jsstring) (p : payload) :
  same_outcome
    (download_job DOWNLOADS_DIR yt_dlp ffmpeg uuidv4 p)
    (download_job DOWNLOADS_DIR (undisturbed yt_dlp) (undisturbed ffmpeg)
       uuidv4 p).
Proof.
  unfold download_job, ensureDownloadsDir, finalize, download_step,
    audio_download, video_download, locate_download, fs_readdir,
    fs_stat_size, fs_unlink.
  cbv zeta. same.
Qed.


(** C10. A message handed to [sendProgress] while the socket is not
    open is dropped: the call returns normally and changes nothing.
    A handler that starts with a socket that is not open delivers
    nothing and still returns normally. The job's outcome and the files
    it leaves do not depend on the socket or on the peer closing it
    during a run. When the socket closes during the title run, nothing
    that the job reports afterwards, its terminal event included, is
    delivered. *)
Theorem closed_socket_drops_events (DOWNLOADS_DIR : path)
    (yt_dlp ffmpeg : tool) (uuidv4 : jsstring) :
  (forall update st,
      readyState st <> OPEN -> sendProgress update st = (Ok tt, st))
  /\ (forall m st,
        readyState st <> OPEN ->
        fst (on_message DOWNLOADS_DIR yt_dlp ffmpeg uuidv4 m st) = Ok tt
        /\ sent (snd (on_message DOWNLOADS_DIR yt_dlp ffmpeg uuidv4 m st))
           = sent st)
  /\ (forall p,
        same_outcome
          (download_job DOWNLOADS_DIR yt_dlp ffmpeg uuidv4 p)
          (download_job DOWNLOADS_DIR (undisturbed yt_dlp)
             (undisturbed ffmpeg) uuidv4 p))
  /\ (forall p st before after,
        events (yt_dlp [lit "--get-title"; url p] (files st))
        = before ++ SocketClose :: after ->
        sent (snd (on_download_request DOWNLOADS_DIR yt_dlp ffmpeg uuidv4
                     p st))
        = sent (snd (runYtDlp_events sendProgress before [] []
                       (snd (sendProgress
                               (Status (lit "Fetching video information...")
                                  (num 5)) st))))).
Proof.
  split; [|split; [|split]].
  - apply sendProgress_not_open.
  - intros m st Hc. split; [apply on_message_returns|].
    apply (mute_on_message DOWNLOADS_DIR yt_dlp ffmpeg uuidv4 m st Hc).
  - apply same_download_job.
  - intros p st before after Hev. unfold on_download_request.
    destruct (sendProgress_effect
                (Status (lit "Fetching video information...") (num 5)) st)
      as (st0 & E & F & _).
    rewrite (bind_Ok _ _ _ _ _ E), E. cbn [snd].
    apply closed_then_try; [|intros e; apply sendProgress_not_open_mute].
    unfold download_job at 1 2, ensureDownloadsDir.
    rewrite !(bind_Ok _ _ st0 st0 tt eq_refl).
    apply closed_then_bind.
    + rewrite runYtDlp_spawned. cbv zeta. rewrite F, Hev.
      apply closed_then_bind.
      * apply runYtDlp_events_closed.
      * intros acc. mute.
    + intros output.
      unfold finalize, download_step, audio_download, video_download,
        locate_download.
      cbv zeta. mute.
Qed.

Lemma closed_socket_drops_events_witness :
  sendProgress (Error MSG_GENERIC) ex_gone = (Ok tt, ex_gone)
  /\ sent (snd (on_message ex_DIR ex_empty_download ex_idle ex_fileId
                  ex_download_request ex_gone))
     = []
  /\ sent (snd (on_download_request ex_DIR ex_peer_leaves ex_idle ex_fileId
                  ex_request ex_fresh))
     = [Status (lit "Fetching video information...") (num 5)].
Proof.
  refine (conj _ (conj _ _)).
  - apply (proj1 (closed_socket_drops_events ex_DIR ex_idle ex_idle
                    ex_fileId)).
    vm_compute. discriminate.
  - apply (proj1 (proj2 (closed_socket_drops_events ex_DIR ex_empty_download
                           ex_idle ex_fileId))
             ex_download_request ex_gone).
    vm_compute. discriminate.
  - apply (proj2 (proj2 (proj2 (closed_socket_drops_events ex_DIR
                                  ex_peer_leaves ex_idle ex_fileId)))
             ex_request ex_fresh [] [Stdout (lit "Big Buck Bunny")]).
    vm_compute. reflexivity.
Defined.

(** * Properties beyond the claims *)

(** ** The child-process wrappers *)

Lemma sendProgress_returns : callback_returns sendProgress.
Proof.
  intros update st. destruct (sendProgress_effect update st)
    as (st' & E & F & _). exists st'. auto.
Qed.

Lemma no_progress_returns : callback_returns no_progress.
Proof. intros update st. exists st. split; reflexivity. Qed.

Lemma runYtDlp_events_accumulate (onProgress : message -> M unit)
    (evs : list io_event) :
  callback_returns onProgress ->
  forall output error st,
    exists st',
      runYtDlp_events onProgress evs output error st
      = (Ok (output ++ stdout_text evs, error ++ stderr_text evs), st')
      /\ files st' = files st.
Proof.
  intros Hcb. induction evs as [|[data|data|] evs IH];
    intros output error st; cbn [runYtDlp_events stdout_text stderr_text].
  - exists st. rewrite !app_nil_r. split; reflexivity.
  - destruct (stdout_progress data) as [u|].
    + destruct (Hcb u st) as (st1 & E & F1).
      rewrite (bind_Ok _ _ _ _ _ E), !app_assoc, <- F1. apply IH.
    + rewrite (bind_Ok _ _ st st tt eq_refl), !app_assoc. apply IH.
  - destruct (includes (lit "ERROR:") data).
    + destruct (Hcb (Error data) st) as (st1 & E & F1).
      rewrite (bind_Ok _ _ _ _ _ E), !app_assoc, <- F1. apply IH.
    + rewrite (bind_Ok _ _ st st tt eq_refl), !app_assoc. apply IH.
  - rewrite (bind_Ok _ _ st (mkState CLOSED (sent st) (files st)) tt eq_refl).
    apply (IH output error (mkState CLOSED (sent st) (files st))).
Qed.

Lemma runFFmpeg_events_accumulate (onProgress : message -> M unit)
    (evs : list io_event) :
  callback_returns onProgress ->
  forall error st,
    exists st',
      runFFmpeg_events onProgress evs error st
      = (Ok (error ++ stderr_text evs), st')
      /\ files st' = files st.
Proof.
  intros Hcb. induction evs as [|[data|data|] evs IH];
    intros error st; cbn [runFFmpeg_events stderr_text].
  - exists st. rewrite app_nil_r. split; reflexivity.
  - apply IH.
  - destruct (includes (lit "size=") data).
    + destruct (Hcb (Progress (num 90)) st) as (st1 & E & F1).
      rewrite (bind_Ok _ _ _ _ _ E), !app_assoc, <- F1. apply IH.
    + rewrite (bind_Ok _ _ st st tt eq_refl), !app_assoc. apply IH.
  - rewrite (bind_Ok _ _ st (mkState CLOSED (sent st) (files st)) tt eq_refl).
    apply (IH error (mkState CLOSED (sent st) (files st))).
Qed.

(** X1. Whatever callback it is given, as long as the callback returns,
    [runYtDlp] resolves with all stdout chunks concatenated in arrival
    order exactly when the child exits with status 0; otherwise it
    rejects with all stderr chunks concatenated, or with the fixed text
    "Video processing command failed" when stderr stayed empty. Either
    way the files on disk afterwards are those the child left. *)
Theorem runYtDlp_outcome (yt_dlp : tool) (args : list jsstring)
    (onProgress : message -> M unit) (st : state) :
  callback_returns onProgress ->
  let process := yt_dlp args (files st) in
  fst (runYtDlp yt_dlp args onProgress st)
  = (if (exitCode process =? 0)%Z then Ok (stdout_text (events process))
     else Throw (if nonempty (stderr_text (events process))
                 then stderr_text (events process)
                 else lit "Video processing command failed"))
  /\ files (snd (runYtDlp yt_dlp args onProgress st))
     = written (leaves process) (files st).
Proof.
  intros Hcb process. rewrite runYtDlp_spawned. fold process. cbv zeta.
  destruct (runYtDlp_events_accumulate onProgress (events process) Hcb
              [] [] st) as (st1 & E & F).
  rewrite (bind_Ok _ _ _ _ _ E). cbn [app]. mrun. rewrite F.
  unfold or_else. destruct (exitCode process =? 0)%Z; split; reflexivity.
Qed.


Lemma runYtDlp_outcome_witness :
  fst (runYtDlp ex_chatty [lit "--get-title"] sendProgress ex_fresh)
  = Throw (lit "WARNING: slow connectionERROR: unable to download video data").
Proof.
  apply (proj1 (runYtDlp_outcome ex_chatty [lit "--get-title"] sendProgress
                  ex_fresh sendProgress_returns)).
Defined.

Lemma is_open_false (r : ready_state) : r <> OPEN -> is_open r = false.
Proof. destruct r; simpl; congruence. Qed.

Lemma is_open_true (r : ready_state) : is_open r = true -> r = OPEN.
Proof. destruct r; simpl; congruence. Qed.

Lemma runYtDlp_events_deliver (evs : list io_event) :
  forall output error st,
    readyState st = OPEN ->
    sent (snd (runYtDlp_events sendProgress evs output error st))
    = sent st ++ flat_map ytdlp_reports (before_close evs)
    /\ is_open
         (readyState (snd (runYtDlp_events sendProgress evs output error st)))
       = negb (existsb is_close evs).
Proof.
  induction evs as [|[data|data|] evs IH]; intros output error st Hopen;
    cbn [runYtDlp_events before_close is_close flat_map existsb orb negb
         ytdlp_reports].
  - unfold ret. cbn [snd]. rewrite app_nil_r, Hopen. split; reflexivity.
  - unfold stdout_reports. destruct (stdout_progress data) as [u|].
    + rewrite (bind_Ok _ _ _ _ _ (sendProgress_open u st Hopen)).
      destruct (IH (output ++ data) error
                  (mkState OPEN (sent st ++ [u]) (files st)) eq_refl)
        as [S R].
      rewrite S, R. cbn [sent app]. rewrite <- app_assoc. split; reflexivity.
    + rewrite (bind_Ok _ _ st st tt eq_refl). apply IH. exact Hopen.
  - destruct (includes (lit "ERROR:") data).
    + rewrite (bind_Ok _ _ _ _ _ (sendProgress_open (Error data) st Hopen)).
      destruct (IH output (error ++ data)
                  (mkState OPEN (sent st ++ [Error data]) (files st)) eq_refl)
        as [S R].
      rewrite S, R. cbn [sent app]. rewrite <- app_assoc. split; reflexivity.
    + rewrite (bind_Ok _ _ st st tt eq_refl). apply IH. exact Hopen.
  - rewrite (bind_Ok _ _ st (mkState CLOSED (sent st) (files st)) tt eq_refl).
    rewrite app_nil_r.
    destruct (mute_runYtDlp_events evs output error
                (mkState CLOSED (sent st) (files st))) as [S R];
      [discriminate|].
    rewrite S, (is_open_false _ R). split; reflexivity.
Qed.

Lemma runFFmpeg_events_deliver (evs : list io_event) :
  forall error st,
    readyState st = OPEN ->
    sent (snd (runFFmpeg_events sendProgress evs error st))
    = sent st ++ flat_map ffmpeg_reports (before_close evs)
    /\ is_open (readyState (snd (runFFmpeg_events sendProgress evs error st)))
       = negb (existsb is_close evs).
Proof.
  induction evs as [|[data|data|] evs IH]; intros error st Hopen;
    cbn [runFFmpeg_events before_close is_close flat_map existsb orb negb
         ffmpeg_reports app].
  - unfold ret. cbn [snd]. rewrite app_nil_r, Hopen. split; reflexivity.
  - apply IH. exact Hopen.
  - destruct (includes (lit "size=") data).
    + rewrite (bind_Ok _ _ _ _ _
                 (sendProgress_open (Progress (num 90)) st Hopen)).
      destruct (IH (error ++ data)
                  (mkState OPEN (sent st ++ [Progress (num 90)]) (files st))
                  eq_refl) as [S R].
      rewrite S, R. cbn [sent app]. rewrite <- app_assoc. split; reflexivity.
    + rewrite (bind_Ok _ _ st st tt eq_refl). apply IH. exact Hopen.
  - rewrite (bind_Ok _ _ st (mkState CLOSED (sent st) (files st)) tt eq_refl).
    rewrite app_nil_r.
    destruct (mute_runFFmpeg_events evs error
                (mkState CLOSED (sent st) (files st))) as [S R];
      [discriminate|].
    rewrite S, (is_open_false _ R). split; reflexivity.
Qed.

(** What the wrappers do after the last event touches the files only. *)
Lemma runYtDlp_socket (yt_dlp : tool) (args : list jsstring) (st : state) :
  let after_events :=
    snd (runYtDlp_events sendProgress (events (yt_dlp args (files st)))
           [] [] st) in
  sent (snd (runYtDlp yt_dlp args sendProgress st)) = sent after_events
  /\ readyState (snd (runYtDlp yt_dlp args sendProgress st))
     = readyState after_events.
Proof.
  cbv zeta. rewrite runYtDlp_spawned. cbv zeta.
  destruct (runYtDlp_events_accumulate sendProgress
              (events (yt_dlp args (files st))) sendProgress_returns
              [] [] st) as (st1 & E & F).
  rewrite (bind_Ok _ _ _ _ _ E), E. mrun.
  destruct (exitCode _ =? 0)%Z; split; reflexivity.
Qed.

Lemma runFFmpeg_socket (ffmpeg : tool) (args : list jsstring) (st : state) :
  let after_events :=
    snd (runFFmpeg_events sendProgress (events (ffmpeg args (files st)))
           [] st) in
  sent (snd (runFFmpeg ffmpeg args sendProgress st)) = sent after_events
  /\ readyState (snd (runFFmpeg ffmpeg args sendProgress st))
     = readyState after_events.
Proof.
  cbv zeta. rewrite runFFmpeg_spawned. cbv zeta.
  destruct (runFFmpeg_events_accumulate sendProgress
              (events (ffmpeg args (files st))) sendProgress_returns
              [] st) as (st1 & E & F).
  rewrite (bind_Ok _ _ _ _ _ E), E. mrun.
  destruct (exitCode _ =? 0)%Z; split; reflexivity.
Qed.

(** X2. On an open socket [runYtDlp] delivers its reports in the order
    the chunks arrive: for every stdout chunk with a progress match one
    progress event, for every stderr chunk containing "ERROR:" one error
    event with the chunk as text, nothing for any other chunk, and
    nothing at all from the moment the peer's socket closes; the socket
    is open afterwards exactly when it did not close during the run. *)
Theorem runYtDlp_delivers_in_order (yt_dlp : tool) (args : list jsstring)
    (st : state) :
  readyState st = OPEN ->
  let evs := events (yt_dlp args (files st)) in
  let out := snd (runYtDlp yt_dlp args sendProgress st) in
  sent out = sent st ++ flat_map ytdlp_reports (before_close evs)
  /\ is_open (readyState out) = negb (existsb is_close evs).
Proof.
  intros Hopen evs out. subst evs out.
  destruct (runYtDlp_socket yt_dlp args st) as [S R]. cbv zeta in S, R.
  rewrite S, R. apply runYtDlp_events_deliver. exact Hopen.
Qed.

Lemma runYtDlp_delivers_in_order_witness :
  sent (snd (runYtDlp ex_chatty [lit "--get-title"] sendProgress ex_fresh))
  = [ Progress (num 10);
      Progress (num 100);
      Error (lit "ERROR: unable to download video data") ]
  /\ sent (snd (runYtDlp ex_chatty_left [lit "--get-title"] sendProgress
                  ex_fresh))
     = [ Progress (num 10) ].
Proof.
  split.
  - apply (proj1 (runYtDlp_delivers_in_order ex_chatty [lit "--get-title"]
                    ex_fresh eq_refl)).
  - apply (proj1 (runYtDlp_delivers_in_order ex_chatty_left
                    [lit "--get-title"] ex_fresh eq_refl)).
Defined.

(** X3. [runFFmpeg] ignores the child's stdout; on an open socket it
    delivers one progress event of 90 percent for every stderr chunk
    containing "size=", in order, until the peer's socket closes. It
    resolves exactly when the child exits with status 0 and otherwise
    rejects with the stderr text, or with "Video conversion failed" when
    stderr stayed empty; the files afterwards are those the child
    left. *)
Theorem runFFmpeg_outcome (ffmpeg : tool) (args : list jsstring)
    (st : state) :
  let process := ffmpeg args (files st) in
  let out := runFFmpeg ffmpeg args sendProgress st in
  fst out
  = (if (exitCode process =? 0)%Z then Ok tt
     else Throw (if nonempty (stderr_text (events process))
                 then stderr_text (events process)
                 else lit "Video conversion failed"))
  /\ files (snd out) = written (leaves process) (files st)
  /\ (readyState st = OPEN ->
      sent (snd out)
      = sent st ++ flat_map ffmpeg_reports (before_close (events process))
      /\ Forall (fun m => m = Progress (num 90))
           (flat_map ffmpeg_reports (before_close (events process)))).
Proof.
  intros process out. subst out.
  destruct (runFFmpeg_result ffmpeg args st) as [R F]. cbv zeta in R, F.
  fold process in R, F. split; [exact R | split; [exact F|]].
  intros Hopen. destruct (runFFmpeg_socket ffmpeg args st) as [S _].
  cbv zeta in S. rewrite S. fold process. split.
  - apply runFFmpeg_events_deliver. exact Hopen.
  - apply Forall_flat_map. apply Forall_forall. intros [data|data|] _;
      cbn [ffmpeg_reports]; try constructor.
    destruct (includes (lit "size=") data); repeat constructor.
Qed.

Lemma runFFmpeg_outcome_witness :
  sent (snd (runFFmpeg ex_remux [lit "-i"] sendProgress ex_fresh))
  = [Progress (num 90); Progress (num 90)].
Proof.
  apply (proj2 (proj2 (runFFmpeg_outcome ex_remux [lit "-i"] ex_fresh))
           eq_refl).
Defined.

(** ** The metadata route *)

Lemma bind_Throw {A B} (m : M A) (k : A -> M B) (st st' : state)
    (e : jsstring) :
  m st = (Throw e, st') -> bind m k st = (Throw e, st').
Proof. intros H. unfold bind. rewrite H. reflexivity. Qed.

Lemma runYtDlp_events_no_progress (evs : list io_event) :
  forall output error st,
    sent (snd (runYtDlp_events no_progress evs output error st)) = sent st.
Proof.
  induction evs as [|[data|data|] evs IH]; intros output error st;
    cbn [runYtDlp_events].
  - reflexivity.
  - destruct (stdout_progress data);
      rewrite (bind_Ok _ _ st st tt eq_refl); apply IH.
  - destruct (includes (lit "ERROR:") data);
      rewrite (bind_Ok _ _ st st tt eq_refl); apply IH.
  - rewrite (bind_Ok _ _ st (mkState CLOSED (sent st) (files st)) tt eq_refl).
    apply (IH output error (mkState CLOSED (sent st) (files st))).
Qed.

(** The run of the route: result, files and socket in one equation. *)
Lemma runYtDlp_no_progress (yt_dlp : tool) (args : list jsstring)
    (st : state) :
  let process := yt_dlp args (files st) in
  exists st',
    runYtDlp yt_dlp args no_progress st
    = (if (exitCode process =? 0)%Z then Ok (stdout_text (events process))
       else Throw (or_else (stderr_text (events process))
                     (lit "Video processing command failed")), st')
    /\ files st' = written (leaves process) (files st)
    /\ sent st' = sent st.
Proof.
  intros process. rewrite runYtDlp_spawned. fold process. cbv zeta.
  destruct (runYtDlp_events_accumulate no_progress (events process)
              no_progress_returns [] [] st) as (st1 & E & F).
  pose proof (runYtDlp_events_no_progress (events process) [] [] st) as S.
  rewrite E in S. cbn [snd] in S.
  rewrite (bind_Ok _ _ _ _ _ E). cbn [app]. mrun. rewrite F, S.
  destruct (exitCode process =? 0)%Z; eexists; repeat split.
Qed.

(** X4. The metadata route answers 400 "URL is required" exactly when
    the URL is missing or empty; for any other URL it answers with the
    summary of the tool's JSON exactly when the tool exits with status 0
    and its stdout parses, and with status 500 and one fixed message in
    every other case, so the tool's stderr text never reaches the
    answer. The handler itself never throws. *)
Theorem video_info_route_answers (yt_dlp : tool)
    (JSON_parse : jsstring -> option video_info) (url : option jsstring)
    (st : state) :
  let answer := fst (video_info_route yt_dlp JSON_parse url st) in
  match url with
  | None => answer = Ok (InfoError 400 (lit "URL is required"))
  | Some [] => answer = Ok (InfoError 400 (lit "URL is required"))
  | Some u =>
      let process :=
        yt_dlp [lit "--dump-json"; lit "--no-download"; u] (files st) in
      answer
      = Ok (if (exitCode process =? 0)%Z
            then match JSON_parse (stdout_text (events process)) with
                 | Some videoInfo => summarise videoInfo
                 | None => InfoError 500 MSG_INFO_FAILED
                 end
            else InfoError 500 MSG_INFO_FAILED)
  end.
Proof.
  cbv zeta. unfold video_info_route. destruct url as [[|c u]|];
    [reflexivity | | reflexivity].
  cbn [nonempty]. unfold try_catch.
  destruct (runYtDlp_no_progress yt_dlp
              [lit "--dump-json"; lit "--no-download"; c :: u] st)
    as (st' & E & _). cbv zeta in E.
  destruct (exitCode _ =? 0)%Z.
  - rewrite (bind_Ok _ _ _ _ _ E).
    destruct (JSON_parse _); reflexivity.
  - rewrite (bind_Throw _ _ _ _ _ E). reflexivity.
Qed.

(** X5. The metadata route never puts anything on a websocket, and the
    only change it makes to the filesystem is what the extraction tool
    leaves; for a missing or empty URL the tool is not run and nothing
    changes at all. *)
Theorem video_info_route_effects (yt_dlp : tool)
    (JSON_parse : jsstring -> option video_info) (url : option jsstring)
    (st : state) :
  let after := snd (video_info_route yt_dlp JSON_parse url st) in
  sent after = sent st
  /\ match url with
     | None => after = st
     | Some [] => after = st
     | Some u =>
         files after
         = written
             (leaves (yt_dlp [lit "--dump-json"; lit "--no-download"; u]
                        (files st)))
             (files st)
     end.
Proof.
  cbv zeta. unfold video_info_route. destruct url as [[|c u]|];
    [split; reflexivity | | split; reflexivity].
  cbn [nonempty]. unfold try_catch.
  destruct (runYtDlp_no_progress yt_dlp
              [lit "--dump-json"; lit "--no-download"; c :: u] st)
    as (st' & E & F & S). cbv zeta in E.
  destruct (exitCode _ =? 0)%Z.
  - rewrite (bind_Ok _ _ _ _ _ E).
    destruct (JSON_parse _); cbn [snd ret throw]; auto.
  - rewrite (bind_Throw _ _ _ _ _ E). cbn [snd ret]. auto.
Qed.

Lemma video_info_route_answers_witness :
  fst (video_info_route ex_dump_json ex_parse
         (Some (lit "https://example/video")) ex_fresh)
  = Ok (Info (Some (lit "Big Buck Bunny")) (lit "Unknown") (lit "Unknown")
          None
          [ mkSummary (Some (lit "18")) (Some (lit "mp4")) 360 None;
            mkSummary (Some (lit "140")) (Some (lit "m4a")) 0 (Some 1024%N) ])
  /\ fst (video_info_route ex_private_video ex_parse
            (Some (lit "https://example/video")) ex_fresh)
     = Ok (InfoError 500 MSG_INFO_FAILED).
Proof.
  split.
  - apply (video_info_route_answers ex_dump_json ex_parse
             (Some (lit "https://example/video")) ex_fresh).
  - apply (video_info_route_answers ex_private_video ex_parse
             (Some (lit "https://example/video")) ex_fresh).
Defined.

(** ** Sanitised names *)

Lemma dropWhile_split (p : char -> bool) (s : jsstring) :
  exists dropped,
    s = dropped ++ dropWhile p s /\ forallb p dropped = true.
Proof.
  induction s as [|c s (d & E & F)]; simpl.
  - exists []. split; reflexivity.
  - destruct (p c) eqn:Pc.
    + exists (c :: d). simpl. rewrite Pc, F, <- E. split; reflexivity.
    + exists []. split; reflexivity.
Qed.

Lemma dropWhile_head (p : char -> bool) (s : jsstring) (c : char)
    (r : jsstring) :
  dropWhile p s = c :: r -> p c = false.
Proof.
  induction s as [|x s IH]; simpl; [discriminate|].
  destruct (p x) eqn:Px; [exact IH|].
  intros H; inversion H; subst. exact Px.
Qed.

Lemma dropWhile_fixed (p : char -> bool) (s : jsstring) :
  (forall c r, s = c :: r -> p c = false) -> dropWhile p s = s.
Proof.
  destruct s as [|c s]; [reflexivity|]. intros H. simpl.
  rewrite (H c s eq_refl). reflexivity.
Qed.

Lemma trim_split (s : jsstring) :
  exists before after, s = before ++ trim s ++ after.
Proof.
  unfold trim. destruct (dropWhile_split isSpace s) as (d1 & E1 & _).
  destruct (dropWhile_split isSpace (rev (dropWhile isSpace s)))
    as (d2 & E2 & _).
  exists d1, (rev d2). rewrite <- rev_app_distr, <- E2, rev_involutive.
  exact E1.
Qed.

Lemma trim_trimmed (s : jsstring) : trimmed (trim s).
Proof.
  unfold trimmed, trim. split.
  - intros c r H.
    destruct (dropWhile_split isSpace (rev (dropWhile isSpace s)))
      as (d2 & E2 & _).
    apply (f_equal (@rev char)) in E2.
    rewrite rev_involutive, rev_app_distr, H in E2. cbn [app] in E2.
    apply (dropWhile_head isSpace s c (r ++ rev d2)). exact E2.
  - intros c r H. apply (f_equal (@rev char)) in H.
    rewrite rev_involutive, rev_app_distr in H. cbn [rev app] in H.
    apply (dropWhile_head isSpace (rev (dropWhile isSpace s)) c (rev r)).
    exact H.
Qed.

Lemma trim_fixed (s : jsstring) : trimmed s -> trim s = s.
Proof.
  intros [Hh Hl]. unfold trim. rewrite (dropWhile_fixed isSpace s Hh).
  rewrite dropWhile_fixed; [apply rev_involutive|].
  intros c r H. apply (Hl c (rev r)).
  apply (f_equal (@rev char)) in H. rewrite rev_involutive in H.
  exact H.
Qed.

Lemma Forall_trim (P : char -> Prop) (s : jsstring) :
  Forall P s -> Forall P (trim s).
Proof.
  intros H. destruct (trim_split s) as (b & a & E). rewrite E in H.
  apply Forall_app in H as [_ H]. apply Forall_app in H as [H _]. exact H.
Qed.

Lemma removeAll_clean (p : char -> bool) (s : jsstring) :
  Forall (fun c => p c = false) (removeAll p s).
Proof.
  unfold removeAll. apply Forall_forall. intros c Hc.
  apply filter_In in Hc as [_ Hc]. apply negb_true_iff. exact Hc.
Qed.

Lemma removeAll_fixed (p : char -> bool) (s : jsstring) :
  Forall (fun c => p c = false) s -> removeAll p s = s.
Proof.
  unfold removeAll. induction 1 as [|c s Hc _ IH]; simpl; [reflexivity|].
  rewrite Hc, IH. reflexivity.
Qed.

(** X6. The sanitised title is never empty, contains none of the
    characters backslash, slash, colon, star, question mark, double
    quote, angle brackets and bar, and neither begins nor ends with a
    blank; sanitising a sanitised title changes nothing. *)
Theorem sanitizeTitle_safe (videoTitle : jsstring) :
  sanitizeTitle videoTitle <> []
  /\ Forall (fun c => isHostile c = false) (sanitizeTitle videoTitle)
  /\ trimmed (sanitizeTitle videoTitle)
  /\ sanitizeTitle (sanitizeTitle videoTitle) = sanitizeTitle videoTitle.
Proof.
  assert (Safe : forall t,
    sanitizeTitle t <> []
    /\ Forall (fun c => isHostile c = false) (sanitizeTitle t)
    /\ trimmed (sanitizeTitle t)).
  { intros t. unfold sanitizeTitle, or_else.
    pose proof (Forall_trim _ _ (removeAll_clean isHostile t)) as Hc.
    pose proof (trim_trimmed (removeAll isHostile t)) as Ht.
    destruct (trim (removeAll isHostile t)) as [|c r]; cbn [nonempty].
    - split; [discriminate|]. split.
      + repeat constructor.
      + split; intros c r H.
        * inversion H; reflexivity.
        * assert (E : rev (lit "video") = rev (r ++ [c])) by (rewrite H; reflexivity).
          rewrite rev_app_distr in E. inversion E. reflexivity.
    - split; [discriminate | split; assumption]. }
  destruct (Safe videoTitle) as (Hne & Hc & Ht).
  repeat split; try assumption; try apply Ht.
  unfold sanitizeTitle at 1.
  rewrite (removeAll_fixed isHostile _ Hc), (trim_fixed _ Ht).
  unfold or_else. destruct (sanitizeTitle videoTitle); [congruence|].
  reflexivity.
Qed.

Lemma isAlnum_noSlash (s : jsstring) :
  Forall (fun c => isAlnum c = true) s -> noSlash s = true.
Proof.
  unfold noSlash. intros H. apply forallb_forall. intros c Hc.
  rewrite Forall_forall in H. specialize (H c Hc).
  destruct (N.eqb_spec c SLASH) as [->|]; [discriminate H | reflexivity].
Qed.

Lemma sanitizeUrl_alnum (url : jsstring) :
  Forall (fun c => isAlnum c = true) (sanitizeUrl url).
Proof.
  unfold sanitizeUrl, substring0, removeAll. apply Forall_forall.
  intros c Hc.
  assert (Hin : In c (filter (fun c => negb (negb (isAlnum c))) url)).
  { rewrite <- (firstn_skipn 10 (filter _ url)). apply in_or_app.
    left. exact Hc. }
  apply filter_In in Hin as [_ Hin]. apply negb_true_iff in Hin.
  apply negb_false_iff in Hin. exact Hin.
Qed.

(** X7. The URL fingerprint has at most ten code units, all of them
    ASCII letters or digits, so it contains no path separator and no
    dot; it is the first ten letters and digits of the URL, and
    fingerprinting a fingerprint changes nothing. *)
Theorem sanitizeUrl_fingerprint (url : jsstring) :
  List.length (sanitizeUrl url) <= 10
  /\ Forall (fun c => isAlnum c = true) (sanitizeUrl url)
  /\ noSlash (sanitizeUrl url) = true
  /\ includes (lit ".") (sanitizeUrl url) = false
  /\ sanitizeUrl url = firstn 10 (filter isAlnum url)
  /\ sanitizeUrl (sanitizeUrl url) = sanitizeUrl url.
Proof.
  pose proof (sanitizeUrl_alnum url) as Ha.
  assert (Ef : forall u,
    removeAll (fun c => negb (isAlnum c)) u = filter isAlnum u).
  { intros u. unfold removeAll. apply filter_ext. intros c.
    apply negb_involutive. }
  assert (El : List.length (sanitizeUrl url) <= 10)
    by (unfold sanitizeUrl, substring0; apply firstn_le_length).
  repeat split.
  - exact El.
  - exact Ha.
  - apply isAlnum_noSlash. exact Ha.
  - apply includes_false. intros (pre & post & E). rewrite E in Ha.
    apply Forall_app in Ha as [_ Ha]. inversion Ha as [|c r Hc _].
    discriminate Hc.
  - unfold sanitizeUrl, substring0. rewrite Ef. reflexivity.
  - unfold sanitizeUrl at 1, substring0.
    rewrite (removeAll_fixed (fun c => negb (isAlnum c)) (sanitizeUrl url)).
    + apply firstn_all2. exact El.
    + eapply Forall_impl; [|exact Ha]. intros c Hc. cbv beta.
      rewrite Hc. reflexivity.
Qed.

(** ** Paths and directory entries *)

Lemma fs_lookup_cons (p q : path) (b : bytes) (fs : filesystem) :
  fs_lookup p ((q, b) :: fs) = if eqb q p then Some b else fs_lookup p fs.
Proof. reflexivity. Qed.

Lemma fs_entries_cons (dir q : path) (b : bytes) (fs : filesystem) :
  fs_entries dir ((q, b) :: fs)
  = match stripPrefix (dir ++ [SLASH]) q with
    | Some (c :: name) =>
        if includes [SLASH] (c :: name) then fs_entries dir fs
        else (c :: name) :: fs_entries dir fs
    | _ => fs_entries dir fs
    end.
Proof. reflexivity. Qed.

Lemma fs_entries_in (dir : path) (fs : filesystem) (name : jsstring) :
  In name (fs_entries dir fs) -> noSlash name = true /\ name <> [].
Proof.
  induction fs as [|[q b] fs IH]; [intros []|].
  rewrite fs_entries_cons.
  destruct (stripPrefix (dir ++ [SLASH]) q) as [[|c n]|] eqn:E; try exact IH.
  destruct (includes [SLASH] (c :: n)) eqn:I; [exact IH|].
  intros [<- | H]; [|exact (IH H)].
  split; [apply noSlash_includes; exact I | discriminate].
Qed.

Lemma find_some_in {A} (f : A -> bool) (l : list A) (x : A) :
  find f l = Some x -> In x l /\ f x = true.
Proof. apply find_some. Qed.

Lemma existsb_eqb_in (x : jsstring) (l : list jsstring) :
  existsb (eqb x) l = true -> In x l.
Proof.
  intros H. apply existsb_exists in H as (y & Hy & E).
  apply eqb_eq in E. subst. exact Hy.
Qed.

Lemma noSlash_formats (f : jsstring) :
  In f [lit "mp3"; lit "m4a"; lit "mp4"; lit "webm"] -> noSlash f = true.
Proof. intros [<-|[<-|[<-|[<-|[]]]]]; reflexivity. Qed.

(** ** The download step, case by case *)

(** A run of a wrapper as one equation. *)
Lemma runYtDlp_run (yt_dlp : tool) (args : list jsstring) (st : state) :
  let process := yt_dlp args (files st) in
  exists st',
    runYtDlp yt_dlp args sendProgress st
    = (if (exitCode process =? 0)%Z then Ok (stdout_text (events process))
       else Throw (or_else (stderr_text (events process))
                     (lit "Video processing command failed")), st')
    /\ files st' = written (leaves process) (files st).
Proof.
  intros process. destruct (runYtDlp_result yt_dlp args st) as [R F].
  cbv zeta in R, F. fold process in R, F.
  destruct (runYtDlp yt_dlp args sendProgress st) as [r st'].
  cbn [fst snd] in R, F. subst r. exists st'. split; [reflexivity | exact F].
Qed.

Lemma runFFmpeg_run (ffmpeg : tool) (args : list jsstring) (st : state) :
  let process := ffmpeg args (files st) in
  exists st',
    runFFmpeg ffmpeg args sendProgress st
    = (if (exitCode process =? 0)%Z then Ok tt
       else Throw (or_else (stderr_text (events process))
                     (lit "Video conversion failed")), st')
    /\ files st' = written (leaves process) (files st).
Proof.
  intros process. destruct (runFFmpeg_result ffmpeg args st) as [R F].
  cbv zeta in R, F. fold process in R, F.
  destruct (runFFmpeg ffmpeg args sendProgress st) as [r st'].
  cbn [fst snd] in R, F. subst r. exists st'. split; [reflexivity | exact F].
Qed.

Lemma fs_unlink_run (p : path) (st : state) :
  fs_unlink p st
  = match fs_lookup p (files st) with
    | Some _ =>
        (Ok tt, mkState (readyState st) (sent st) (fs_remove p (files st)))
    | None => (Throw (ENOENT "unlink" p), st)
    end.
Proof.
  unfold fs_unlink. mrun. destruct (fs_lookup p (files st)); reflexivity.
Qed.

Lemma video_download_Ok (DOWNLOADS_DIR : path) (yt_dlp ffmpeg : tool)
    (p : payload) (fileId sanitizedUrl : jsstring) (st : state)
    (finalPath : path) :
  let out := video_download DOWNLOADS_DIR yt_dlp ffmpeg p fileId sanitizedUrl st in
  fst out = Ok finalPath ->
  let prefix := workingName fileId sanitizedUrl in
  let run := yt_dlp (video_args DOWNLOADS_DIR p fileId sanitizedUrl) (files st) in
  let fs1 := written (leaves run) (files st) in
  exitCode run = 0%Z
  /\ exists downloadedFile,
       find (startsWith prefix) (fs_entries DOWNLOADS_DIR fs1)
       = Some downloadedFile
       /\ if endsWith (lit "." ++ format p) downloadedFile
          then finalPath = path_join DOWNLOADS_DIR downloadedFile
               /\ files (snd out) = fs1
          else
            let convertedPath :=
              path_join DOWNLOADS_DIR (prefix ++ lit "_converted." ++ format p) in
            let run2 :=
              ffmpeg [lit "-i"; path_join DOWNLOADS_DIR downloadedFile;
                      lit "-c"; lit "copy"; convertedPath] fs1 in
            let fs2 := written (leaves run2) fs1 in
            finalPath = convertedPath
            /\ exitCode run2 = 0%Z
            /\ fs_lookup (path_join DOWNLOADS_DIR downloadedFile) fs2 <> None
            /\ files (snd out)
               = fs_remove (path_join DOWNLOADS_DIR downloadedFile) fs2.
Proof.
  cbv zeta. unfold video_download. step_send.
  destruct (runYtDlp_run yt_dlp
              (video_args DOWNLOADS_DIR p fileId sanitizedUrl) st0)
    as (st1 & E1 & F1). cbv zeta in E1, F1. rewrite F in E1, F1.
  destruct (Z.eqb_spec
              (exitCode (yt_dlp (video_args DOWNLOADS_DIR p fileId sanitizedUrl)
                           (files st))) 0) as [Hexit|_];
    [|rewrite (bind_Throw _ _ _ _ _ E1); discriminate].
  rewrite (bind_Ok _ _ _ _ _ E1).
  pose proof (locate_download_run DOWNLOADS_DIR fileId sanitizedUrl st1) as L.
  rewrite F1 in L.
  destruct (find _ (fs_entries DOWNLOADS_DIR _)) as [downloadedFile|] eqn:Ef;
    [|rewrite (bind_Throw _ _ _ _ _ L); discriminate].
  rewrite (bind_Ok _ _ _ _ _ L).
  intros Hok. split; [exact Hexit|]. exists downloadedFile.
  split; [reflexivity|].
  destruct (endsWith (lit "." ++ format p) downloadedFile); cbn [negb] in *.
  - inversion Hok. split; [reflexivity | exact F1].
  - revert Hok. step_send.
    match goal with |- context [bind (runFFmpeg ffmpeg ?a sendProgress) _ st2] =>
      destruct (runFFmpeg_run ffmpeg a st2) as (st3 & E3 & F3) end.
    cbv zeta in E3, F3. rewrite F0, F1 in E3, F3.
    match type of E3 with context [(exitCode ?r =? 0)%Z] =>
      destruct (Z.eqb_spec (exitCode r) 0) as [Hexit2|_] end;
      [|rewrite (bind_Throw _ _ _ _ _ E3); discriminate].
    rewrite (bind_Ok _ _ _ _ _ E3).
    pose proof (fs_unlink_run (path_join DOWNLOADS_DIR downloadedFile) st3)
      as U. rewrite F3 in U.
    destruct (fs_lookup (path_join DOWNLOADS_DIR downloadedFile) _) eqn:El;
      [|rewrite (bind_Throw _ _ _ _ _ U); discriminate].
    rewrite (bind_Ok _ _ _ _ _ U). unfold ret. cbn [fst snd files].
    intros Hok. inversion Hok. repeat split; try assumption.
    discriminate.
Qed.

Lemma audio_download_run (DOWNLOADS_DIR : path) (yt_dlp : tool)
    (p : payload) (fileId sanitizedUrl : jsstring) (st : state) :
  let run := yt_dlp (audio_args DOWNLOADS_DIR p fileId sanitizedUrl) (files st) in
  exists st',
    audio_download DOWNLOADS_DIR yt_dlp p fileId sanitizedUrl st
    = (if (exitCode run =? 0)%Z
       then Ok (path_join DOWNLOADS_DIR
                  (workingName fileId sanitizedUrl ++ lit "." ++ format p))
       else Throw (or_else (stderr_text (events run))
                     (lit "Video processing command failed")), st')
    /\ files st' = written (leaves run) (files st).
Proof.
  cbv zeta. unfold audio_download. step_send.
  destruct (runYtDlp_run yt_dlp
              (audio_args DOWNLOADS_DIR p fileId sanitizedUrl) st0)
    as (st1 & E1 & F1). cbv zeta in E1, F1. rewrite F in E1, F1.
  exists st1. split; [|exact F1].
  destruct (exitCode _ =? 0)%Z.
  - rewrite (bind_Ok _ _ _ _ _ E1). reflexivity.
  - rewrite (bind_Throw _ _ _ _ _ E1). reflexivity.
Qed.

Lemma workingName_noSlash (fileId sanitizedUrl : jsstring) :
  noSlash fileId = true -> noSlash sanitizedUrl = true ->
  noSlash (workingName fileId sanitizedUrl) = true.
Proof.
  intros H1 H2. unfold workingName. rewrite !noSlash_app, H1, H2.
  reflexivity.
Qed.

(** The final path of a download step names an entry directly inside
    the staging directory that starts with the working name. *)
Lemma download_step_inside (DOWNLOADS_DIR : path) (yt_dlp ffmpeg : tool)
    (p : payload) (fileId sanitizedUrl : jsstring) (st : state)
    (finalPath : path) :
  noSlash fileId = true -> noSlash sanitizedUrl = true ->
  fst (download_step DOWNLOADS_DIR yt_dlp ffmpeg p fileId sanitizedUrl st)
  = Ok finalPath ->
  exists name,
    finalPath = path_join DOWNLOADS_DIR name
    /\ noSlash name = true
    /\ startsWith (workingName fileId sanitizedUrl) name = true.
Proof.
  intros Hid Hsu. pose proof (workingName_noSlash _ _ Hid Hsu) as Hw.
  unfold download_step.
  destruct (existsb (eqb (format p)) [lit "mp3"; lit "m4a"]) eqn:Da.
  - apply existsb_eqb_in in Da.
    destruct (audio_download_run DOWNLOADS_DIR yt_dlp p fileId sanitizedUrl st)
      as (st' & E & _). cbv zeta in E. rewrite E. cbn [fst].
    destruct (exitCode _ =? 0)%Z; [|discriminate].
    intros H; inversion H.
    exists (workingName fileId sanitizedUrl ++ lit "." ++ format p).
    split; [reflexivity|]. split; [|apply startsWith_app].
    rewrite !noSlash_app, Hw. cbn [andb].
    apply andb_true_iff. split; [reflexivity|].
    apply noSlash_formats. simpl in *. tauto.
  - destruct (existsb (eqb (format p)) [lit "mp4"; lit "webm"]) eqn:Dv;
      [|discriminate].
    apply existsb_eqb_in in Dv. intros Hok.
    destruct (video_download_Ok _ _ _ _ _ _ _ _ Hok)
      as (_ & f & Ef & Hcase). cbv zeta in Hcase.
    apply find_some_in in Ef as [Hin Hpre].
    destruct (endsWith (lit "." ++ format p) f).
    + destruct Hcase as [-> _]. exists f. split; [reflexivity|].
      split; [|exact Hpre].
      apply (fs_entries_in _ _ _ Hin).
    + destruct Hcase as (-> & _).
      exists (workingName fileId sanitizedUrl ++ lit "_converted." ++ format p).
      split; [reflexivity|]. split; [|apply startsWith_app].
      rewrite !noSlash_app, Hw. cbn [andb].
      apply andb_true_iff. split; [reflexivity|].
      apply noSlash_formats. simpl in *. tauto.
Qed.

(** X8. When the job identifier contains no path separator, the final
    path of every download step that succeeds is the staging directory
    joined with a single name that contains no separator and starts with
    the job's working name; so the path segment announced to the peer,
    the base name of the final path, is that name. *)
Theorem final_path_inside_staging (DOWNLOADS_DIR : path)
    (yt_dlp ffmpeg : tool) (p : payload) (uuidv4 : jsstring) (st : state)
    (finalPath : path) :
  noSlash uuidv4 = true ->
  fst (download_step DOWNLOADS_DIR yt_dlp ffmpeg p uuidv4
         (sanitizeUrl (url p)) st)
  = Ok finalPath ->
  exists name,
    finalPath = path_join DOWNLOADS_DIR name
    /\ noSlash name = true
    /\ startsWith (workingName uuidv4 (sanitizeUrl (url p))) name = true
    /\ path_basename finalPath = name.
Proof.
  intros Hid Hok.
  destruct (download_step_inside _ _ _ _ _ _ _ _ Hid
              (isAlnum_noSlash _ (sanitizeUrl_alnum (url p))) Hok)
    as (name & -> & Hn & Hp).
  exists name. repeat split; try assumption.
  apply path_basename_join. exact (plain_name_working _ _ _ Hn Hp).
Qed.

Lemma final_path_inside_staging_witness :
  exists name,
    path_join ex_DIR (ex_prefix ++ lit ".mp3") = path_join ex_DIR name
    /\ noSlash name = true
    /\ startsWith ex_prefix name = true
    /\ path_basename (path_join ex_DIR (ex_prefix ++ lit ".mp3")) = name.
Proof.
  apply (final_path_inside_staging ex_DIR ex_leaves_m4a ex_idle ex_request
           ex_fileId ex_fresh).
  - vm_compute. reflexivity.
  - vm_compute. reflexivity.
Defined.

Lemma fs_lookup_remove_other (p q : path) (fs : filesystem) :
  p <> q -> fs_lookup q (fs_remove p fs) = fs_lookup q fs.
Proof.
  intros Hpq. unfold fs_lookup, fs_remove.
  induction fs as [|[r b] fs IH]; simpl; [reflexivity|].
  destruct (eqb r p) eqn:E; simpl.
  - apply eqb_eq in E. subst r.
    destruct (eqb p q) eqn:E'; [apply eqb_eq in E'; congruence | exact IH].
  - rewrite IH. reflexivity.
Qed.

(** X9. For a video target whose download step succeeds: when the
    located file already ends in the requested extension the transcoder
    is not run and the staging directory is what the extraction tool
    left; otherwise the transcoder ran once with status 0, the final
    path is the converted file, the file it was converted from is gone
    from staging, and every other file is as the transcoder left it. *)
Theorem conversion_replaces_download (DOWNLOADS_DIR : path)
    (yt_dlp ffmpeg : tool) (p : payload) (fileId sanitizedUrl : jsstring)
    (st : state) (finalPath : path) :
  In (format p) [lit "mp4"; lit "webm"] ->
  let out :=
    download_step DOWNLOADS_DIR yt_dlp ffmpeg p fileId sanitizedUrl st in
  fst out = Ok finalPath ->
  let prefix := workingName fileId sanitizedUrl in
  let fs1 :=
    written
      (leaves (yt_dlp (video_args DOWNLOADS_DIR p fileId sanitizedUrl)
                 (files st)))
      (files st) in
  exists downloadedFile,
    In downloadedFile (fs_entries DOWNLOADS_DIR fs1)
    /\ if endsWith (lit "." ++ format p) downloadedFile
       then finalPath = path_join DOWNLOADS_DIR downloadedFile
            /\ files (snd out) = fs1
       else
         let located := path_join DOWNLOADS_DIR downloadedFile in
         let convertedPath :=
           path_join DOWNLOADS_DIR (prefix ++ lit "_converted." ++ format p) in
         let run2 :=
           ffmpeg [lit "-i"; located; lit "-c"; lit "copy"; convertedPath]
             fs1 in
         finalPath = convertedPath
         /\ exitCode run2 = 0%Z
         /\ fs_lookup located (files (snd out)) = None
         /\ forall q, q <> located ->
              fs_lookup q (files (snd out))
              = fs_lookup q (written (leaves run2) fs1).
Proof.
  intros Hf out. subst out. unfold download_step.
  destruct (video_dispatch _ Hf) as [-> ->]. intros Hok. cbv zeta.
  destruct (video_download_Ok _ _ _ _ _ _ _ _ Hok)
    as (_ & f & Ef & Hcase). cbv zeta in Hcase.
  exists f. split; [apply (find_some_in _ _ _ Ef)|].
  destruct (endsWith (lit "." ++ format p) f); [exact Hcase|].
  destruct Hcase as (-> & Hexit & _ & ->).
  repeat split; try assumption.
  - apply fs_lookup_remove_same.
  - intros q Hq. apply fs_lookup_remove_other. congruence.
Qed.


Lemma conversion_replaces_download_witness :
  fs_lookup (path_join ex_DIR (ex_prefix ++ lit ".webm"))
    (files (snd (download_step ex_DIR ex_leaves_webm ex_remux_ok
                   ex_request_mp4 ex_fileId
                   (sanitizeUrl (url ex_request_mp4)) ex_fresh)))
  = None.
Proof.
  destruct (conversion_replaces_download ex_DIR ex_leaves_webm ex_remux_ok
              ex_request_mp4 ex_fileId (sanitizeUrl (url ex_request_mp4))
              ex_fresh
              (path_join ex_DIR (ex_prefix ++ lit "_converted.mp4")))
    as (f & Hin & Hcase).
  - simpl. auto.
  - vm_compute. reflexivity.
  - vm_compute in Hin. destruct Hin as [<- | []].
    vm_compute in Hcase. vm_compute. apply Hcase.
Defined.

(** X10. The transcoder is used for the video containers only: for a
    request whose format is neither mp4 nor webm, the whole handling of
    the request is the same whatever the transcoder would do. *)
Theorem transcoder_only_for_video (DOWNLOADS_DIR : path)
    (yt_dlp ffmpeg ffmpeg' : tool) (uuidv4 : jsstring) (p : payload)
    (st : state) :
  ~ In (format p) [lit "mp4"; lit "webm"] ->
  on_message DOWNLOADS_DIR yt_dlp ffmpeg uuidv4
    (Envelope (lit "download-request") (Some p)) st
  = on_message DOWNLOADS_DIR yt_dlp ffmpeg' uuidv4
      (Envelope (lit "download-request") (Some p)) st.
Proof.
  intros Hf.
  assert (Hv : existsb (eqb (format p)) [lit "mp4"; lit "webm"] = false).
  { destruct (existsb _ _) eqn:E; [|reflexivity].
    apply existsb_eqb_in in E. contradiction. }
  unfold on_message, on_download_request, download_job, download_step.
  rewrite Hv. reflexivity.
Qed.

Lemma transcoder_only_for_video_witness :
  on_message ex_DIR ex_empty_download ex_idle ex_fileId ex_download_request
    ex_fresh
  = on_message ex_DIR ex_empty_download ex_remux_ok ex_fileId
      ex_download_request ex_fresh.
Proof.
  apply (transcoder_only_for_video ex_DIR ex_empty_download ex_idle
           ex_remux_ok ex_fileId ex_request ex_fresh).
  intros [H | [H | []]]; vm_compute in H; discriminate.
Defined.

(** ** Retrieval, once *)

(** X11. Retrieval is one-time: after a transfer of a staged file has
    completed, every further request for the same name is answered 404
    and changes nothing. A transfer that failed leaves everything as it
    was, so the request can be repeated and then behaves as the first
    time. *)
Theorem retrieval_is_one_time (DOWNLOADS_DIR : path) (filename : jsstring)
    (st : state) (body : bytes) (t : transfer) (headersSent : bool) :
  fs_lookup (path_join DOWNLOADS_DIR filename) (files st) = Some body ->
  let served := snd (download_route DOWNLOADS_DIR filename Completed st) in
  let broken :=
    snd (download_route DOWNLOADS_DIR filename (Failed headersSent) st) in
  download_route DOWNLOADS_DIR filename t served
  = (Ok (Json 404 (lit "File not found or has expired.")), served)
  /\ download_route DOWNLOADS_DIR filename t broken
     = download_route DOWNLOADS_DIR filename t st.
Proof.
  intros H served broken. subst served broken.
  rewrite (download_route_completed _ _ _ _ H),
    (download_route_failed _ _ _ _ _ H). cbn [snd]. split; [|reflexivity].
  apply download_route_missing. cbn [files]. apply fs_lookup_remove_same.
Qed.

Lemma retrieval_is_one_time_witness :
  download_route ex_DIR ex_staged_name Completed
    (snd (download_route ex_DIR ex_staged_name Completed ex_staged))
  = (Ok (Json 404 (lit "File not found or has expired.")),
     snd (download_route ex_DIR ex_staged_name Completed ex_staged)).
Proof.
  apply (proj1 (retrieval_is_one_time ex_DIR ex_staged_name ex_staged ex_body
                  Completed true ltac:(vm_compute; reflexivity))).
Defined.

(** X12. The retrieval route is local: whatever the requested name
    and whatever becomes of the transfer, the route puts nothing on a
    websocket and changes no file other than the one at the path the
    name resolves to, and that path need not lie in the staging
    directory. *)
Theorem retrieval_is_local (DOWNLOADS_DIR : path) (filename : jsstring)
    (t : transfer) (st : state) :
  let after := snd (download_route DOWNLOADS_DIR filename t st) in
  sent after = sent st
  /\ readyState after = readyState st
  /\ forall q, q <> path_join DOWNLOADS_DIR filename ->
       fs_lookup q (files after) = fs_lookup q (files st).
Proof.
  cbv zeta.
  assert (Gone : forall q, q <> path_join DOWNLOADS_DIR filename ->
            fs_lookup q (fs_remove (path_join DOWNLOADS_DIR filename)
                           (files st))
            = fs_lookup q (files st)).
  { intros q Hq. apply fs_lookup_remove_other. congruence. }
  destruct (fs_lookup (path_join DOWNLOADS_DIR filename) (files st))
    as [body|] eqn:H.
  - rewrite (download_route_present _ _ t _ _ H). cbv zeta.
    destruct t as [| | |first last|headersSent];
      try destruct (satisfiable first last body);
      cbn [snd sent files readyState]; repeat split; assumption.
  - rewrite (download_route_missing _ _ _ _ H). repeat split.
Qed.

(** ** From the job to the retrieval *)

Lemma bind_Ok_inv {A B} (m : M A) (k : A -> M B) (st st' : state) (b : B) :
  bind m k st = (Ok b, st') ->
  exists a st1, m st = (Ok a, st1) /\ k a st1 = (Ok b, st').
Proof.
  unfold bind. destruct (m st) as [[a|e] st1]; [|discriminate].
  intros H. exists a, st1. split; [reflexivity | exact H].
Qed.

Lemma finalize_Ok (finalPath : path) (st st' : state) (size : N) :
  finalize finalPath st = (Ok size, st') ->
  st' = st
  /\ exists body,
       fs_lookup finalPath (files st) = Some body
       /\ size = N.of_nat (List.length body) /\ body <> [].
Proof.
  intros H. pose proof (finalize_state finalPath st) as S.
  rewrite H in S. cbn [snd] in S. split; [exact S|].
  revert H. unfold finalize. mrun.
  destruct (fs_lookup finalPath (files st)) as [body|]; [|discriminate].
  destruct (N.eqb_spec (N.of_nat (List.length body)) 0) as [E|E];
    [discriminate|].
  intros H. inversion H. exists body. repeat split.
  intros ->. apply E. reflexivity.
Qed.


(** X13. Hand-over from the job to the retrieval route. Whenever the
    body of a job completes, and the job identifier contains no path
    separator, there is a name without separator such that: the
    download-ready message handed to the peer (delivered last if the
    socket is still open) announces the path "/download/" followed by
    that name and the exact size of the staged file; the file of that
    name is in the staging directory and is not empty; and a retrieval
    request for that name whose transfer completes returns exactly that
    file's bytes under that name and removes the file. *)
Theorem announced_download_is_retrievable (DOWNLOADS_DIR : path)
    (yt_dlp ffmpeg : tool) (uuidv4 : jsstring) (p : payload)
    (st st' : state) :
  noSlash uuidv4 = true ->
  download_job DOWNLOADS_DIR yt_dlp ffmpeg uuidv4 p st = (Ok tt, st') ->
  exists filename name body,
    noSlash name = true
    /\ body <> []
    /\ fs_lookup (path_join DOWNLOADS_DIR name) (files st') = Some body
    /\ (readyState st' = OPEN ->
        exists before,
          sent st'
          = before
            ++ [DownloadReady filename (N.of_nat (List.length body))
                  (lit "/download/" ++ name)])
    /\ download_route DOWNLOADS_DIR name Completed st'
       = (Ok (Attachment name body),
          mkState (readyState st') (sent st')
            (fs_remove (path_join DOWNLOADS_DIR name) (files st'))).
Proof.
  intros Hid. unfold download_job, ensureDownloadsDir.
  rewrite (bind_Ok _ _ st st tt eq_refl). intros H.
  apply bind_Ok_inv in H as (output & st1 & _ & H).
  cbv zeta in H.
  destruct (sendProgress_effect
              (Status (lit "Processing: " ++ trim output) (num 10)) st1)
    as (st2 & E2 & _).
  rewrite (bind_Ok _ _ _ _ _ E2) in H.
  apply bind_Ok_inv in H as (finalPath & st3 & Hstep & H).
  apply bind_Ok_inv in H as (size & st4 & Hfin & H).
  apply finalize_Ok in Hfin as (-> & body & Hl & -> & Hb).
  assert (Hfst : fst (download_step DOWNLOADS_DIR yt_dlp ffmpeg p uuidv4
                        (sanitizeUrl (url p)) st2) = Ok finalPath)
    by (rewrite Hstep; reflexivity).
  destruct (download_step_inside _ _ _ _ _ _ _ _ Hid
              (isAlnum_noSlash _ (sanitizeUrl_alnum (url p))) Hfst)
    as (name & -> & Hn & Hw).
  rewrite (path_basename_join _ _ (plain_name_working _ _ _ Hn Hw)) in H.
  pose proof (sendProgress_sent
                (DownloadReady (sanitizeTitle (trim output) ++ lit "." ++ format p)
                   (N.of_nat (List.length body)) (lit "/download/" ++ name))
                st3) as S.
  destruct (sendProgress_effect
              (DownloadReady (sanitizeTitle (trim output) ++ lit "." ++ format p)
                 (N.of_nat (List.length body)) (lit "/download/" ++ name))
              st3) as (st5 & E5 & F5 & R5).
  rewrite E5 in H, S. inversion H; subst st5. cbn [snd] in S.
  exists (sanitizeTitle (trim output) ++ lit "." ++ format p), name, body.
  rewrite <- F5 in Hl.
  repeat split; try assumption.
  - intros Hopen. rewrite <- R5, Hopen in S. cbn [is_open] in S.
    exists (sent st3). exact S.
  - rewrite (download_route_completed _ _ _ _ Hl),
      (path_basename_noSlash _ Hn). reflexivity.
Qed.

Lemma announced_download_is_retrievable_witness :
  exists filename name body,
    noSlash name = true
    /\ body <> []
    /\ fs_lookup (path_join ex_DIR name)
         (files (snd (download_job ex_DIR ex_audio_ok ex_idle ex_fileId
                        ex_request ex_fresh)))
       = Some body
    /\ (readyState (snd (download_job ex_DIR ex_audio_ok ex_idle ex_fileId
                           ex_request ex_fresh)) = OPEN ->
        exists before,
          sent (snd (download_job ex_DIR ex_audio_ok ex_idle ex_fileId
                       ex_request ex_fresh))
          = before
            ++ [DownloadReady filename (N.of_nat (List.length body))
                  (lit "/download/" ++ name)]).
Proof.
  destruct (announced_download_is_retrievable ex_DIR ex_audio_ok ex_idle
              ex_fileId ex_request ex_fresh
              (snd (download_job ex_DIR ex_audio_ok ex_idle ex_fileId
                      ex_request ex_fresh)))
    as (filename & name & body & H1 & H2 & H3 & H4 & _).
  - vm_compute. reflexivity.
  - vm_compute. reflexivity.
  - exists filename, name, body. repeat split; assumption.
Defined.

(** ** What the peer sees of a job *)

Lemma sendProgress_run (update : message) (st : state) :
  sendProgress update st
  = (Ok tt,
     mkState (readyState st)
       (sent st ++ (if is_open (readyState st) then [update] else []))
       (files st)).
Proof.
  destruct st as [rs delivered fs]. unfold sendProgress. mrun.
  destruct rs; cbn; rewrite ?app_nil_r; reflexivity.
Qed.

(** A run of [runYtDlp] that starts on an open socket, in one equation
    and three projections. *)
Lemma runYtDlp_open (yt_dlp : tool) (args : list jsstring) (st : state) :
  readyState st = OPEN ->
  let process := yt_dlp args (files st) in
  exists st',
    runYtDlp yt_dlp args sendProgress st
    = (if (exitCode process =? 0)%Z then Ok (stdout_text (events process))
       else Throw (or_else (stderr_text (events process))
                     (lit "Video processing command failed")), st')
    /\ files st' = written (leaves process) (files st)
    /\ sent st'
       = sent st ++ flat_map ytdlp_reports (before_close (events process))
    /\ is_open (readyState st') = negb (existsb is_close (events process)).
Proof.
  intros Hopen process.
  destruct (runYtDlp_run yt_dlp args st) as (st' & E & F). cbv zeta in E, F.
  destruct (runYtDlp_socket yt_dlp args st) as [S R]. cbv zeta in S, R.
  rewrite E in S, R. cbn [snd] in S, R.
  destruct (runYtDlp_events_deliver (events (yt_dlp args (files st))) [] []
              st Hopen) as [S' R'].
  exists st'. rewrite S, R. auto.
Qed.

(** X14. A job whose title run exits with a non-zero status, on a
    socket that is open when the request arrives: the peer gets the
    first status, then the reports of the title run in order, then, if
    the socket did not close during the run, one terminal error whose
    message is the classification of the whole stderr text of the run
    (of the fixed text "Video processing command failed", hence the
    generic message, when stderr stayed empty). No other tool run takes
    place: the staging directory is what the title run left. *)
Theorem title_failure_trace (DOWNLOADS_DIR : path) (yt_dlp ffmpeg : tool)
    (uuidv4 : jsstring) (p : payload) (st : state) :
  readyState st = OPEN ->
  let run := yt_dlp [lit "--get-title"; url p] (files st) in
  exitCode run <> 0%Z ->
  let out :=
    snd (on_download_request DOWNLOADS_DIR yt_dlp ffmpeg uuidv4 p st) in
  sent out
  = sent st
    ++ Status (lit "Fetching video information...") (num 5)
       :: flat_map ytdlp_reports (before_close (events run))
    ++ (if existsb is_close (events run) then []
        else [Error (errorMessage
                       (or_else (stderr_text (events run))
                          (lit "Video processing command failed")))])
  /\ files out = written (leaves run) (files st)
  /\ (stderr_text (events run) = [] ->
      errorMessage (or_else (stderr_text (events run))
                      (lit "Video processing command failed"))
      = MSG_GENERIC).
Proof.
  intros Hopen run Hexit out. subst out run.
  unfold on_download_request.
  rewrite (bind_Ok _ _ _ _ _
             (sendProgress_open
                (Status (lit "Fetching video information...") (num 5))
                st Hopen)).
  unfold try_catch, download_job, ensureDownloadsDir.
  rewrite (bind_Ok _ _ _ _ tt eq_refl).
  destruct (runYtDlp_open yt_dlp [lit "--get-title"; url p]
              (mkState OPEN
                 (sent st ++ [Status (lit "Fetching video information...") (num 5)])
                 (files st)) eq_refl)
    as (st1 & E & F & S & R). cbv zeta in E, F, S, R. cbn [files sent] in *.
  destruct (Z.eqb_spec (exitCode (yt_dlp [lit "--get-title"; url p] (files st))) 0)
    as [E0|_]; [contradiction|].
  rewrite (bind_Throw _ _ _ _ _ E), sendProgress_run.
  cbn [snd sent files]. rewrite R, S, <- !app_assoc. cbn [app].
  split; [|split; [exact F|]].
  - destruct (existsb is_close _); cbn [negb]; reflexivity.
  - intros ->. reflexivity.
Qed.

Lemma title_failure_trace_witness :
  sent (snd (on_download_request ex_DIR ex_chatty ex_idle ex_fileId
               ex_request ex_fresh))
  = [ Status (lit "Fetching video information...") (num 5);
      Progress (num 10);
      Progress (num 100);
      Error (lit "ERROR: unable to download video data");
      Error MSG_GENERIC ].
Proof.
  apply (proj1 (title_failure_trace ex_DIR ex_chatty ex_idle ex_fileId
                  ex_request ex_fresh eq_refl
                  ltac:(vm_compute; discriminate))).
Defined.

Lemma is_open_negb_false (r : ready_state) (b : bool) :
  b = false -> is_open r = negb b -> r = OPEN.
Proof. intros -> H. apply is_open_true. exact H. Qed.

Lemma not_in_existsb (x : jsstring) (l : list jsstring) :
  ~ In x l -> existsb (eqb x) l = false.
Proof.
  intros H. destruct (existsb (eqb x) l) eqn:E; [|reflexivity].
  apply existsb_eqb_in in E. contradiction.
Qed.

Lemma before_close_quiet (evs : list io_event) :
  existsb is_close evs = false -> before_close evs = evs.
Proof.
  induction evs as [|e evs IH]; [reflexivity|]. cbn [existsb before_close].
  destruct (is_close e); [discriminate|]. cbn [orb]. intros H.
  rewrite (IH H). reflexivity.
Qed.

(** X15. A request for a format that is none of mp3, m4a, mp4 and webm
    is found out only after the title run: with that run succeeding on
    an open socket, the peer gets the first status, the reports of the
    title run, the "Processing" status with the trimmed title, and then
    the terminal error classified from the text "Unsupported format: "
    followed by the requested format. No download is started: the
    staging directory is what the title run left. *)
Theorem unsupported_format_trace (DOWNLOADS_DIR : path)
    (yt_dlp ffmpeg : tool) (uuidv4 : jsstring) (p : payload) (st : state) :
  readyState st = OPEN ->
  let run := yt_dlp [lit "--get-title"; url p] (files st) in
  exitCode run = 0%Z ->
  existsb is_close (events run) = false ->
  ~ In (format p) [lit "mp3"; lit "m4a"; lit "mp4"; lit "webm"] ->
  let out :=
    snd (on_download_request DOWNLOADS_DIR yt_dlp ffmpeg uuidv4 p st) in
  sent out
  = sent st
    ++ Status (lit "Fetching video information...") (num 5)
       :: flat_map ytdlp_reports (events run)
    ++ [ Status (lit "Processing: " ++ trim (stdout_text (events run)))
           (num 10);
         Error (errorMessage (lit "Unsupported format: " ++ format p)) ]
  /\ files out = written (leaves run) (files st).
Proof.
  intros Hopen run Hexit Hquiet Hf out. subst out run.
  assert (Ha : existsb (eqb (format p)) [lit "mp3"; lit "m4a"] = false)
    by (apply not_in_existsb; simpl in *; tauto).
  assert (Hv : existsb (eqb (format p)) [lit "mp4"; lit "webm"] = false)
    by (apply not_in_existsb; simpl in *; tauto).
  pose proof before_close_quiet as Hb.
  unfold on_download_request.
  rewrite (bind_Ok _ _ _ _ _
             (sendProgress_open
                (Status (lit "Fetching video information...") (num 5))
                st Hopen)).
  unfold try_catch, download_job, ensureDownloadsDir.
  rewrite (bind_Ok _ _ _ _ tt eq_refl).
  destruct (runYtDlp_open yt_dlp [lit "--get-title"; url p]
              (mkState OPEN
                 (sent st ++ [Status (lit "Fetching video information...") (num 5)])
                 (files st)) eq_refl)
    as (st1 & E & F & S & R). cbv zeta in E, F, S, R. cbn [files sent] in *.
  rewrite Hexit in E. cbn [Z.eqb] in E.
  apply (is_open_negb_false _ _ Hquiet) in R.
  rewrite (bind_Ok _ _ _ _ _ E). cbv zeta.
  rewrite (bind_Ok _ _ _ _ _ (sendProgress_open _ st1 R)).
  unfold download_step. rewrite Ha, Hv.
  match goal with |- context [bind (throw ?e) ?k ?s] =>
    rewrite (bind_Throw (throw e) k s s e eq_refl) end.
  rewrite sendProgress_run.
  cbn [snd sent files readyState is_open].
  rewrite S, (Hb _ Hquiet), <- !app_assoc. cbn [app].
  split; [reflexivity | exact F].
Qed.

Lemma finalize_run (finalPath : path) (st : state) (body : bytes) :
  fs_lookup finalPath (files st) = Some body -> body <> [] ->
  finalize finalPath st = (Ok (N.of_nat (List.length body)), st).
Proof.
  intros H Hb. unfold finalize. mrun. rewrite H.
  destruct (N.eqb_spec (N.of_nat (List.length body)) 0) as [E|_];
    [|reflexivity].
  destruct body; [congruence | discriminate E].
Qed.


Lemma unsupported_format_trace_witness :
  sent (snd (on_download_request ex_DIR ex_title_only ex_idle ex_fileId
               ex_request_flac ex_fresh))
  = [ Status (lit "Fetching video information...") (num 5);
      Status (lit "Processing: Big Buck Bunny") (num 10);
      Error MSG_GENERIC ].
Proof.
  apply (proj1 (unsupported_format_trace ex_DIR ex_title_only ex_idle
                  ex_fileId ex_request_flac ex_fresh eq_refl eq_refl eq_refl
                  ltac:(intros [H|[H|[H|[H|[]]]]];
                        vm_compute in H; discriminate))).
Defined.

(** The audio branch on an open socket that stays open. *)
Lemma audio_download_open (DOWNLOADS_DIR : path) (yt_dlp : tool)
    (p : payload) (fileId sanitizedUrl : jsstring) (st : state) :
  readyState st = OPEN ->
  let run :=
    yt_dlp (audio_args DOWNLOADS_DIR p fileId sanitizedUrl) (files st) in
  exitCode run = 0%Z -> existsb is_close (events run) = false ->
  exists st',
    audio_download DOWNLOADS_DIR yt_dlp p fileId sanitizedUrl st
    = (Ok (path_join DOWNLOADS_DIR
             (workingName fileId sanitizedUrl ++ lit "." ++ format p)), st')
    /\ files st' = written (leaves run) (files st)
    /\ sent st'
       = sent st
         ++ Status (lit "Downloading audio...") (num 20)
            :: flat_map ytdlp_reports (events run)
    /\ readyState st' = OPEN.
Proof.
  intros Hopen run Hexit Hquiet. subst run. unfold audio_download.
  rewrite (bind_Ok _ _ _ _ _
             (sendProgress_open
                (Status (lit "Downloading audio...") (num 20)) st Hopen)).
  destruct (runYtDlp_open yt_dlp
              (audio_args DOWNLOADS_DIR p fileId sanitizedUrl)
              (mkState OPEN
                 (sent st ++ [Status (lit "Downloading audio...") (num 20)])
                 (files st)) eq_refl)
    as (st2 & E2 & F2 & S2 & R2). cbv zeta in E2, F2, S2, R2.
  cbn [files sent] in *. rewrite Hexit in E2. cbn [Z.eqb] in E2.
  apply (is_open_negb_false _ _ Hquiet) in R2.
  rewrite (bind_Ok _ _ _ _ _ E2). exists st2.
  rewrite S2, (before_close_quiet _ Hquiet), <- app_assoc. cbn [app].
  repeat split; assumption.
Qed.

(** X16. The whole trace of an audio job that succeeds. On an open
    socket, with a title run and a download run that exit with status 0
    while the socket stays open, and with a non-empty file under the
    working name and the requested extension after the download, the
    peer gets, in this order: the status of 5 percent, the reports of
    the title run, the status of 10 percent with the trimmed title, the
    status of 20 percent, the reports of the download run, and last the
    download-ready message, which carries the sanitised title with the
    requested extension, the size of that file and the path "/download/"
    followed by its name. The staging directory is what the two runs
    left. *)
Theorem audio_success_trace (DOWNLOADS_DIR : path) (yt_dlp ffmpeg : tool)
    (uuidv4 : jsstring) (p : payload) (st : state) (body : bytes) :
  readyState st = OPEN ->
  In (format p) [lit "mp3"; lit "m4a"] ->
  noSlash uuidv4 = true ->
  let title_run := yt_dlp [lit "--get-title"; url p] (files st) in
  let fs1 := written (leaves title_run) (files st) in
  let download_run :=
    yt_dlp (audio_args DOWNLOADS_DIR p uuidv4 (sanitizeUrl (url p))) fs1 in
  let fs2 := written (leaves download_run) fs1 in
  let name :=
    workingName uuidv4 (sanitizeUrl (url p)) ++ lit "." ++ format p in
  let videoTitle := trim (stdout_text (events title_run)) in
  exitCode title_run = 0%Z -> existsb is_close (events title_run) = false ->
  exitCode download_run = 0%Z ->
  existsb is_close (events download_run) = false ->
  fs_lookup (path_join DOWNLOADS_DIR name) fs2 = Some body -> body <> [] ->
  let out :=
    snd (on_download_request DOWNLOADS_DIR yt_dlp ffmpeg uuidv4 p st) in
  sent out
  = sent st
    ++ Status (lit "Fetching video information...") (num 5)
       :: flat_map ytdlp_reports (events title_run)
    ++ Status (lit "Processing: " ++ videoTitle) (num 10)
       :: Status (lit "Downloading audio...") (num 20)
       :: flat_map ytdlp_reports (events download_run)
    ++ [ DownloadReady (sanitizeTitle videoTitle ++ lit "." ++ format p)
           (N.of_nat (List.length body)) (lit "/download/" ++ name) ]
  /\ files out = fs2.
Proof.
  intros Hopen Hf Hid title_run fs1 download_run fs2 name videoTitle
    Hexit1 Hquiet1 Hexit2 Hquiet2 Hfile Hbody out.
  subst out videoTitle name fs2 download_run fs1 title_run.
  pose proof before_close_quiet as Hb.
  assert (Hname : noSlash (workingName uuidv4 (sanitizeUrl (url p))
                           ++ lit "." ++ format p) = true).
  { rewrite !noSlash_app,
      (workingName_noSlash _ _ Hid
         (isAlnum_noSlash _ (sanitizeUrl_alnum (url p)))).
    cbn [andb]. apply andb_true_iff. split; [reflexivity|].
    apply noSlash_formats. simpl in *. tauto. }
  unfold on_download_request.
  rewrite (bind_Ok _ _ _ _ _
             (sendProgress_open
                (Status (lit "Fetching video information...") (num 5))
                st Hopen)).
  unfold try_catch, download_job, ensureDownloadsDir.
  rewrite (bind_Ok _ _ _ _ tt eq_refl).
  destruct (runYtDlp_open yt_dlp [lit "--get-title"; url p]
              (mkState OPEN
                 (sent st ++ [Status (lit "Fetching video information...") (num 5)])
                 (files st)) eq_refl)
    as (st1 & E1 & F1 & S1 & R1). cbv zeta in E1, F1, S1, R1.
  cbn [files sent] in *.
  rewrite Hexit1 in E1. cbn [Z.eqb] in E1.
  apply (is_open_negb_false _ _ Hquiet1) in R1.
  rewrite (bind_Ok _ _ _ _ _ E1). cbv zeta.
  rewrite (bind_Ok _ _ _ _ _ (sendProgress_open _ st1 R1)).
  unfold download_step. rewrite (audio_dispatch _ Hf).
  destruct (audio_download_open DOWNLOADS_DIR yt_dlp p uuidv4
              (sanitizeUrl (url p))
              (mkState OPEN
                 (sent st1
                  ++ [Status
                        (lit "Processing: "
                         ++ trim (stdout_text
                                    (events (yt_dlp [lit "--get-title"; url p]
                                               (files st)))))
                        (num 10)])
                 (files st1)) eq_refl)
    as (st2 & E2 & F2 & S2 & R2);
    cbn [files sent] in *; rewrite ?F1 in *; try assumption.
  rewrite (bind_Ok _ _ _ _ _ E2).
  rewrite <- F2 in Hfile.
  rewrite (bind_Ok _ _ _ _ _ (finalize_run _ st2 body Hfile Hbody)).
  rewrite (path_basename_join _ _
             (plain_name_working _ _ _ Hname (startsWith_app _ _))),
    (sendProgress_open _ st2 R2).
  cbn [snd sent files].
  rewrite S2, S1, (Hb _ Hquiet1), <- !app_assoc. cbn [app].
  split; [reflexivity | exact F2].
Qed.

Lemma audio_success_trace_witness :
  sent (snd (on_download_request ex_DIR ex_audio_ok ex_idle ex_fileId
               ex_request ex_fresh))
  = [ Status (lit "Fetching video information...") (num 5);
      Status (lit "Processing: Big Buck Bunny") (num 10);
      Status (lit "Downloading audio...") (num 20);
      Progress (num 100);
      DownloadReady (lit "Big Buck Bunny.mp3") 8
        (lit "/download/7c9e6679-7425-40de-944b-e07fc1f90ae7_httpsexamp.mp3") ].
Proof.
  apply (proj1 (audio_success_trace ex_DIR ex_audio_ok ex_idle ex_fileId
                  ex_request ex_fresh ex_body eq_refl
                  (or_introl eq_refl) eq_refl eq_refl eq_refl eq_refl eq_refl
                  eq_refl ltac:(discriminate))).
Defined.

(** ** The terminal message *)

Lemma ends_ready_bind {A B} (m : M A) (k : A -> M B) :
  sends_only not_ready m -> (forall a, ends_ready (k a)) ->
  ends_ready (bind m k).
Proof.
  intros Hm Hk st. destruct (Hm st) as (l & E & F). unfold bind.
  destruct (m st) as [[a|e] st1]; cbn [snd] in E.
  - destruct (Hk a st1) as (body & Fb & Hb).
    exists (l ++ body). split; [apply Forall_app; auto|].
    destruct (k a st1) as [[b|e] st2].
    + destruct Hb as (f & s & u & Hs & Hb). exists f, s, u.
      split; [exact Hs|]. rewrite Hb, E, <- !app_assoc. reflexivity.
    + rewrite Hb, E, <- app_assoc. reflexivity.
  - exists l. split; assumption.
Qed.

Lemma ends_ready_finalize (finalPath : path) (filename url : jsstring) :
  ends_ready
    (size <- finalize finalPath ;;
     sendProgress (DownloadReady filename size url)).
Proof.
  intros st. exists []. split; [constructor|].
  unfold bind. pose proof (finalize_state finalPath st) as S.
  pose proof (finalize_positive finalPath st) as Hp.
  destruct (finalize finalPath st) as [[size|e] st1]; cbn [fst snd] in *;
    subst st1.
  - rewrite sendProgress_run. exists filename, size, url.
    split; [apply Hp; reflexivity | reflexivity].
  - rewrite app_nil_r. reflexivity.
Qed.

Lemma ends_ready_download_job (DOWNLOADS_DIR : path) (yt_dlp ffmpeg : tool)
    (uuidv4 : jsstring) (p : payload) :
  ends_ready (download_job DOWNLOADS_DIR yt_dlp ffmpeg uuidv4 p).
Proof.
  assert (Praw : forall args fs data,
            In (Stderr data) (events (yt_dlp args fs)) ->
            includes (lit "ERROR:") data = true -> not_ready (Error data))
    by (intros; reflexivity).
  unfold download_job, ensureDownloadsDir. cbv zeta.
  apply ends_ready_bind; [apply sends_only_ret | intros _].
  apply ends_ready_bind.
  { apply sends_only_runYtDlp; [intros; reflexivity | exact Praw]. }
  intros output. apply ends_ready_bind.
  { apply sends_only_sendProgress. reflexivity. }
  intros _. apply ends_ready_bind.
  { apply sends_only_download_step; try exact Praw; intros; reflexivity. }
  intros finalPath. apply ends_ready_finalize.
Qed.

Lemma is_open_not_open (r : ready_state) : is_open r = false -> r <> OPEN.
Proof. destruct r; simpl; congruence. Qed.

(** X17. The terminal message. What a download request delivers is a
    run of messages none of which is download-ready, followed by at most
    one terminal message: a download-ready message, announcing a size
    above zero, or an error with one of the five classified messages. A
    terminal message is missing only when the socket is not open at the
    end. So download-ready is delivered at most once per request, and
    nothing is delivered after it. *)
Theorem request_ends_with_one_terminal (DOWNLOADS_DIR : path)
    (yt_dlp ffmpeg : tool) (uuidv4 : jsstring) (p : payload) (st : state) :
  let out :=
    snd (on_download_request DOWNLOADS_DIR yt_dlp ffmpeg uuidv4 p st) in
  exists body tail,
    sent out = sent st ++ body ++ tail
    /\ Forall not_ready body
    /\ ((tail = [] /\ readyState out <> OPEN)
        \/ (exists f s u, tail = [DownloadReady f s u] /\ (0 < s)%N)
        \/ (exists text, tail = [Error text] /\ In text fixed_categories)).
Proof.
  cbv zeta. unfold on_download_request.
  rewrite (bind_Ok _ _ _ _ _ (sendProgress_run _ st)).
  set (st0 := mkState (readyState st) _ (files st)).
  assert (S0 : exists first, sent st0 = sent st ++ first
                             /\ Forall not_ready first).
  { subst st0. cbn [sent]. eexists. split; [reflexivity|].
    destruct (is_open (readyState st)); repeat constructor. }
  destruct S0 as (first & S0 & F0).
  destruct (ends_ready_download_job DOWNLOADS_DIR yt_dlp ffmpeg uuidv4 p st0)
    as (body & Fb & Hb).
  unfold try_catch.
  destruct (download_job DOWNLOADS_DIR yt_dlp ffmpeg uuidv4 p st0)
    as [[[]|e] st1].
  - destruct Hb as (f & s & u & Hs & Hb). cbn [snd].
    exists (first ++ body).
    exists (if is_open (readyState st1) then [DownloadReady f s u] else []).
    rewrite Hb, S0, <- !app_assoc.
    split; [reflexivity|]. split; [apply Forall_app; auto|].
    destruct (is_open (readyState st1)) eqn:O.
    + right; left. exists f, s, u. auto.
    + left. split; [reflexivity | apply is_open_not_open; exact O].
  - rewrite sendProgress_run. cbn [snd sent readyState].
    exists (first ++ body).
    exists (if is_open (readyState st1) then [Error (errorMessage e)] else []).
    rewrite Hb, S0, <- !app_assoc.
    split; [reflexivity|]. split; [apply Forall_app; auto|].
    destruct (is_open (readyState st1)) eqn:O.
    + right; right. exists (errorMessage e).
      split; [reflexivity | apply errorMessage_in_categories].
    + left. split; [reflexivity | apply is_open_not_open; exact O].
Qed.

(** ** The format selector for the best quality *)

(** X18. For a video container and the quality "auto", the selector has
    two alternatives: the best video stream in the requested container
    merged with the best audio, and as fallback the unconstrained
    "best". *)
Theorem formatSelector_auto_alternatives (format : jsstring) :
  In format [lit "mp4"; lit "webm"] ->
  alternatives (formatSelector format (lit "auto"))
  = [ lit "bestvideo[ext=" ++ format ++ lit "]+bestaudio"; lit "best" ].
Proof.
  intros Hf. unfold formatSelector. rewrite eqb_refl.
  assert (Nf : noSlash format = true)
    by (destruct Hf as [<- | [<- | []]]; reflexivity).
  change (lit "]+bestaudio/best")
    with (lit "]+bestaudio" ++ SLASH :: lit "best").
  replace (lit "bestvideo[ext=" ++ format ++ lit "]+bestaudio"
           ++ SLASH :: lit "best")
    with ((lit "bestvideo[ext=" ++ format ++ lit "]+bestaudio")
          ++ SLASH :: lit "best")
    by (repeat rewrite <- app_assoc; reflexivity).
  rewrite alternatives_app, alternatives_single; [reflexivity | reflexivity |].
  repeat rewrite noSlash_app. rewrite Nf. reflexivity.
Qed.

Lemma formatSelector_auto_alternatives_witness :
  alternatives (formatSelector (lit "mp4") (lit "auto"))
  = [ lit "bestvideo[ext=mp4]+bestaudio"; lit "best" ].
Proof.
  apply (formatSelector_auto_alternatives (lit "mp4")).
  simpl. auto.
Defined.

(** ** Messages that are no download request *)

(** X19. The message handler never lets an exception escape, whatever
    the message and whatever the tools do. A message that does not
    parse, or a download request without payload, is answered with the
    internal-error message when the socket is open; a message of any
    other type is ignored; in all these cases no tool is run and no
    file changes. *)
Theorem on_message_is_robust (DOWNLOADS_DIR : path) (yt_dlp ffmpeg : tool)
    (uuidv4 : jsstring) (m : inbound) (st : state) :
  let out := on_message DOWNLOADS_DIR yt_dlp ffmpeg uuidv4 m st in
  fst out = Ok tt
  /\ match m with
     | Envelope type (Some _) =>
         type <> lit "download-request" -> snd out = st
     | Envelope type None =>
         (type <> lit "download-request" -> snd out = st)
         /\ (type = lit "download-request" ->
             snd out
             = mkState (readyState st)
                 (sent st ++ (if is_open (readyState st)
                              then [Error MSG_INTERNAL] else []))
                 (files st))
     | Unparsable =>
         snd out
         = mkState (readyState st)
             (sent st ++ (if is_open (readyState st)
                          then [Error MSG_INTERNAL] else []))
             (files st)
     end.
Proof.
  cbv zeta. split; [apply on_message_returns|].
  assert (Hne : forall type, type <> lit "download-request" ->
                  eqb type (lit "download-request") = false).
  { intros type H. destruct (eqb type _) eqn:E; [|reflexivity].
    apply eqb_eq in E. contradiction. }
  assert (Hcatch : forall e : jsstring,
    (rs <- get_readyState ;;
     if is_open rs then ws_send (Error MSG_INTERNAL) else ret tt) st
    = (Ok tt,
       mkState (readyState st)
         (sent st ++ (if is_open (readyState st)
                      then [Error MSG_INTERNAL] else []))
         (files st))).
  { intros _. apply (sendProgress_run (Error MSG_INTERNAL) st). }
  unfold on_message. destruct m as [|type [p|]].
  - unfold try_catch, throw. rewrite (Hcatch []). reflexivity.
  - intros H. rewrite (Hne _ H). destruct st; reflexivity.
  - split.
    + intros H. rewrite (Hne _ H). destruct st; reflexivity.
    + intros ->. rewrite eqb_refl. unfold try_catch, throw.
      rewrite (Hcatch []). reflexivity.
Qed.

Lemma on_message_is_robust_witness :
  snd (on_message ex_DIR ex_audio_ok ex_idle ex_fileId
         (Envelope (lit "ping") (Some ex_request)) ex_fresh)
  = ex_fresh
  /\ snd (on_message ex_DIR ex_audio_ok ex_idle ex_fileId
            (Envelope (lit "download-request") None) ex_fresh)
     = mkState OPEN [Error MSG_INTERNAL] [].
Proof.
  split.
  - apply (proj2 (on_message_is_robust ex_DIR ex_audio_ok ex_idle ex_fileId
                    (Envelope (lit "ping") (Some ex_request)) ex_fresh)).
    vm_compute. discriminate.
  - apply (proj2 (proj2 (on_message_is_robust ex_DIR ex_audio_ok ex_idle
                           ex_fileId
                           (Envelope (lit "download-request") None)
                           ex_fresh))).
    reflexivity.
Defined.


(** ** What a job deletes *)

Lemma fs_write_cons (p : path) (b : bytes) (q : path) (c : bytes)
    (fs : filesystem) :
  fs_write p b ((q, c) :: fs)
  = if eqb q p then (q, b) :: fs else (q, c) :: fs_write p b fs.
Proof. reflexivity. Qed.

Lemma fs_write_keeps (p q : path) (b : bytes) (fs : filesystem) :
  fs_lookup q fs <> None -> fs_lookup q (fs_write p b fs) <> None.
Proof.
  induction fs as [|[r c] fs IH]; [intros H; exfalso; apply H; reflexivity|].
  rewrite fs_write_cons, fs_lookup_cons.
  destruct (eqb r p); rewrite fs_lookup_cons; destruct (eqb r q);
    try discriminate; auto.
Qed.

Lemma written_keeps (l : list (path * bytes)) (q : path) :
  forall fs, fs_lookup q fs <> None -> fs_lookup q (written l fs) <> None.
Proof.
  unfold written. induction l as [|[p b] l IH]; intros fs H; [exact H|].
  cbn [fold_left fst snd]. apply IH. apply fs_write_keeps. exact H.
Qed.

Lemma keeps_same_files (q : path) {A} (m : M A) :
  (forall st, files (snd (m st)) = files st) -> keeps_file q m.
Proof. intros H st Hq. rewrite H. exact Hq. Qed.

Lemma keeps_bind (q : path) {A B} (m : M A) (k : A -> M B) :
  keeps_file q m -> (forall a, keeps_file q (k a)) ->
  keeps_file q (bind m k).
Proof.
  intros Hm Hk st Hq. unfold bind. specialize (Hm st Hq).
  destruct (m st) as [[a|e] st1]; cbn [snd] in *; [apply Hk|]; exact Hm.
Qed.

Lemma keeps_bind_post (q : path) {A B} (Q : A -> Prop) (m : M A)
    (k : A -> M B) :
  keeps_file q m ->
  (forall st a, fst (m st) = Ok a -> Q a) ->
  (forall a, Q a -> keeps_file q (k a)) ->
  keeps_file q (bind m k).
Proof.
  intros Hm HQ Hk st Hq. unfold bind. specialize (Hm st Hq).
  specialize (HQ st).
  destruct (m st) as [[a|e] st1]; cbn [fst snd] in *;
    [apply (Hk a (HQ a eq_refl))|]; exact Hm.
Qed.

Lemma keeps_try (q : path) {A} (m : M A) (h : jsstring -> M A) :
  keeps_file q m -> (forall e, keeps_file q (h e)) ->
  keeps_file q (try_catch m h).
Proof.
  intros Hm Hh st Hq. unfold try_catch. specialize (Hm st Hq).
  destruct (m st) as [[a|e] st1]; cbn [snd] in *; [|apply Hh]; exact Hm.
Qed.

Lemma keeps_sendProgress (q : path) (update : message) :
  keeps_file q (sendProgress update).
Proof. apply keeps_same_files. apply sendProgress_files. Qed.

Lemma keeps_runYtDlp (q : path) (yt_dlp : tool) (args : list jsstring) :
  keeps_file q (runYtDlp yt_dlp args sendProgress).
Proof.
  intros st Hq. destruct (runYtDlp_result yt_dlp args st) as [_ F].
  cbv zeta in F. rewrite F. apply written_keeps. exact Hq.
Qed.

Lemma keeps_runFFmpeg (q : path) (ffmpeg : tool) (args : list jsstring) :
  keeps_file q (runFFmpeg ffmpeg args sendProgress).
Proof.
  intros st Hq. destruct (runFFmpeg_result ffmpeg args st) as [_ F].
  cbv zeta in F. rewrite F. apply written_keeps. exact Hq.
Qed.

Lemma keeps_fs_unlink (q p : path) : p <> q -> keeps_file q (fs_unlink p).
Proof.
  intros Hpq st Hq. rewrite fs_unlink_run.
  destruct (fs_lookup p (files st)); cbn [snd files]; [|exact Hq].
  rewrite (fs_lookup_remove_other p q _ Hpq). exact Hq.
Qed.

Lemma keeps_finalize (q : path) (finalPath : path) :
  keeps_file q (finalize finalPath).
Proof.
  apply keeps_same_files. intros st. rewrite finalize_state. reflexivity.
Qed.

Lemma keeps_ret (q : path) {A} (a : A) : keeps_file q (ret a).
Proof. apply keeps_same_files. reflexivity. Qed.

Lemma keeps_throw (q : path) {A} (e : jsstring) : keeps_file q (@throw A e).
Proof. apply keeps_same_files. reflexivity. Qed.

Lemma keeps_locate_download (q : path) (DOWNLOADS_DIR : path)
    (fileId sanitizedUrl : jsstring) :
  keeps_file q (locate_download DOWNLOADS_DIR fileId sanitizedUrl).
Proof.
  apply keeps_same_files. intros st. rewrite locate_download_run.
  reflexivity.
Qed.

Lemma locate_download_prefix (DOWNLOADS_DIR : path)
    (fileId sanitizedUrl : jsstring) (st : state) (f : jsstring) :
  fst (locate_download DOWNLOADS_DIR fileId sanitizedUrl st) = Ok f ->
  noSlash f = true /\ startsWith (workingName fileId sanitizedUrl) f = true.
Proof.
  rewrite locate_download_run. cbn [fst].
  destruct (find _ _) as [g|] eqn:E; [|discriminate].
  intros H; inversion H; subst. apply find_some_in in E as [Hin Hpre].
  split; [apply (fs_entries_in _ _ _ Hin) | exact Hpre].
Qed.

(** X20. The handler deletes nothing but files of its own job: a file
    that is in place when a download request arrives, and whose path is
    not the staging directory joined with an entry name (a name without
    separator) that starts with the job's working name, is still in
    place when the request has been handled, whether the job succeeded
    or failed. *)
Theorem job_keeps_foreign_files (DOWNLOADS_DIR : path) (yt_dlp ffmpeg : tool)
    (uuidv4 : jsstring) (p : payload) (q : path) (st : state) :
  (forall f, noSlash f = true ->
             startsWith (workingName uuidv4 (sanitizeUrl (url p))) f = true ->
             q <> path_join DOWNLOADS_DIR f) ->
  fs_lookup q (files st) <> None ->
  fs_lookup q
    (files (snd (on_download_request DOWNLOADS_DIR yt_dlp ffmpeg uuidv4 p st)))
  <> None.
Proof.
  intros Hq. revert st.
  change (keeps_file q
            (on_download_request DOWNLOADS_DIR yt_dlp ffmpeg uuidv4 p)).
  unfold on_download_request.
  apply keeps_bind; [apply keeps_sendProgress | intros _].
  apply keeps_try; [|intros e; apply keeps_sendProgress].
  unfold download_job, ensureDownloadsDir. cbv zeta.
  apply keeps_bind; [apply keeps_ret | intros _].
  apply keeps_bind; [apply keeps_runYtDlp | intros output].
  apply keeps_bind; [apply keeps_sendProgress | intros _].
  apply keeps_bind.
  2:{ intros finalPath. apply keeps_bind; [apply keeps_finalize|].
      intros size. apply keeps_sendProgress. }
  unfold download_step.
  destruct (existsb _ [lit "mp3"; lit "m4a"]).
  - unfold audio_download.
    apply keeps_bind; [apply keeps_sendProgress | intros _].
    apply keeps_bind; [apply keeps_runYtDlp | intros _]. apply keeps_ret.
  - destruct (existsb _ [lit "mp4"; lit "webm"]); [|apply keeps_throw].
    unfold video_download.
    apply keeps_bind; [apply keeps_sendProgress | intros _].
    apply keeps_bind; [apply keeps_runYtDlp | intros _].
    apply (keeps_bind_post q
             (fun f => noSlash f = true
                       /\ startsWith (workingName uuidv4 (sanitizeUrl (url p)))
                            f = true)).
    + apply keeps_locate_download.
    + intros st f. apply locate_download_prefix.
    + intros f [Hn Hf]. cbv zeta.
      destruct (negb _); [|apply keeps_ret].
      apply keeps_bind; [apply keeps_sendProgress | intros _].
      apply keeps_bind; [apply keeps_runFFmpeg | intros _].
      apply keeps_bind; [|intros _; apply keeps_ret].
      apply keeps_fs_unlink. intros E. exact (Hq f Hn Hf (eq_sym E)).
Qed.


Lemma job_keeps_foreign_files_witness :
  fs_lookup (path_join ex_DIR ex_foreign_name)
    (files (snd (on_download_request ex_DIR ex_leaves_webm ex_remux_ok
                   ex_fileId ex_request_mp4 ex_foreign)))
  <> None.
Proof.
  apply (job_keeps_foreign_files ex_DIR ex_leaves_webm ex_remux_ok ex_fileId
           ex_request_mp4 (path_join ex_DIR ex_foreign_name) ex_foreign).
  - intros f Hn Hf E.
    apply path_join_inj in E;
      [| reflexivity | exact (plain_name_working _ _ _ Hn Hf)].
    subst f. vm_compute in Hf. discriminate.
  - vm_compute. discriminate.
Defined.

Lemma retrieval_is_local_witness :
  path_join ex_DIR (lit "../secret.txt") = lit "/srv/videograb/secret.txt"
  /\ fs_lookup (path_join ex_DIR ex_staged_name)
       (files (snd (download_route ex_DIR (lit "../secret.txt") Completed
                      ex_exposed)))
     = Some ex_body
  /\ fs_lookup (path_join ex_DIR ex_foreign_name)
       (files (snd (download_route ex_DIR ex_staged_name (Partial 0 3)
                      (mkState OPEN []
                         [(path_join ex_DIR ex_staged_name, ex_body);
                          (path_join ex_DIR ex_foreign_name, ex_body)]))))
     = Some ex_body.
Proof.
  refine (conj _ (conj _ _)).
  - vm_compute. reflexivity.
  - rewrite (proj2 (proj2 (retrieval_is_local ex_DIR (lit "../secret.txt")
                             Completed ex_exposed))
               (path_join ex_DIR ex_staged_name)).
    + vm_compute. reflexivity.
    + vm_compute. discriminate.
  - rewrite (proj2 (proj2 (retrieval_is_local ex_DIR ex_staged_name
                             (Partial 0 3)
                             (mkState OPEN []
                                [(path_join ex_DIR ex_staged_name, ex_body);
                                 (path_join ex_DIR ex_foreign_name, ex_body)])))
               (path_join ex_DIR ex_foreign_name)).
    + vm_compute. reflexivity.
    + vm_compute. discriminate.
Defined.
